(** * Kinematic electron diffraction simulation

    A shallow embedding of [pyxem/generators/diffraction_generator.py]:
    the class [DiffractionGenerator] with its two methods
    [calculate_ed_data] (Ewald-sphere pattern) and [calculate_profile_data]
    (one dimensional powder profile).

    Numbers.  The source computes in IEEE doubles.  Finite doubles are
    idealised as rationals [Q] with exact arithmetic; the only place where
    the source can leave the finite numbers is a division by zero, which
    numpy answers with [inf] or [nan], so quotients live in [float64].
    The transcendental functions of numpy ([sqrt], [arcsin], [cos], and the
    exponentials inside the structure factor) have no rational counterpart
    and are taken as variables of the sections that need them. *)

From Stdlib Require Import QArith Qabs Qround Lqa ZArith List String.
From Stdlib Require Import Permutation Sorted Lia.
From stdpp Require Import gmap strings.
Import ListNotations.
Local Open Scope Q_scope.

(* ================================================================== *)
(** * Python values: exceptions and results *)
(* ================================================================== *)

Module Py.

(** A raised exception: the name of its class and its message. *)
Record exn := Exn { exn_class : string; exn_msg : string }.

Definition ValueError (msg : string) : exn := Exn "ValueError" msg.
Definition KeyError (msg : string) : exn := Exn "KeyError" msg.
Definition IndexError (msg : string) : exn := Exn "IndexError" msg.

(** The outcome of a call: a value, or an exception that unwinds. *)
Inductive result (A : Type) : Type :=
| Return (a : A)
| Raise (e : exn).
Arguments Return {A} a.
Arguments Raise {A} e.

Definition bind {A B} (r : result A) (k : A -> result B) : result B :=
  match r with
  | Return a => k a
  | Raise e => Raise e
  end.

(** A [for] loop whose body may raise: the state is threaded from left
    to right and the first exception ends the loop. *)
Fixpoint for_each {S B} (body : S -> B -> result S) (l : list B) (s : S)
  : result S :=
  match l with
  | [] => Return s
  | x :: l' => bind (body s x) (for_each body l')
  end.

(** [raises_class c r]: the call ended with an exception of class [c]. *)
Definition raises_class {A} (c : string) (r : result A) : Prop :=
  exists msg, r = Raise (Exn c msg).

(** The built-in [max] on a list: the first maximal element;
    [ValueError] on the empty list. *)
Definition Qltb (a b : Q) : bool := negb (Qle_bool b a).

Fixpoint max_from (m : Q) (l : list Q) : Q :=
  match l with
  | [] => m
  | x :: l' => max_from (if Qltb m x then x else m) l'
  end.

Definition max_empty : exn := ValueError "max() arg is an empty sequence".

Definition max (l : list Q) : result Q :=
  match l with
  | [] => Raise max_empty
  | x :: l' => Return (max_from x l')
  end.

(** The built-in [sorted]: a stable sort, driven by [<] on the keys
    alone.  [x] is placed in front of the first element that is not
    smaller than it, so elements that compare equal keep the order of
    the input. *)
Fixpoint insert_sorted {A} (ltb : A -> A -> bool) (x : A) (l : list A)
  : list A :=
  match l with
  | [] => [x]
  | y :: l' => if ltb y x then y :: insert_sorted ltb x l' else x :: l
  end.

Definition sorted {A} (ltb : A -> A -> bool) (l : list A) : list A :=
  fold_right (insert_sorted ltb) [] l.

(** [int(round(x))]: rounding to the nearest integer, halves to even. *)
Definition round (x : Q) : Z :=
  let f := Qfloor x in
  match Qcompare (x - inject_Z f) (1 # 2) with
  | Lt => f
  | Gt => (f + 1)%Z
  | Eq => if Z.even f then f else (f + 1)%Z
  end.

End Py.

Notation "'let*' x ':=' e 'in' k" := (Py.bind e (fun x => k))
  (at level 10, x name, e at level 100, k at level 200, only parsing).
Notation "'let*' ' p ':=' e 'in' k" := (Py.bind e (fun p => k))
  (at level 10, p pattern, e at level 100, k at level 200, only parsing).

Import Py.

(* ================================================================== *)
(** * numpy scalars *)
(* ================================================================== *)

Module Np.

(** An [np.float64]: a finite value, or what a division by zero leaves. *)
Inductive float64 : Type :=
| Fin (q : Q)
| PosInf
| NegInf
| NaN.

(** [a / b] on finite operands: a zero divisor gives [nan] for [0/0] and
    a signed infinity otherwise (numpy warns and goes on). *)
Definition div (a b : Q) : float64 :=
  if Qeq_bool b 0 then
    match Qcompare a 0 with
    | Eq => NaN
    | Gt => PosInf
    | Lt => NegInf
    end
  else Fin (a / b).

(** [x * c] for a finite [c]. *)
Definition mul (x : float64) (c : Q) : float64 :=
  match x with
  | Fin q => Fin (q * c)
  | NaN => NaN
  | PosInf =>
      match Qcompare c 0 with Eq => NaN | Gt => PosInf | Lt => NegInf end
  | NegInf =>
      match Qcompare c 0 with Eq => NaN | Gt => NegInf | Lt => PosInf end
  end.

(** [x > m]: every comparison with [nan] is false. *)
Definition gt (x : float64) (m : Q) : bool :=
  match x with
  | Fin q => Qltb m q
  | PosInf => true
  | NegInf => false
  | NaN => false
  end.

(** [a[mask]] with a boolean mask: the entries where the mask is true;
    the mask must be as long as the array. *)
Fixpoint select {A} (a : list A) (mask : list bool) : list A :=
  match a, mask with
  | x :: a', b :: mask' =>
      if b then x :: select a' mask' else select a' mask'
  | _, _ => []
  end.

Definition boolean_index {A} (a : list A) (mask : list bool)
  : result (list A) :=
  if Nat.eqb (length a) (length mask) then Return (select a mask)
  else Raise (IndexError "boolean index did not match indexed array").

End Np.

Import Np.

(* ================================================================== *)
(** * The data model *)
(* ================================================================== *)

Definition vec3 : Type := Q * Q * Q.

(** A species of a site: [sp.symbol] and [sp.Z]. *)
Record Specie := { symbol : string; atomic_number : Z }.

(** A site: [site.species_and_occu.items()] in the order of the
    dictionary, and [site.frac_coords]. *)
Record Site := {
  species_and_occu : list (Specie * Q);
  frac_coords : vec3
}.

(** One point of [get_points_in_sphere]: fractional coordinates (the
    Miller indices, as floats), distance to the centre, site index. *)
Definition recip_point : Type := vec3 * Q * Z.

(** The reciprocal lattice of pymatgen, through the two methods the
    generator calls. *)
Record ReciprocalLattice := {
  get_points_in_sphere : Q -> list recip_point;
  get_cartesian_coords : vec3 -> vec3
}.

Record Lattice := {
  is_hexagonal : bool;
  reciprocal_lattice_crystallographic : ReciprocalLattice
}.

Record Structure := {
  lattice : Lattice;
  sites : list Site
}.

(** One row of [ATOMIC_SCATTERING_PARAMS]: the pairs [(a_i, b_i)]. *)
Definition scattering_coeffs : Type := list (Q * Q).

(** The arrays [zs], [coeffs], [fcoords], [occus] and [dwfactors] that
    [calculate_profile_data] builds, one entry per species of a site. *)
Record Flattened := {
  zs : list Z;
  coeffs : list scattering_coeffs;
  fcoords : list vec3;
  occus : list Q;
  dwfactors : list Q
}.

Definition Flattened_empty : Flattened :=
  {| zs := []; coeffs := []; fcoords := []; occus := []; dwfactors := [] |}.

(** A tuple of Miller indices: three of them, four on a hexagonal lattice. *)
Definition hkl_tuple : Type := list Z.

(** A value of the dictionary [peaks]: the list [[i_hkl, [hkl, ...], d_hkl]]. *)
Record Bucket := {
  b_intensity : Q;
  b_hkls : list hkl_tuple;
  b_d_hkl : Q
}.

(** The dictionary [peaks], keyed by magnitude, in insertion order.  Keys
    are floats: two keys are the same key when they are equal as numbers. *)
Definition peaks_dict : Type := list (Q * Bucket).

Fixpoint dict_get (d : peaks_dict) (k : Q) : result Bucket :=
  match d with
  | [] => Raise (KeyError "peaks")
  | (k', v) :: d' => if Qeq_bool k' k then Return v else dict_get d' k
  end.

(** [d[k] = v]: the value of an existing key is replaced where it stands,
    a new key goes to the end. *)
Fixpoint dict_set (d : peaks_dict) (k : Q) (v : Bucket) : peaks_dict :=
  match d with
  | [] => [(k, v)]
  | (k', v') :: d' =>
      if Qeq_bool k' k then (k', v) :: d' else (k', v') :: dict_set d' k v
  end.

Definition dict_keys (d : peaks_dict) : list Q := List.map fst d.
Definition dict_values (d : peaks_dict) : list Bucket := List.map snd d.

(** The generator: the fields set by [__init__]. *)
Record DiffractionGenerator := {
  wavelength : Q;
  max_excitation_error : Q;
  debye_waller_factors : gmap string Q
}.

(** [__init__]: the wavelength comes from [get_electron_wavelength]
    (pyxem.utils.sim_utils), and [debye_waller_factors or {}] turns a
    missing map into the empty one. *)
Definition DiffractionGenerator_init (get_electron_wavelength : Q -> Q)
    (accelerating_voltage max_excitation_error : Q)
    (debye_waller_factors : option (gmap string Q)) : DiffractionGenerator :=
  {| wavelength := get_electron_wavelength accelerating_voltage;
     max_excitation_error := max_excitation_error;
     debye_waller_factors := default ∅ debye_waller_factors |}.

(** [DiffractionSimulation(coordinates, indices, intensities,
    with_direct_beam)]. *)
Record DiffractionSimulation := {
  coordinates : list vec3;
  indices : list vec3;
  ed_intensities : list Q;
  with_direct_beam : bool
}.

(** [ProfileSimulation(x, y, hkls)]. *)
Record ProfileSimulation (families : Type) := {
  magnitudes : list Q;
  intensities : list float64;
  hkls : list families
}.
Arguments magnitudes {families} _.
Arguments intensities {families} _.
Arguments hkls {families} _.

(* ================================================================== *)
(** * [calculate_profile_data] *)
(* ================================================================== *)

Section Profile.

(** The module-level table [ATOMIC_SCATTERING_PARAMS]
    (pyxem.utils.atomic_scattering_params). *)
Variable ATOMIC_SCATTERING_PARAMS : gmap string scattering_coeffs.

(** The numpy expression for the structure factor [f_hkl] (the lines from
    [g_dot_r] to [f_hkl]): a complex number, given as real and imaginary
    part, computed from the flattened arrays, the rounded indices and
    [s2].  It is built from [np.exp] and is taken as given; numpy raises
    on arrays of the wrong shape. *)
Variable structure_factor :
  Flattened -> list Z -> Q -> result (Q * Q).

(** [get_unique_families] of pyxem.utils.sim_utils and the type of its
    result. *)
Variable families : Type.
Variable get_unique_families : list hkl_tuple -> families.

(** ** Flattening the structure *)

Definition no_coefficients (sym : string) : exn :=
  ValueError
    ("Unable to calculate XRD pattern as there is no scattering coefficients for "
       +:+ sym +:+ ".").

(** The body of the inner loop over [site.species_and_occu.items()]. *)
Definition flatten_specie (self : DiffractionGenerator) (site : Site)
    (acc : Flattened) (item : Specie * Q) : result Flattened :=
  let '(sp, occu) := item in
  match ATOMIC_SCATTERING_PARAMS !! symbol sp with
  | None => Raise (no_coefficients (symbol sp))
  | Some c =>
      Return {| zs := zs acc ++ [atomic_number sp];
                coeffs := coeffs acc ++ [c];
                dwfactors :=
                  dwfactors acc
                    ++ [default 0 (debye_waller_factors self !! symbol sp)];
                fcoords := fcoords acc ++ [frac_coords site];
                occus := occus acc ++ [occu] |}
  end.

Definition flatten_site (self : DiffractionGenerator) (acc : Flattened)
    (site : Site) : result Flattened :=
  for_each (flatten_specie self site) (species_and_occu site) acc.

Definition flatten_structure (self : DiffractionGenerator)
    (structure : Structure) : result Flattened :=
  for_each (flatten_site self) (sites structure) Flattened_empty.

(** ** The order in which the points are processed *)

(** [key=lambda i: (i[1], -i[0][0], -i[0][1], -i[0][2])]. *)
Definition sort_key (i : recip_point) : Q * Q * Q * Q :=
  let '((h, k, l), g_hkl, _) := i in (g_hkl, - h, - k, - l).

(** [a < b] on tuples of four floats: decided by the first component
    in which they differ. *)
Definition tuple_ltb (a b : Q * Q * Q * Q) : bool :=
  let '(a0, a1, a2, a3) := a in
  let '(b0, b1, b2, b3) := b in
  if negb (Qeq_bool a0 b0) then Qltb a0 b0
  else if negb (Qeq_bool a1 b1) then Qltb a1 b1
  else if negb (Qeq_bool a2 b2) then Qltb a2 b2
  else Qltb a3 b3.

Definition point_ltb (i j : recip_point) : bool :=
  tuple_ltb (sort_key i) (sort_key j).

Definition sorted_points (recip_pts : list recip_point) : list recip_point :=
  sorted point_ltb recip_pts.

(** ** The loop over the sorted points *)

(** [ind = np.where(np.abs(np.subtract(gs, g_hkl)) < magnitude_tolerance)]
    followed by [gs[ind[0][0]]]: the first recorded magnitude within the
    tolerance, if there is one. *)
Definition within (magnitude_tolerance g_hkl g : Q) : bool :=
  Qltb (Qabs (g - g_hkl)) magnitude_tolerance.

Definition first_within (gs : list Q) (g_hkl magnitude_tolerance : Q)
  : option Q :=
  List.find (within magnitude_tolerance g_hkl) gs.

(** The state of the loop: the dictionary [peaks] and the list [gs]. *)
Definition loop_state : Type := peaks_dict * list Q.

Definition intensity_of (f_hkl : Q * Q) : Q :=
  fst f_hkl * fst f_hkl + snd f_hkl * snd f_hkl.

Definition miller_bravais (hkl : list Z) : list Z :=
  match hkl with
  | [h; k; l] => [h; k; (- h - k)%Z; l]
  | _ => hkl
  end.

(** One iteration of [for hkl, g_hkl, ind in sorted(recip_pts, ...)]. *)
Definition process_point (flat : Flattened) (is_hex : bool)
    (magnitude_tolerance : Q) (st : loop_state) (pt : recip_point)
  : result loop_state :=
  let '(peaks, gs) := st in
  let '((h, k, l), g_hkl, _) := pt in
  let hkl := [round h; round k; round l] in
  if negb (Qeq_bool g_hkl 0) then
    let d_hkl := 1 / g_hkl in
    let s := g_hkl / 2 in
    let s2 := s * s in
    let* f_hkl := structure_factor flat hkl s2 in
    let i_hkl := intensity_of f_hkl in
    let hkl := if is_hex then miller_bravais hkl else hkl in
    match first_within gs g_hkl magnitude_tolerance with
    | Some g =>
        (* both statements mutate the list stored under [peaks[g]] *)
        let* v := dict_get peaks g in
        Return (dict_set peaks g
                  {| b_intensity := b_intensity v + i_hkl;
                     b_hkls := b_hkls v ++ [hkl];
                     b_d_hkl := b_d_hkl v |},
                gs)
    | None =>
        Return (dict_set peaks g_hkl
                  {| b_intensity := i_hkl;
                     b_hkls := [hkl];
                     b_d_hkl := d_hkl |},
                gs ++ [g_hkl])
    end
  else Return st.

Definition merge_loop (flat : Flattened) (is_hex : bool)
    (magnitude_tolerance : Q) (pts : list recip_point) : result loop_state :=
  for_each (process_point flat is_hex magnitude_tolerance)
    (sorted_points pts) ([], []).

(** ** Scaling and filtering *)

(** The lists [x], [y], [hkls] and [d_hkls] grow together, one entry
    each per kept peak; a row holds the four entries of one peak. *)
Definition row : Type := Q * Q * families * Q.

Definition keeps (max_intensity minimum_intensity : Q) (v : Bucket) : bool :=
  gt (mul (div (b_intensity v) max_intensity) 100) minimum_intensity.

(** The body of [for k in sorted(peaks.keys())]. *)
Definition filter_peak (peaks : peaks_dict)
    (max_intensity minimum_intensity : Q) (rows : list row) (k : Q)
  : result (list row) :=
  let* v := dict_get peaks k in
  let fam := get_unique_families (b_hkls v) in
  if keeps max_intensity minimum_intensity v then
    Return (rows ++ [(k, b_intensity v, fam, b_d_hkl v)])
  else Return rows.

Definition row_x (r : row) : Q := let '(k, _, _, _) := r in k.
Definition row_y (r : row) : Q := let '(_, y, _, _) := r in y.
Definition row_hkls (r : row) : families := let '(_, _, f, _) := r in f.

(** Everything after the loop over the points. *)
Definition scale_and_filter (peaks : peaks_dict) (minimum_intensity : Q)
  : result (ProfileSimulation families) :=
  let* max_intensity := max (List.map b_intensity (dict_values peaks)) in
  let* rows :=
    for_each (filter_peak peaks max_intensity minimum_intensity)
      (sorted Qltb (dict_keys peaks)) [] in
  let y := List.map row_y rows in
  let* max_y := max y in
  Return {| magnitudes := List.map row_x rows;
            intensities := List.map (fun v => mul (div v max_y) 100) y;
            hkls := List.map row_hkls rows |}.

Definition calculate_profile_data (self : DiffractionGenerator)
    (structure : Structure)
    (reciprocal_radius magnitude_tolerance minimum_intensity : Q)
  : result (ProfileSimulation families) :=
  let max_r := reciprocal_radius in
  let latt := lattice structure in
  let is_hex := is_hexagonal latt in
  let recip_latt := reciprocal_lattice_crystallographic latt in
  let recip_pts := get_points_in_sphere recip_latt max_r in
  let* flat := flatten_structure self structure in
  let* '(peaks, gs) := merge_loop flat is_hex magnitude_tolerance recip_pts in
  scale_and_filter peaks minimum_intensity.

End Profile.

(* ================================================================== *)
(** * [calculate_ed_data] *)
(* ================================================================== *)

Section Pattern.

(** [np.sqrt], [np.arcsin] and [np.cos]. *)
Variables np_sqrt np_arcsin np_cos : Q -> Q.

(** [get_kinematical_intensities] of pyxem.utils.sim_utils, called with
    the structure, the indices, magnitudes and excitation errors of the
    excited reflections, the maximum excitation error and the
    Debye-Waller factors. *)
Variable get_kinematical_intensities :
  Structure -> list vec3 -> list Q -> list Q -> Q -> gmap string Q
  -> result (list Q).

(** The excitation error of one point, from its Cartesian coordinates:
    the distance along z to the Ewald sphere of radius [1 / wavelength].
    The wavelength of an electron is positive. *)
Definition excitation_error (wavelength : Q) (c : vec3) : Q :=
  let '(x, y, z) := c in
  let radius := 1 / wavelength in
  let r := np_sqrt (x * x + y * y) in
  let theta := np_arcsin (r / radius) in
  let z_sphere := radius * (1 - np_cos theta) in
  Qabs (z_sphere - z).

(** The noise floor [1e-20] of the peak mask. *)
Definition noise_floor : Q := 1 # (10 ^ 20).

(** The first half of [calculate_ed_data]: the points of the sphere, their
    excitation errors, and the four arrays masked by [intersection]:
    coordinates, indices, excitation errors and magnitudes of the excited
    reflections. *)
Definition excited_reflections (self : DiffractionGenerator)
    (structure : Structure) (reciprocal_radius : Q)
  : result (list vec3 * list vec3 * list Q * list Q) :=
  let wavelength := wavelength self in
  let max_excitation_error := max_excitation_error self in
  let latt := lattice structure in
  let recip_latt := reciprocal_lattice_crystallographic latt in
  let pts := get_points_in_sphere recip_latt reciprocal_radius in
  let recip_pts := List.map (fun p => fst (fst p)) pts in
  let g_hkls := List.map (fun p => snd (fst p)) pts in
  let cartesian_coordinates :=
    List.map (get_cartesian_coords recip_latt) recip_pts in
  let proximity :=
    List.map (excitation_error wavelength) cartesian_coordinates in
  let intersection :=
    List.map (fun p => Qltb p max_excitation_error) proximity in
  let* intersection_coordinates :=
    boolean_index cartesian_coordinates intersection in
  let* intersection_indices := boolean_index recip_pts intersection in
  let* proximity := boolean_index proximity intersection in
  let* g_hkls := boolean_index g_hkls intersection in
  Return (intersection_coordinates, intersection_indices, proximity, g_hkls).

Definition calculate_ed_data (self : DiffractionGenerator)
    (structure : Structure) (reciprocal_radius : Q)
    (with_direct_beam : bool) : result DiffractionSimulation :=
  let max_excitation_error := max_excitation_error self in
  let debye_waller_factors := debye_waller_factors self in
  let* '(intersection_coordinates, intersection_indices, proximity, g_hkls) :=
    excited_reflections self structure reciprocal_radius in
  let* intensities :=
    get_kinematical_intensities structure intersection_indices g_hkls
      proximity max_excitation_error debye_waller_factors in
  let peak_mask := List.map (fun i => Qltb noise_floor i) intensities in
  let* intensities := boolean_index intensities peak_mask in
  let* intersection_coordinates :=
    boolean_index intersection_coordinates peak_mask in
  let* intersection_indices :=
    boolean_index intersection_indices peak_mask in
  Return {| coordinates := intersection_coordinates;
            indices := intersection_indices;
            ed_intensities := intensities;
            with_direct_beam := with_direct_beam |}.

End Pattern.

(* ================================================================== *)
(** * pyxem.utils.sim_utils *)
(* ================================================================== *)

Module SimUtils.

Section KinematicalIntensities.

Variable ATOMIC_SCATTERING_PARAMS : gmap string scattering_coeffs.

(** The intensity of one excited reflection, from the structure, the
    Debye-Waller factors, the maximum excitation error and the index,
    magnitude and excitation error of the reflection.  The specification
    leaves the attenuation law open. *)
Variable kinematical_intensity :
  Structure -> gmap string Q -> Q -> vec3 * Q * Q -> Q.

(** Modelled from the spec: the error of section 7, "a site references a
    species with no entry in the scattering-parameter table", which names
    the missing element symbol. *)
Definition UnknownElementError (sym : string) : exn :=
  Exn "UnknownElementError" sym.

(** Modelled from the spec: the lookup of one species of a site in the
    scattering table (4.1, edge cases). *)
Definition check_specie (_ : unit) (item : Specie * Q) : result unit :=
  match ATOMIC_SCATTERING_PARAMS !! symbol (fst item) with
  | None => Raise (UnknownElementError (symbol (fst item)))
  | Some _ => Return tt
  end.

(** Modelled from the spec: the lookups for the species of one site. *)
Definition check_site (u : unit) (site : Site) : result unit :=
  for_each check_specie (species_and_occu site) u.

(** Modelled from the spec: [get_kinematical_intensities] belongs to
    pyxem.utils.sim_utils, which is not among the sources.  The
    specification (4.1, step 4 and edge cases; 7) gives it two duties: a
    species without an entry in the scattering table is fatal and is
    reported as [UnknownElementError] naming the symbol, and every retained
    point gets one kinematic intensity. *)
Definition get_kinematical_intensities (structure : Structure)
    (g_indices : list vec3) (g_hkls excitation_error : list Q)
    (max_excitation_error : Q) (debye_waller_factors : gmap string Q)
  : result (list Q) :=
  let* _ := for_each check_site (sites structure) tt in
  Return (List.map
            (kinematical_intensity structure debye_waller_factors
               max_excitation_error)
            (combine (combine g_indices g_hkls) excitation_error)).

End KinematicalIntensities.

End SimUtils.

(* ================================================================== *)
(** * Vocabulary of the statements *)
(* ================================================================== *)

(** [key_le i j]: the sort key of [i] is not above that of [j]: smaller
    magnitude first, then larger h, then larger k, then larger l. *)
Definition key_le (i j : recip_point) : Prop :=
  let '((h, k, l), g, _) := i in
  let '((h', k', l'), g', _) := j in
  g < g' \/
  (g == g' /\
   (h' < h \/
    (h == h' /\
     (k' < k \/
      (k == k' /\ l' <= l))))).

(** No two different points of [pts] have the same sort key. *)
Definition ties_identical (pts : list recip_point) : Prop :=
  forall i j, In i pts -> In j pts -> key_le i j -> key_le j i -> i = j.

(** The recorded magnitudes lie at least [tol] apart, pair by pair. *)
Definition separated (tol : Q) (gs : list Q) : Prop :=
  ForallOrdPairs (fun a b => tol <= Qabs (a - b)) gs.

(** What the loop over the points keeps true of [peaks] and [gs]: the keys
    of [peaks] are recorded in [gs], every recorded magnitude is a key (as
    a number), no accumulated intensity is negative, and under a positive
    tolerance [gs] lists the keys exactly and they are separated; no two
    keys of [peaks] are the same number. *)
Record loop_inv (tol : Q) (st : loop_state) : Prop := {
  inv_keys : forall k, In k (dict_keys (fst st)) -> In k (snd st);
  inv_gs : forall g, In g (snd st) ->
                     exists k, In k (dict_keys (fst st)) /\ k == g;
  inv_nonneg : forall b, In b (dict_values (fst st)) -> 0 <= b_intensity b;
  inv_sep : 0 < tol -> dict_keys (fst st) = snd st /\ separated tol (snd st);
  inv_wf : ForallOrdPairs (fun a b => ~ a == b) (dict_keys (fst st))
}.

(** The items of [peaks] in the order of [sorted(peaks.keys())]. *)
Definition sorted_items (peaks : peaks_dict) : list (Q * Bucket) :=
  flat_map (fun k => match dict_get peaks k with
                     | Return v => [(k, v)]
                     | Raise _ => []
                     end)
    (sorted Qltb (dict_keys peaks)).

(** The row that a kept peak adds to [x], [y], [hkls] and [d_hkls]. *)
Definition row_of {families : Type}
    (get_unique_families : list hkl_tuple -> families) (kv : Q * Bucket)
  : row families :=
  (fst kv, b_intensity (snd kv), get_unique_families (b_hkls (snd kv)),
   b_d_hkl (snd kv)).

(** The peaks that pass the filter, in the order of their magnitudes. *)
Definition kept_items (peaks : peaks_dict)
    (max_intensity minimum_intensity : Q) : list (Q * Bucket) :=
  List.filter (fun kv => keeps max_intensity minimum_intensity (snd kv))
    (sorted_items peaks).

(** The records of a profile: magnitude, intensity and family, peak by
    peak. *)
Definition records {families : Type} (sim : ProfileSimulation families)
  : list (Q * float64 * families) :=
  combine (combine (magnitudes sim) (intensities sim)) (hkls sim).

(** [x] is the first maximal element of [l]. *)
Definition first_max (l : list Q) (x : Q) : Prop :=
  exists pre post,
    l = pre ++ x :: post
    /\ Forall (fun a => a < x) pre
    /\ Forall (fun a => a <= x) post.

(** The excitation error in the words of the specification:
    [|(1/wavelength) (1 - cos (arcsin (sqrt (x^2 + y^2) wavelength))) - z|],
    to be compared with [excitation_error], which follows the source. *)
Definition ewald_distance (np_sqrt np_arcsin np_cos : Q -> Q)
    (wavelength : Q) (c : vec3) : Q :=
  let '(x, y, z) := c in
  Qabs ((1 / wavelength)
        * (1 - np_cos (np_arcsin (np_sqrt (x * x + y * y) * wavelength)))
        - z).

(** A species of the structure whose symbol has no row in the table. *)
Definition missing_symbol (table : gmap string scattering_coeffs)
    (site_list : list Site) (sym : string) : Prop :=
  exists site sp occu,
    In site site_list /\ In (sp, occu) (species_and_occu site)
    /\ symbol sp = sym /\ table !! sym = None.

(** [g_hkl != 0], the test that lets a point into the body of the loop. *)
Definition nonzero_magnitude (pt : recip_point) : bool :=
  negb (Qeq_bool (snd (fst pt)) 0).

(** The sum of a list of numbers. *)
Definition Qsum (l : list Q) : Q := fold_right Qplus 0 l.

(** The intensity [i_hkl] that the loop computes for a point, and 0 where
    the structure factor raises. *)
Definition reflection_intensity
    (structure_factor : Flattened -> list Z -> Q -> result (Q * Q))
    (flat : Flattened) (pt : recip_point) : Q :=
  let '((h, k, l), g_hkl, _) := pt in
  match structure_factor flat [round h; round k; round l]
          (g_hkl / 2 * (g_hkl / 2)) with
  | Return f_hkl => intensity_of f_hkl
  | Raise _ => 0
  end.

(** The tuple [tuple(hkl)] that the loop stores for a point. *)
Definition stored_tuple (is_hex : bool) (pt : recip_point) : hkl_tuple :=
  let '((h, k, l), _, _) := pt in
  if is_hex then [round h; round k; (- round h - round k)%Z; round l]
  else [round h; round k; round l].

(** The pairs of a site and one of its species, in the order of the two
    nested loops over the structure. *)
Definition species_rows (site_list : list Site)
  : list (Site * (Specie * Q)) :=
  flat_map (fun site => List.map (pair site) (species_and_occu site))
    site_list.

(** [same_magnitude k pt]: the magnitude of the point is not zero and is
    the number [k]. *)
Definition same_magnitude (k : Q) (pt : recip_point) : bool :=
  nonzero_magnitude pt && Qeq_bool (snd (fst pt)) k.

(** The tolerance resolves the points: two nonzero magnitudes are the same
    number or lie at least [tol] apart. *)
Definition resolved (tol : Q) (pts : list recip_point) : Prop :=
  forall p q,
    In p pts -> In q pts ->
    nonzero_magnitude p = true -> nonzero_magnitude q = true ->
    snd (fst p) == snd (fst q) \/ tol <= Qabs (snd (fst p) - snd (fst q)).

(** What [peaks] holds under a key: the accumulated intensity and the
    number of tuples, both 0 for a key that is absent. *)
Definition intensity_at (d : peaks_dict) (k : Q) : Q :=
  match dict_get d k with
  | Return b => b_intensity b
  | Raise _ => 0
  end.

Definition tuples_at (d : peaks_dict) (k : Q) : nat :=
  match dict_get d k with
  | Return b => length (b_hkls b)
  | Raise _ => 0%nat
  end.

(* ================================================================== *)
(** * A cubic cell, to run the definitions on *)
(* ================================================================== *)

Module Example.

(** A scattering table with a single row. *)
Definition table : gmap string scattering_coeffs :=
  {[ "Al"%string := [(1, 2); (3, 4)] ]}.

(** A structure factor of modulus one for every reflection. *)
Definition factor_one (_ : Flattened) (_ : list Z) (_ : Q)
  : result (Q * Q) := Return (1, 0).

(** A structure factor of modulus one that vanishes when the thermal
    damping [np.exp(-dwfactors * s2)] of every species underflows to 0.0,
    as it does in doubles once [dwfactors * s2] is above 746. *)
Definition damped_factor (flat : Flattened) (_ : list Z) (s2 : Q)
  : result (Q * Q) :=
  if forallb (fun b => Qltb 746 (b * s2)) (dwfactors flat)
  then Return (0, 0)
  else Return (1, 0).

(** The families of a peak, taken to be its list of tuples. *)
Definition same_families (l : list hkl_tuple) : list hkl_tuple := l.

(** The reciprocal lattice of a cubic cell of 4 angstrom, for radii below
    0.35: the origin and, from 0.25 on, the six points of the family
    {100}. *)
Definition cubic_points (r : Q) : list recip_point :=
  if Qltb r 0 then []
  else if Qltb r (1 # 4) then [((0, 0, 0), 0, 0%Z)]
  else [((0, 0, 0), 0, 0%Z);
        ((0, 0, 1), 1 # 4, 0%Z); ((1, 0, 0), 1 # 4, 0%Z);
        ((0, -1, 0), 1 # 4, 0%Z); ((-1, 0, 0), 1 # 4, 0%Z);
        ((0, 1, 0), 1 # 4, 0%Z); ((0, 0, -1), 1 # 4, 0%Z)].

Definition cubic_cart (c : vec3) : vec3 :=
  let '(h, k, l) := c in (h / 4, k / 4, l / 4).

Definition cubic : Lattice :=
  {| is_hexagonal := false;
     reciprocal_lattice_crystallographic :=
       {| get_points_in_sphere := cubic_points;
          get_cartesian_coords := cubic_cart |} |}.

(** The same lattice, enumerating its points in the reverse order. *)
Definition cubic_reversed : Lattice :=
  {| is_hexagonal := false;
     reciprocal_lattice_crystallographic :=
       {| get_points_in_sphere := fun r => rev (cubic_points r);
          get_cartesian_coords := cubic_cart |} |}.

Definition site_of (sym : string) (z : Z) : Site :=
  {| species_and_occu := [({| symbol := sym; atomic_number := z |}, 1)];
     frac_coords := (0, 0, 0) |}.

(** One atom at the origin of the cell: aluminium, and an element that the
    table does not list. *)
Definition aluminium : Structure :=
  {| lattice := cubic; sites := [site_of "Al" 13] |}.

Definition aluminium_reversed : Structure :=
  {| lattice := cubic_reversed; sites := [site_of "Al" 13] |}.

Definition unlisted : Structure :=
  {| lattice := cubic; sites := [site_of "Xx" 0] |}.

(** A generator at 200 kV: a wavelength of 0.0251 angstrom. *)
Definition generator : DiffractionGenerator :=
  {| wavelength := 251 # 10000;
     max_excitation_error := 1 # 100;
     debye_waller_factors := ∅ |}.

(** The same generator with a Debye-Waller factor of 10^7 for aluminium:
    at the magnitude 0.25 of {100}, [dwfactors * s2] is 156250. *)
Definition hot_generator : DiffractionGenerator :=
  {| wavelength := 251 # 10000;
     max_excitation_error := 1 # 100;
     debye_waller_factors := {[ "Al"%string := 10000000 ]} |}.

(** Rational stand-ins for [np.sqrt], [np.arcsin] and [np.cos], exact
    at 0. *)
Definition small_sqrt (x : Q) : Q := x.
Definition small_arcsin (x : Q) : Q := x.
Definition small_cos (x : Q) : Q := 1 - x * x / 2.

(** Every excited reflection with intensity one. *)
Definition unit_intensity (_ : Structure) (_ : gmap string Q) (_ : Q)
    (_ : vec3 * Q * Q) : Q := 1.

(** Two reflections 0.01 apart. *)
Definition near_a : recip_point := ((1, 0, 0), 25 # 100, 0%Z).
Definition near_b : recip_point := ((0, 1, 0), 26 # 100, 0%Z).

(** The cubic lattice with the direct beam left out of the enumeration. *)
Definition cubic_beamless : Lattice :=
  {| is_hexagonal := false;
     reciprocal_lattice_crystallographic :=
       {| get_points_in_sphere :=
            fun r => List.filter nonzero_magnitude (cubic_points r);
          get_cartesian_coords := cubic_cart |} |}.

Definition aluminium_beamless : Structure :=
  {| lattice := cubic_beamless; sites := [site_of "Al" 13] |}.

(** The arrays that the profile builds for [aluminium]. *)
Definition aluminium_arrays : Flattened :=
  {| zs := [13%Z]; coeffs := [[(1, 2); (3, 4)]]; fcoords := [(0, 0, 0)];
     occus := [1]; dwfactors := [0] |}.

(** A structure factor that numpy cannot compute: the arrays do not
    broadcast. *)
Definition broken_factor (_ : Flattened) (_ : list Z) (_ : Q)
  : result (Q * Q) :=
  Raise (ValueError "operands could not be broadcast together").

(** A generator that admits no excitation error at all. *)
Definition strict_generator : DiffractionGenerator :=
  {| wavelength := 251 # 10000;
     max_excitation_error := 0;
     debye_waller_factors := ∅ |}.

(** A generator at 300 kV (0.0197 angstrom) with a wider excitation error,
    which lists a Debye-Waller factor of 0 for aluminium. *)
Definition other_generator : DiffractionGenerator :=
  {| wavelength := 197 # 10000;
     max_excitation_error := 1 # 10;
     debye_waller_factors := {[ "Al"%string := 0 ]} |}.

(** The wavelength at every voltage, for the constructor. *)
Definition fixed_wavelength (_ : Q) : Q := 251 # 10000.

(** The reflection 100 with float noise in its indices. *)
Definition noisy_a : recip_point :=
  ((1001 # 1000, - (1 # 1000), 0), 25 # 100, 0%Z).

(** The reciprocal lattice of a tetragonal cell with a = b = 1 angstrom and
    c = 4 angstrom, for radii below 0.75: the origin and, along c*, the
    points 001 at 0.25 and 002 at 0.5 with their opposites. *)
Definition tetragonal_points (r : Q) : list recip_point :=
  if Qltb r 0 then []
  else if Qltb r (1 # 4) then [((0, 0, 0), 0, 0%Z)]
  else if Qltb r (1 # 2) then
    [((0, 0, 0), 0, 0%Z); ((0, 0, 1), 1 # 4, 0%Z); ((0, 0, -1), 1 # 4, 0%Z)]
  else [((0, 0, 0), 0, 0%Z);
        ((0, 0, 1), 1 # 4, 0%Z); ((0, 0, -1), 1 # 4, 0%Z);
        ((0, 0, 2), 1 # 2, 0%Z); ((0, 0, -2), 1 # 2, 0%Z)].

Definition tetragonal_cart (c : vec3) : vec3 :=
  let '(h, k, l) := c in (h, k, l / 4).

Definition tetragonal : Lattice :=
  {| is_hexagonal := false;
     reciprocal_lattice_crystallographic :=
       {| get_points_in_sphere := tetragonal_points;
          get_cartesian_coords := tetragonal_cart |} |}.

(** One aluminium atom at the origin of the tetragonal cell. *)
Definition layered : Structure :=
  {| lattice := tetragonal; sites := [site_of "Al" 13] |}.

(** A structure factor that falls off with the scattering angle:
    [1 / (1 + 16 s2)], which is 4/5 at the magnitude 0.25 and 1/2 at the
    magnitude 0.5. *)
Definition decaying_factor (_ : Flattened) (_ : list Z) (s2 : Q)
  : result (Q * Q) := Return (1 / (1 + 16 * s2), 0).

End Example.

(* ================================================================== *)
(** * Comparisons on rationals *)
(* ================================================================== *)

Lemma Qltb_true (a b : Q) : Qltb a b = true <-> a < b.
Proof.
  unfold Qltb. rewrite negb_true_iff.
  destruct (Qle_bool b a) eqn:E.
  - apply Qle_bool_iff in E. split; [discriminate | lra].
  - split; [intros _ | reflexivity].
    destruct (Qlt_le_dec a b) as [H | H]; [exact H |].
    apply Qle_bool_iff in H. congruence.
Qed.

Lemma Qltb_false (a b : Q) : Qltb a b = false <-> b <= a.
Proof.
  destruct (Qltb a b) eqn:E.
  - apply Qltb_true in E. split; [discriminate | lra].
  - split; [intros _ | reflexivity].
    destruct (Qlt_le_dec a b) as [H | H]; [| exact H].
    apply Qltb_true in H. congruence.
Qed.

Lemma Qeq_bool_false (a b : Q) : Qeq_bool a b = false <-> ~ a == b.
Proof.
  split.
  - intros E H. apply Qeq_bool_iff in H. congruence.
  - intros H. destruct (Qeq_bool a b) eqn:E; [| reflexivity].
    apply Qeq_bool_iff in E. contradiction.
Qed.

(** Turn the boolean tests among the hypotheses into (in)equalities. *)
Ltac qprop :=
  repeat match goal with
    | H : Qltb _ _ = true |- _ => apply Qltb_true in H
    | H : Qltb _ _ = false |- _ => apply Qltb_false in H
    | H : Qeq_bool _ _ = true |- _ => apply Qeq_bool_iff in H
    | H : Qeq_bool _ _ = false |- _ => apply Qeq_bool_false in H
    | H : negb _ = true |- _ => apply negb_true_iff in H
    | H : negb _ = false |- _ => apply negb_false_iff in H
    end.

(** Break the conjunctions and disjunctions among the hypotheses. *)
Ltac split_hyps :=
  repeat match goal with
    | H : _ \/ _ |- _ => destruct H
    | H : _ /\ _ |- _ => destruct H
    end.

(* ================================================================== *)
(** * [sorted] sorts *)
(* ================================================================== *)

Section Sorting.

Context {A : Type} (ltb : A -> A -> bool).

(** [le a b]: [b] is not smaller than [a]. *)
Local Abbreviation le := (fun a b : A => ltb b a = false).

Lemma insert_sorted_perm (x : A) (l : list A) :
  Permutation (insert_sorted ltb x l) (x :: l).
Proof.
  induction l as [| y l IH]; simpl; [reflexivity |].
  destruct (ltb y x); [| reflexivity].
  rewrite IH. apply perm_swap.
Qed.

Lemma sorted_perm (l : list A) : Permutation (sorted ltb l) l.
Proof.
  induction l as [| x l IH]; simpl; [reflexivity |].
  rewrite insert_sorted_perm. now constructor.
Qed.

Lemma insert_sorted_In (x y : A) (l : list A) :
  In y (insert_sorted ltb x l) <-> y = x \/ In y l.
Proof.
  split; intros H.
  - apply (Permutation_in _ (insert_sorted_perm x l)) in H.
    destruct H; auto.
  - apply (Permutation_in _ (Permutation_sym (insert_sorted_perm x l))).
    destruct H; [left | right]; auto.
Qed.

Lemma insert_sorted_strongly (x : A) (l : list A) :
  (forall a b, ltb a b = true -> ltb b a = false) ->
  (forall a b c, le a b -> le b c -> le a c) ->
  StronglySorted le l -> StronglySorted le (insert_sorted ltb x l).
Proof.
  intros Hasym Htrans Hl.
  induction Hl as [| y l Hl IH Hy]; simpl.
  - constructor; constructor.
  - destruct (ltb y x) eqn:E.
    + constructor; [exact IH |].
      apply List.Forall_forall. intros z Hz.
      apply insert_sorted_In in Hz. destruct Hz as [-> | Hz].
      * apply Hasym, E.
      * rewrite List.Forall_forall in Hy. auto.
    + constructor; [constructor; assumption |].
      constructor; [exact E |].
      apply List.Forall_forall. intros z Hz.
      rewrite List.Forall_forall in Hy.
      apply Htrans with y; [exact E | auto].
Qed.

Lemma sorted_strongly (l : list A) :
  (forall a b, ltb a b = true -> ltb b a = false) ->
  (forall a b c, le a b -> le b c -> le a c) ->
  StronglySorted le (sorted ltb l).
Proof.
  intros Hasym Htrans. induction l as [| x l IH]; simpl.
  - constructor.
  - now apply insert_sorted_strongly.
Qed.

End Sorting.

(** Two sorted lists with the same elements are the same list, when no
    two different elements tie. *)
Lemma strongly_sorted_unique {A} (R : A -> A -> Prop) (l l' : list A) :
  StronglySorted R l -> StronglySorted R l' -> Permutation l l' ->
  (forall a b, In a l -> In b l -> R a b -> R b a -> a = b) ->
  l = l'.
Proof.
  intros Hl. revert l'.
  induction Hl as [| a t Ht IH Ha]; intros l' Hl' Hp Hanti.
  - apply Permutation_nil in Hp. now subst.
  - destruct Hl' as [| a' t' Ht' Ha'].
    + apply Permutation_sym, Permutation_nil in Hp. discriminate.
    + assert (a = a') as <-.
      { assert (In a' (a :: t)) as H1
          by (apply (Permutation_in _ (Permutation_sym Hp)); now left).
        assert (In a (a' :: t')) as H2
          by (apply (Permutation_in _ Hp); now left).
        destruct H1 as [H1 | H1]; [exact H1 |].
        destruct H2 as [H2 | H2]; [now symmetry |].
        rewrite List.Forall_forall in Ha, Ha'.
        apply Hanti; [now left | now right | auto | auto]. }
      f_equal. apply IH.
      * exact Ht'.
      * now apply Permutation_cons_inv in Hp.
      * intros x y Hx Hy. apply Hanti; now right.
Qed.

(* ================================================================== *)
(** * The order of processing *)
(* ================================================================== *)

Lemma point_ltb_false (i j : recip_point) :
  point_ltb j i = false <-> key_le i j.
Proof.
  destruct i as [[[[h k] l] g] n], j as [[[[h' k'] l'] g'] n'].
  unfold point_ltb, sort_key, tuple_ltb, key_le.
  destruct (Qeq_bool g' g) eqn:E0; cbn [negb];
    [destruct (Qeq_bool (- h') (- h)) eqn:E1; cbn [negb];
     [destruct (Qeq_bool (- k') (- k)) eqn:E2; cbn [negb] |] |].
  all: rewrite Qltb_false; qprop.
  all: split; intros; [lra | split_hyps; lra].
Qed.

Lemma point_ltb_true (i j : recip_point) :
  point_ltb j i = true <-> ~ key_le i j.
Proof.
  rewrite <- point_ltb_false. destruct (point_ltb j i); split; congruence.
Qed.

Lemma key_le_total (i j : recip_point) : key_le i j \/ key_le j i.
Proof.
  destruct i as [[[[h k] l] g] n], j as [[[[h' k'] l'] g'] n'].
  unfold key_le. lra.
Qed.

Lemma key_le_trans (i j k : recip_point) :
  key_le i j -> key_le j k -> key_le i k.
Proof.
  destruct i as [[[[h1 k1] l1] g1] n1], j as [[[[h2 k2] l2] g2] n2],
    k as [[[[h3 k3] l3] g3] n3].
  unfold key_le. intros; split_hyps; lra.
Qed.

Lemma point_ltb_asym (i j : recip_point) :
  point_ltb i j = true -> point_ltb j i = false.
Proof.
  rewrite point_ltb_true, point_ltb_false.
  destruct (key_le_total i j); tauto.
Qed.

Lemma sorted_points_perm (pts : list recip_point) :
  Permutation (sorted_points pts) pts.
Proof. apply sorted_perm. Qed.

Lemma sorted_points_strongly (pts : list recip_point) :
  StronglySorted key_le (sorted_points pts).
Proof.
  assert (StronglySorted (fun a b => point_ltb b a = false)
            (sorted_points pts)) as H.
  { apply sorted_strongly.
    - apply point_ltb_asym.
    - intros a b c. rewrite !point_ltb_false. apply key_le_trans. }
  induction H as [| a l Hl IH Ha]; constructor; [exact IH |].
  eapply List.Forall_impl; [| exact Ha].
  intros b. apply point_ltb_false.
Qed.

Lemma sorted_points_permuted (pts pts' : list recip_point) :
  Permutation pts pts' -> ties_identical pts ->
  sorted_points pts = sorted_points pts'.
Proof.
  intros Hp Hties.
  apply (strongly_sorted_unique key_le).
  - apply sorted_points_strongly.
  - apply sorted_points_strongly.
  - rewrite !sorted_points_perm. exact Hp.
  - intros a b Ha Hb. apply Hties.
    + now apply (Permutation_in _ (sorted_points_perm pts)).
    + now apply (Permutation_in _ (sorted_points_perm pts)).
Qed.

(* ================================================================== *)
(** * Loops and dictionaries *)
(* ================================================================== *)

Lemma for_each_app {S B} (body : S -> B -> result S) (l1 l2 : list B) (s : S) :
  for_each body (l1 ++ l2) s
  = Py.bind (for_each body l1 s) (for_each body l2).
Proof.
  revert s. induction l1 as [| x l1 IH]; intros s; simpl; [reflexivity |].
  destruct (body s x); simpl; auto.
Qed.

(** A property of the state that every iteration keeps holds at the end,
    and a loop whose iterations all return does return. *)
Lemma for_each_invariant {S B} (P : S -> Prop) (body : S -> B -> result S)
    (l : list B) (s s' : S) :
  P s ->
  (forall s x s', P s -> In x l -> body s x = Return s' -> P s') ->
  for_each body l s = Return s' -> P s'.
Proof.
  revert s. induction l as [| x l IH]; intros s Hs Hstep Hrun; simpl in Hrun.
  - congruence.
  - destruct (body s x) as [s1 | e] eqn:E; simpl in Hrun; [| discriminate].
    apply (IH s1); auto.
    + apply (Hstep s x); auto. now left.
    + intros t y t' Ht Hy. apply Hstep; auto. now right.
Qed.

Lemma for_each_returns {S B} (P : S -> Prop) (body : S -> B -> result S)
    (l : list B) (s : S) :
  P s ->
  (forall s x, P s -> In x l -> exists s', body s x = Return s' /\ P s') ->
  exists s', for_each body l s = Return s' /\ P s'.
Proof.
  revert s. induction l as [| x l IH]; intros s Hs Hstep; simpl.
  - eauto.
  - destruct (Hstep s x Hs) as (s1 & E & Hs1); [now left |].
    rewrite E. simpl. apply IH; auto.
    intros t y Ht Hy. apply Hstep; auto. now right.
Qed.

Lemma dict_get_set (d : peaks_dict) (k k' : Q) (v : Bucket) :
  dict_get (dict_set d k v) k'
  = if Qeq_bool k k' then Return v else dict_get d k'.
Proof.
  induction d as [| [k1 v1] d IH]; simpl.
  - destruct (Qeq_bool k k'); reflexivity.
  - destruct (Qeq_bool k1 k) eqn:E1; simpl.
    + destruct (Qeq_bool k1 k') eqn:E2, (Qeq_bool k k') eqn:E3;
        try reflexivity; qprop; exfalso.
      * apply E3. now rewrite <- E1.
      * apply E2. now rewrite E1.
    + destruct (Qeq_bool k1 k') eqn:E2; [| exact IH].
      destruct (Qeq_bool k k') eqn:E3; [| reflexivity].
      qprop. exfalso. apply E1. now rewrite E2, E3.
Qed.

Lemma dict_get_key (d : peaks_dict) (g : Q) :
  (exists k, In k (dict_keys d) /\ k == g)
  <-> exists v, dict_get d g = Return v.
Proof.
  induction d as [| [k1 v1] d IH]; simpl.
  - split; [intros (k & [] & _) | intros (v & H); discriminate].
  - destruct (Qeq_bool k1 g) eqn:E; qprop.
    + split; eauto.
    + rewrite <- IH. split.
      * intros (k & [<- | Hk] & Hg); [contradiction | eauto].
      * intros (k & Hk & Hg); eauto.
Qed.

Lemma dict_get_value (d : peaks_dict) (g : Q) (v : Bucket) :
  dict_get d g = Return v -> In v (dict_values d).
Proof.
  induction d as [| [k1 v1] d IH]; simpl; [discriminate |].
  destruct (Qeq_bool k1 g); [intros [= ->]; now left | auto].
Qed.

Lemma dict_set_keys_old (d : peaks_dict) (g : Q) (v : Bucket) :
  (exists k, In k (dict_keys d) /\ k == g) ->
  dict_keys (dict_set d g v) = dict_keys d.
Proof.
  induction d as [| [k1 v1] d IH]; simpl.
  - intros (k & [] & _).
  - intros (k & Hk & Hg).
    destruct (Qeq_bool k1 g) eqn:E; simpl; [reflexivity |].
    f_equal. apply IH. qprop.
    destruct Hk as [<- | Hk]; [contradiction | eauto].
Qed.

Lemma dict_set_keys_new (d : peaks_dict) (g : Q) (v : Bucket) :
  (forall k, In k (dict_keys d) -> ~ k == g) ->
  dict_set d g v = d ++ [(g, v)].
Proof.
  induction d as [| [k1 v1] d IH]; simpl; intros H; [reflexivity |].
  destruct (Qeq_bool k1 g) eqn:E; qprop.
  - exfalso. apply (H k1); auto.
  - f_equal. apply IH. auto.
Qed.

Lemma dict_set_keys (d : peaks_dict) (g : Q) (v : Bucket) :
  dict_keys (dict_set d g v) = dict_keys d
  \/ dict_keys (dict_set d g v) = dict_keys d ++ [g].
Proof.
  induction d as [| [k1 v1] d IH]; simpl; [now right |].
  destruct (Qeq_bool k1 g); simpl; [now left |].
  destruct IH as [-> | ->]; auto.
Qed.

Lemma dict_set_values (d : peaks_dict) (g : Q) (v b : Bucket) :
  In b (dict_values (dict_set d g v)) -> b = v \/ In b (dict_values d).
Proof.
  induction d as [| [k1 v1] d IH]; simpl.
  - intros [<- | []]. now left.
  - destruct (Qeq_bool k1 g); simpl; intros [<- | H]; auto.
    destruct (IH H); auto.
Qed.

Lemma dict_set_wf (d : peaks_dict) (g : Q) (v : Bucket) :
  ForallOrdPairs (fun a b => ~ a == b) (dict_keys d) ->
  ForallOrdPairs (fun a b => ~ a == b) (dict_keys (dict_set d g v)).
Proof.
  induction d as [| [k1 v1] d IH]; simpl; intros H.
  - constructor; constructor.
  - inversion H as [| ? ? H1 H2]; subst.
    destruct (Qeq_bool k1 g) eqn:E; simpl; [now constructor |].
    constructor; [| auto]. qprop.
    destruct (dict_set_keys d g v) as [-> | ->]; [exact H1 |].
    apply Forall_app. split; [exact H1 | now constructor].
Qed.

Lemma separated_snoc (tol : Q) (gs : list Q) (g : Q) :
  separated tol gs -> Forall (fun a => tol <= Qabs (a - g)) gs ->
  separated tol (gs ++ [g]).
Proof.
  unfold separated. intros H. induction H as [| a l Ha Hl IH]; simpl.
  - intros _. constructor; constructor.
  - intros Hg. inversion Hg; subst. constructor; [| auto].
    apply Forall_app. split; [exact Ha | now constructor].
Qed.


(* ================================================================== *)
(** * The invariant of the loop over the points *)
(* ================================================================== *)

Lemma first_within_some (gs : list Q) (g tol g0 : Q) :
  first_within gs g tol = Some g0 -> In g0 gs /\ Qabs (g0 - g) < tol.
Proof.
  unfold first_within, within. intros H.
  apply List.find_some in H. destruct H as [H1 H2]. qprop. auto.
Qed.

Lemma first_within_none (gs : list Q) (g tol : Q) :
  first_within gs g tol = None ->
  Forall (fun a => tol <= Qabs (a - g)) gs.
Proof.
  unfold first_within, within. intros H.
  apply List.Forall_forall. intros a Ha.
  pose proof (List.find_none _ _ H a Ha) as E. simpl in E. qprop. exact E.
Qed.

Lemma intensity_of_nonneg (f : Q * Q) : 0 <= intensity_of f.
Proof. unfold intensity_of. destruct f as [a b]. simpl. nra. Qed.

Lemma Qabs_zero_of_eq (a b : Q) : a == b -> Qabs (a - b) == 0.
Proof.
  intros H. apply Qabs_case; intros; lra.
Qed.

Lemma loop_inv_init (tol : Q) : loop_inv tol ([], []).
Proof.
  split; simpl.
  - intros k [].
  - intros g [].
  - intros b [].
  - intros _. split; [reflexivity | constructor].
  - constructor.
Qed.

Section LoopFacts.

Variable structure_factor : Flattened -> list Z -> Q -> result (Q * Q).
Variables (flat : Flattened) (is_hex : bool) (tol : Q).

Lemma process_point_inv (st st' : loop_state) (pt : recip_point) :
  loop_inv tol st ->
  process_point structure_factor flat is_hex tol st pt = Return st' ->
  loop_inv tol st'.
Proof.
  destruct st as [peaks gs], pt as [[[[h k] l] g] n].
  intros [Hk Hg Hn Hs Hw]. cbn [fst snd] in Hk, Hg, Hn, Hs, Hw.
  unfold process_point.
  destruct (Qeq_bool g 0) eqn:Eg; cbn [negb].
  { intros [= <-]. split; assumption. }
  destruct (structure_factor flat _ _) as [f |]; cbn [Py.bind];
    [| discriminate].
  destruct (first_within gs g tol) as [g0 |] eqn:Ef.
  - apply first_within_some in Ef. destruct Ef as [Hin Hnear].
    destruct (dict_get peaks g0) as [v |] eqn:Ev; cbn [Py.bind];
      [| discriminate].
    match goal with
    | |- Return (dict_set _ _ ?b, _) = _ -> _ => set (nb := b)
    end.
    intros [= <-].
    assert (dict_keys (dict_set peaks g0 nb) = dict_keys peaks) as Ek
      by (apply dict_set_keys_old, Hg, Hin).
    split; cbn [fst snd]; rewrite ?Ek; auto.
    intros b Hb. apply dict_set_values in Hb. destruct Hb as [-> | Hb]; auto.
    subst nb. cbn [b_intensity].
    apply dict_get_value in Ev. apply Hn in Ev.
    pose proof (intensity_of_nonneg f). lra.
  - apply first_within_none in Ef.
    match goal with
    | |- Return (dict_set _ _ ?b, _) = _ -> _ => set (nb := b)
    end.
    intros [= <-].
    split; cbn [fst snd].
    + intros k0 H0. apply in_or_app.
      destruct (dict_set_keys peaks g nb) as [E | E];
        rewrite E in H0; [left; auto |].
      apply in_app_or in H0. destruct H0; [left; auto | right; auto].
    + intros g1 H1. apply dict_get_key. rewrite dict_get_set.
      destruct (Qeq_bool g g1) eqn:E1; [eauto |].
      apply dict_get_key. apply in_app_or in H1.
      destruct H1 as [H1 | [<- | []]]; [auto |].
      exfalso. qprop. apply E1. reflexivity.
    + intros b Hb. apply dict_set_values in Hb. destruct Hb as [-> | Hb]; auto.
      subst nb. cbn [b_intensity]. apply intensity_of_nonneg.
    + intros Htol. destruct (Hs Htol) as [E Hsep].
      rewrite dict_set_keys_new.
      * unfold dict_keys in *. rewrite List.map_app. cbn [List.map fst].
        rewrite E. split; [reflexivity |]. now apply separated_snoc.
      * intros k0 H0 Heq. rewrite E in H0.
        rewrite List.Forall_forall in Ef. specialize (Ef k0 H0).
        pose proof (Qabs_zero_of_eq _ _ Heq). lra.
    + now apply dict_set_wf.
Qed.

(** An iteration returns as soon as its structure factor is defined: the
    lookup in [peaks] cannot fail on a recorded magnitude. *)
Lemma process_point_returns (st : loop_state) (pt : recip_point) :
  loop_inv tol st ->
  (forall hkl s2, exists f, structure_factor flat hkl s2 = Return f) ->
  exists st', process_point structure_factor flat is_hex tol st pt = Return st'.
Proof.
  destruct st as [peaks gs], pt as [[[[h k] l] g] n].
  intros [Hk Hg Hn Hs Hw] Hsf. simpl in Hk, Hg, Hn, Hs.
  unfold process_point.
  destruct (Qeq_bool g 0); simpl; [eauto |].
  destruct (Hsf [round h; round k; round l] (g / 2 * (g / 2))) as [f ->].
  simpl.
  destruct (first_within gs g tol) as [g0 |] eqn:Ef; [| eauto].
  apply first_within_some in Ef. destruct Ef as [Hin _].
  destruct (proj1 (dict_get_key peaks g0) (Hg g0 Hin)) as [v ->].
  simpl. eauto.
Qed.

Lemma merge_loop_inv (pts : list recip_point) (st : loop_state) :
  merge_loop structure_factor flat is_hex tol pts = Return st ->
  loop_inv tol st.
Proof.
  unfold merge_loop.
  apply for_each_invariant with (P := loop_inv tol).
  - apply loop_inv_init.
  - intros s x s' Hs _. now apply process_point_inv.
Qed.

Lemma merge_loop_returns (pts : list recip_point) :
  (forall hkl s2, exists f, structure_factor flat hkl s2 = Return f) ->
  exists st,
    merge_loop structure_factor flat is_hex tol pts = Return st
    /\ loop_inv tol st.
Proof.
  intros Hsf. unfold merge_loop.
  apply for_each_returns with (P := loop_inv tol).
  - apply loop_inv_init.
  - intros s x Hs _.
    destruct (process_point_returns s x Hs Hsf) as [s' E].
    exists s'. split; [exact E |]. now apply process_point_inv with s x.
Qed.

End LoopFacts.


(* ================================================================== *)
(** * The built-in [max] *)
(* ================================================================== *)

Lemma max_from_bound (l : list Q) (m : Q) :
  Forall (fun a => a <= m) l -> max_from m l = m.
Proof.
  revert m. induction l as [| a l IH]; intros m H; simpl; [reflexivity |].
  inversion H as [| ? ? Ha Hl]; subst.
  destruct (Qltb m a) eqn:E; qprop; [lra | auto].
Qed.

Lemma max_from_first (pre post : list Q) (m x : Q) :
  Forall (fun a => a < x) pre -> Forall (fun a => a <= x) post -> m < x ->
  max_from m (pre ++ x :: post) = x.
Proof.
  revert m. induction pre as [| a pre IH]; intros m Hpre Hpost Hm; simpl.
  - destruct (Qltb m x) eqn:E; qprop; [| lra].
    now apply max_from_bound.
  - inversion Hpre as [| ? ? Ha Hp]; subst.
    destruct (Qltb m a); auto.
Qed.

Lemma max_from_spec (l : list Q) (m : Q) :
  (max_from m l = m /\ Forall (fun a => a <= m) l)
  \/ (m < max_from m l /\ first_max l (max_from m l)).
Proof.
  revert m. induction l as [| a l IH]; intros m; simpl.
  - left. split; [reflexivity | constructor].
  - destruct (Qltb m a) eqn:E; qprop.
    + right. destruct (IH a) as [[E1 H1] | [H1 (pre & post & E2 & Hp & Hq)]].
      * rewrite E1. split; [exact E |].
        exists [], l. repeat split; [constructor | exact H1].
      * split; [lra |].
        exists (a :: pre), post. rewrite E2 at 1.
        repeat split; [constructor; assumption | exact Hq].
    + destruct (IH m) as [[E1 H1] | [H1 (pre & post & E2 & Hp & Hq)]].
      * left. split; [exact E1 | constructor; assumption].
      * right. split; [exact H1 |].
        exists (a :: pre), post. rewrite E2 at 1.
        repeat split; [constructor; [lra | assumption] | exact Hq].
Qed.

Lemma max_first_max (l : list Q) (x : Q) :
  max l = Return x <-> first_max l x.
Proof.
  split.
  - destruct l as [| a l]; simpl; [discriminate |].
    intros [= <-].
    destruct (max_from_spec l a) as [[E H] | [H (pre & post & E & Hp & Hq)]].
    + rewrite E. exists [], l. repeat split; [constructor | exact H].
    + exists (a :: pre), post. rewrite E at 1.
      repeat split; [constructor; assumption | exact Hq].
  - intros (pre & post & -> & Hp & Hq).
    destruct pre as [| a pre]; simpl; f_equal.
    + now apply max_from_bound.
    + inversion Hp; subst. now apply max_from_first.
Qed.

Lemma max_returns (l : list Q) : l <> [] -> exists x, max l = Return x.
Proof. destruct l; [congruence | simpl; eauto]. Qed.

Lemma first_max_In (l : list Q) (x : Q) : first_max l x -> In x l.
Proof.
  intros (pre & post & -> & _). apply in_or_app. right. now left.
Qed.

Lemma first_max_ge (l : list Q) (x a : Q) : first_max l x -> In a l -> a <= x.
Proof.
  intros (pre & post & -> & Hp & Hq) Ha.
  rewrite List.Forall_forall in Hp, Hq.
  apply in_app_or in Ha. destruct Ha as [Ha | [<- | Ha]].
  - apply Hp in Ha. lra.
  - lra.
  - auto.
Qed.

(** The first maximum of a list is still the first maximum after a
    filter that keeps it. *)
Lemma first_max_filter {A} (f : A -> Q) (P : A -> bool) (l : list A) (x : Q) :
  first_max (List.map f l) x ->
  (forall a, In a l -> f a = x -> P a = true) ->
  first_max (List.map f (List.filter P l)) x.
Proof.
  intros (pre & post & E & Hp & Hq) HP.
  apply List.map_eq_app in E. destruct E as (l1 & l2 & -> & E1 & E2).
  apply List.map_eq_cons in E2. destruct E2 as (a & l3 & -> & Ea & E3).
  subst pre post.
  assert (P a = true) as Pa.
  { apply HP; [| exact Ea]. apply in_or_app. right. now left. }
  exists (List.map f (List.filter P l1)), (List.map f (List.filter P l3)).
  rewrite List.filter_app. simpl. rewrite Pa, List.map_app. simpl.
  rewrite Ea. split; [reflexivity |].
  rewrite List.Forall_forall in Hp, Hq.
  split; apply List.Forall_forall; intros b Hb;
    apply List.in_map_iff in Hb; destruct Hb as (c & <- & Hc);
    apply List.filter_In in Hc; destruct Hc as [Hc _].
  - apply Hp. now apply List.in_map.
  - apply Hq. now apply List.in_map.
Qed.

(* ================================================================== *)
(** * Scaling and filtering *)
(* ================================================================== *)

Lemma dict_get_In (d : peaks_dict) (k : Q) (v : Bucket) :
  ForallOrdPairs (fun a b => ~ a == b) (dict_keys d) ->
  In (k, v) d -> dict_get d k = Return v.
Proof.
  induction d as [| [k1 v1] d IH]; simpl; intros Hw Hin; [contradiction |].
  inversion Hw as [| ? ? H1 H2]; subst.
  destruct Hin as [[= -> ->] | Hin].
  - now rewrite (proj2 (Qeq_bool_iff k k) (Qeq_refl k)).
  - destruct (Qeq_bool k1 k) eqn:E; [| auto].
    qprop. exfalso. rewrite List.Forall_forall in H1.
    apply (H1 k); [| exact E].
    unfold dict_keys. change k with (fst (k, v)). now apply List.in_map.
Qed.

Lemma items_of_keys (d d' : peaks_dict) :
  ForallOrdPairs (fun a b => ~ a == b) (dict_keys d) ->
  incl d' d ->
  flat_map (fun k => match dict_get d k with
                     | Return v => [(k, v)]
                     | Raise _ => []
                     end) (dict_keys d') = d'.
Proof.
  intros Hw. induction d' as [| [k v] d' IH]; simpl; intros Hi; [reflexivity |].
  rewrite (dict_get_In d k v Hw); [| apply Hi; now left].
  simpl. f_equal. apply IH. intros x Hx. apply Hi. now right.
Qed.

Lemma sorted_items_perm (peaks : peaks_dict) :
  ForallOrdPairs (fun a b => ~ a == b) (dict_keys peaks) ->
  Permutation (sorted_items peaks) peaks.
Proof.
  intros Hw. unfold sorted_items.
  rewrite (Permutation_flat_map _ (sorted_perm Qltb (dict_keys peaks))).
  rewrite (items_of_keys peaks peaks Hw); [reflexivity | apply incl_refl].
Qed.

Lemma sorted_items_value (peaks : peaks_dict) (kv : Q * Bucket) :
  In kv (sorted_items peaks) -> In (snd kv) (dict_values peaks).
Proof.
  unfold sorted_items. rewrite in_flat_map. intros (k & _ & H).
  destruct (dict_get peaks k) as [v |] eqn:E; [| contradiction].
  destruct H as [<- | []]. simpl. now apply dict_get_value with k.
Qed.

Lemma sorted_items_keys (peaks : peaks_dict) :
  List.map fst (sorted_items peaks) = sorted Qltb (dict_keys peaks).
Proof.
  unfold sorted_items.
  assert (forall ks, (forall k, In k ks -> In k (dict_keys peaks)) ->
            List.map fst
              (flat_map (fun k => match dict_get peaks k with
                                  | Return v => [(k, v)]
                                  | Raise _ => []
                                  end) ks) = ks) as H.
  { induction ks as [| k ks IH]; simpl; intros Hin; [reflexivity |].
    destruct (proj1 (dict_get_key peaks k)) as [v ->].
    - exists k. split; [apply Hin; now left | reflexivity].
    - simpl. f_equal. apply IH. intros k' Hk'. apply Hin. now right. }
  apply H. intros k Hk.
  now apply (Permutation_in _ (sorted_perm Qltb (dict_keys peaks))).
Qed.

Section ScaleFacts.

Variable families : Type.
Variable get_unique_families : list hkl_tuple -> families.

Lemma filter_loop (peaks : peaks_dict) (m minI : Q) (ks : list Q)
    (acc : list (row families)) :
  for_each (filter_peak families get_unique_families peaks m minI) ks acc
  = match for_each (fun (u : unit) k => let* _ := dict_get peaks k in Return u)
            ks tt with
    | Raise e => Raise e
    | Return _ =>
        Return (acc ++ List.map (row_of get_unique_families)
                         (List.filter (fun kv => keeps m minI (snd kv))
                            (flat_map (fun k => match dict_get peaks k with
                                                | Return v => [(k, v)]
                                                | Raise _ => []
                                                end) ks)))
    end.
Proof.
  revert acc. induction ks as [| k ks IH]; intros acc; simpl.
  - now rewrite app_nil_r.
  - unfold filter_peak at 1.
    destruct (dict_get peaks k) as [v | e]; simpl; [| reflexivity].
    destruct (keeps m minI v); simpl; rewrite IH;
      destruct (for_each _ ks tt); try reflexivity.
    now rewrite <- app_assoc.
Qed.

Lemma lookups_return (peaks : peaks_dict) (ks : list Q) :
  (forall k, In k ks -> In k (dict_keys peaks)) ->
  for_each (fun (u : unit) k => let* _ := dict_get peaks k in Return u) ks tt
  = Return tt.
Proof.
  induction ks as [| k ks IH]; simpl; intros Hin; [reflexivity |].
  destruct (proj1 (dict_get_key peaks k)) as [v ->].
  - exists k. split; [apply Hin; now left | reflexivity].
  - simpl. apply IH. intros k' Hk'. apply Hin. now right.
Qed.

(** After the loop over the points: the two calls of [max] and, between
    them, the filter, which never raises. *)
Lemma scale_and_filter_eq (peaks : peaks_dict) (minI : Q) :
  scale_and_filter families get_unique_families peaks minI
  = let* m := max (List.map b_intensity (dict_values peaks)) in
    let kept := kept_items peaks m minI in
    let* max_y := max (List.map (fun kv => b_intensity (snd kv)) kept) in
    Return {| magnitudes := List.map fst kept;
              intensities :=
                List.map (fun kv => mul (div (b_intensity (snd kv)) max_y) 100)
                  kept;
              hkls := List.map (fun kv => get_unique_families (b_hkls (snd kv)))
                        kept |}.
Proof.
  unfold scale_and_filter.
  destruct (max (List.map b_intensity (dict_values peaks))) as [m | e];
    simpl; [| reflexivity].
  rewrite filter_loop, lookups_return.
  - cbn [Py.bind]. fold (sorted_items peaks). fold (kept_items peaks m minI).
    cbv zeta. rewrite app_nil_l, !List.map_map.
    unfold row_of, row_x, row_y, row_hkls.
    destruct (max (List.map (fun kv => b_intensity (snd kv))
                     (kept_items peaks m minI))); cbn [Py.bind];
      [| reflexivity].
    rewrite List.map_map. reflexivity.
  - intros k Hk.
    now apply (Permutation_in _ (sorted_perm Qltb (dict_keys peaks))).
Qed.

End ScaleFacts.

(* ================================================================== *)
(** * The filter on the rescaled intensity *)
(* ================================================================== *)

Lemma div_nonzero (a m : Q) : ~ m == 0 -> div a m = Fin (a / m).
Proof.
  intros H. unfold div. now rewrite (proj2 (Qeq_bool_false m 0) H).
Qed.

Lemma div_zero_divisor (a m : Q) :
  m == 0 ->
  div a m = match Qcompare a 0 with Eq => NaN | Gt => PosInf | Lt => NegInf end.
Proof.
  intros H. unfold div. now rewrite (proj2 (Qeq_bool_iff m 0) H).
Qed.

Lemma keeps_positive (m minI : Q) (v : Bucket) :
  0 < m ->
  keeps m minI v = true <-> minI < b_intensity v / m * 100.
Proof.
  intros Hm. unfold keeps. rewrite div_nonzero by lra. simpl.
  apply Qltb_true.
Qed.

Lemma Qdiv_le_1 (a m : Q) : 0 < m -> a <= m -> a / m <= 1.
Proof. intros Hm H. apply Qle_shift_div_r; [exact Hm | lra]. Qed.

Lemma Qdiv_le_mono (a b m : Q) : 0 < m -> a <= b -> a / m <= b / m.
Proof.
  intros Hm H. apply Qle_shift_div_r; [exact Hm |].
  assert (b / m * m == b) as -> by (field; lra). exact H.
Qed.

Lemma keeps_maximal (m minI : Q) (v : Bucket) :
  0 < m -> b_intensity v == m -> minI < 100 -> keeps m minI v = true.
Proof.
  intros Hm E H. apply keeps_positive; [exact Hm |].
  assert (b_intensity v / m == 1) as -> by (rewrite E; field; lra). lra.
Qed.

Lemma keeps_nothing (m minI : Q) (v : Bucket) :
  0 <= m -> b_intensity v <= m -> 100 <= minI -> keeps m minI v = false.
Proof.
  intros Hm Hv H. unfold keeps.
  destruct (Qeq_bool m 0) eqn:E; qprop.
  - rewrite div_zero_divisor by exact E.
    destruct (Qcompare_spec (b_intensity v) 0) as [H0 | H0 | H0];
      [reflexivity | reflexivity | lra].
  - rewrite div_nonzero by exact E. simpl. apply Qltb_false.
    pose proof (Qdiv_le_1 (b_intensity v) m). lra.
Qed.

Lemma keeps_monotone (m lo hi : Q) (v v' : Bucket) :
  0 <= m -> lo <= hi -> b_intensity v <= b_intensity v' ->
  keeps m hi v = true -> keeps m lo v' = true.
Proof.
  intros Hm Hlo Hv. unfold keeps.
  destruct (Qeq_bool m 0) eqn:E; qprop.
  - rewrite !div_zero_divisor by exact E.
    destruct (Qcompare_spec (b_intensity v) 0) as [H0 | H0 | H0];
      simpl; try discriminate.
    intros _.
    destruct (Qcompare_spec (b_intensity v') 0) as [H1 | H1 | H1];
      [lra | lra | reflexivity].
  - rewrite !div_nonzero by exact E. simpl. rewrite !Qltb_true.
    pose proof (Qdiv_le_mono (b_intensity v) (b_intensity v') m). lra.
Qed.

(* ================================================================== *)
(** * The profile, from the peaks of the loop *)
(* ================================================================== *)

Lemma Forall2_map_r {A B} (R : A -> B -> Prop) (g : A -> B) (l : list A) :
  (forall a, In a l -> R a (g a)) -> Forall2 R l (List.map g l).
Proof.
  induction l as [| a l IH]; simpl; intros H; constructor.
  - apply H. now left.
  - apply IH. intros b Hb. apply H. now right.
Qed.

(** The maximum of the accumulated intensities bounds every peak and is
    the intensity of one of them. *)
Lemma max_bucket (peaks : peaks_dict) (m : Q) :
  ForallOrdPairs (fun a b => ~ a == b) (dict_keys peaks) ->
  max (List.map b_intensity (dict_values peaks)) = Return m ->
  (forall kv, In kv (sorted_items peaks) -> b_intensity (snd kv) <= m)
  /\ exists kv, In kv (sorted_items peaks) /\ b_intensity (snd kv) = m.
Proof.
  intros Hw Hm. apply max_first_max in Hm. split.
  - intros kv Hkv. apply (first_max_ge _ _ _ Hm).
    apply List.in_map. now apply sorted_items_value.
  - apply first_max_In in Hm. apply List.in_map_iff in Hm.
    destruct Hm as (v & Ev & Hv).
    unfold dict_values in Hv. apply List.in_map_iff in Hv.
    destruct Hv as (kv & <- & Hkv).
    exists kv. split; [| exact Ev].
    now apply (Permutation_in _ (Permutation_sym (sorted_items_perm peaks Hw))).
Qed.

Lemma max_bucket_nonneg (peaks : peaks_dict) (m : Q) :
  (forall b, In b (dict_values peaks) -> 0 <= b_intensity b) ->
  max (List.map b_intensity (dict_values peaks)) = Return m -> 0 <= m.
Proof.
  intros Hn Hm. apply max_first_max, first_max_In in Hm.
  apply List.in_map_iff in Hm. destruct Hm as (v & <- & Hv). auto.
Qed.

Section ProfileFacts.

Variable ATOMIC_SCATTERING_PARAMS : gmap string scattering_coeffs.
Variable structure_factor : Flattened -> list Z -> Q -> result (Q * Q).
Variable families : Type.
Variable get_unique_families : list hkl_tuple -> families.

Local Abbreviation profile :=
  (calculate_profile_data ATOMIC_SCATTERING_PARAMS structure_factor families
     get_unique_families).
Local Abbreviation flatten := (flatten_structure ATOMIC_SCATTERING_PARAMS).
Local Abbreviation points s r :=
  (get_points_in_sphere (reciprocal_lattice_crystallographic (lattice s)) r).
Local Abbreviation loop s flat tol r :=
  (merge_loop structure_factor flat (is_hexagonal (lattice s)) tol
     (points s r)).

Lemma profile_eq (self : DiffractionGenerator) (s : Structure)
    (r tol minI : Q) (flat : Flattened) (peaks : peaks_dict) (gs : list Q) :
  flatten self s = Return flat ->
  loop s flat tol r = Return (peaks, gs) ->
  profile self s r tol minI
  = scale_and_filter families get_unique_families peaks minI.
Proof.
  intros Hf Hl. unfold calculate_profile_data. rewrite Hf. simpl.
  rewrite Hl. reflexivity.
Qed.

(** With a positive maximum and a threshold below 100 the profile is
    returned, and its intensities are the kept ones times [100 / m]. *)
Lemma scale_positive (peaks : peaks_dict) (minI m : Q) :
  ForallOrdPairs (fun a b => ~ a == b) (dict_keys peaks) ->
  max (List.map b_intensity (dict_values peaks)) = Return m ->
  0 < m -> minI < 100 ->
  exists max_y,
    max_y == m
    /\ first_max
         (List.map (fun kv => b_intensity (snd kv)) (kept_items peaks m minI))
         max_y
    /\ (exists kv, In kv (kept_items peaks m minI) /\ b_intensity (snd kv) = m)
    /\ scale_and_filter families get_unique_families peaks minI
       = Return
           {| magnitudes := List.map fst (kept_items peaks m minI);
              intensities :=
                List.map (fun kv => Fin (b_intensity (snd kv) / max_y * 100))
                  (kept_items peaks m minI);
              hkls := List.map
                        (fun kv => get_unique_families (b_hkls (snd kv)))
                        (kept_items peaks m minI) |}.
Proof.
  intros Hw Hm Hpos Hmin.
  destruct (max_bucket peaks m Hw Hm) as [Hle (kv & Hkv & Ekv)].
  assert (In kv (kept_items peaks m minI)) as Hkept.
  { apply List.filter_In. split; [exact Hkv |].
    apply keeps_maximal; [exact Hpos | rewrite Ekv; reflexivity | exact Hmin]. }
  destruct (max_returns
              (List.map (fun kv => b_intensity (snd kv))
                 (kept_items peaks m minI))) as [max_y Hy].
  { intros E. apply (List.in_map (fun kv => b_intensity (snd kv))) in Hkept.
    rewrite E in Hkept. contradiction. }
  pose proof (proj1 (max_first_max _ _) Hy) as Hfm.
  assert (max_y == m) as Emax.
  { apply Qle_antisym.
    - pose proof (first_max_In _ _ Hfm) as Hin.
      apply List.in_map_iff in Hin. destruct Hin as (kv' & <- & Hkv').
      apply Hle. apply List.filter_In in Hkv'. tauto.
    - rewrite <- Ekv. apply (first_max_ge _ _ _ Hfm).
      now apply (List.in_map (fun kv => b_intensity (snd kv))). }
  exists max_y. split; [exact Emax |]. split; [exact Hfm |].
  split; [eauto |].
  rewrite scale_and_filter_eq, Hm. simpl. rewrite Hy. simpl.
  do 2 f_equal. apply List.map_ext. intros a.
  rewrite div_nonzero by lra. reflexivity.
Qed.

(** C1 (as amended).  When the loop over the points leaves a peak of
    positive accumulated intensity and [minimum_intensity < 100], the
    profile is returned; the peak of maximal intensity [m] passes the
    filter; every returned intensity is the accumulated intensity of its
    peak times [100 / m]; one returned intensity is exactly 100 and none
    is above 100. *)
Theorem profile_maximum_is_100 (self : DiffractionGenerator) (s : Structure)
    (r tol minI : Q) (flat : Flattened) (peaks : peaks_dict) (gs : list Q) :
  flatten self s = Return flat ->
  loop s flat tol r = Return (peaks, gs) ->
  (exists b, In b (dict_values peaks) /\ 0 < b_intensity b) ->
  minI < 100 ->
  exists sim m,
    profile self s r tol minI = Return sim
    /\ max (List.map b_intensity (dict_values peaks)) = Return m
    /\ 0 < m
    /\ (exists kv, In kv (kept_items peaks m minI) /\ b_intensity (snd kv) = m)
    /\ magnitudes sim = List.map fst (kept_items peaks m minI)
    /\ Forall2 (fun kv y => exists q, y = Fin q
                                      /\ q == b_intensity (snd kv) * (100 / m))
         (kept_items peaks m minI) (intensities sim)
    /\ (exists q, In (Fin q) (intensities sim) /\ q == 100)
    /\ Forall (fun y => exists q, y = Fin q /\ q <= 100) (intensities sim).
Proof.
  intros Hf Hl (b & Hb & Hpos) Hmin.
  pose proof (merge_loop_inv _ _ _ _ _ _ Hl) as [_ _ Hn _ Hw].
  cbn [fst snd] in Hn, Hw.
  destruct (max_returns (List.map b_intensity (dict_values peaks)))
    as [m Hm].
  { intros E. apply (List.in_map b_intensity) in Hb. rewrite E in Hb.
    contradiction. }
  assert (0 < m) as Hmpos.
  { apply max_first_max in Hm.
    pose proof (first_max_ge _ _ (b_intensity b) Hm
                  (List.in_map b_intensity _ _ Hb)). lra. }
  destruct (scale_positive peaks minI m Hw Hm Hmpos Hmin)
    as (max_y & Ey & Hfm & Hkept & Hsim).
  destruct (max_bucket peaks m Hw Hm) as [Hle _].
  eexists. exists m.
  rewrite (profile_eq self s r tol minI flat peaks gs Hf Hl), Hsim.
  split; [reflexivity |]. split; [exact Hm |]. split; [exact Hmpos |].
  split; [exact Hkept |]. split; [reflexivity |].
  cbn [intensities].
  split; [| split].
  - apply Forall2_map_r. intros kv _. eexists. split; [reflexivity |].
    rewrite Ey. field. lra.
  - destruct Hkept as (kv & Hkv & Ekv).
    exists (b_intensity (snd kv) / max_y * 100). split.
    + apply (List.in_map
               (fun kv => Fin (b_intensity (snd kv) / max_y * 100)) _ _ Hkv).
    + rewrite Ekv, Ey. field. lra.
  - apply List.Forall_forall. intros y Hy.
    apply List.in_map_iff in Hy. destruct Hy as (kv & <- & Hkv).
    eexists. split; [reflexivity |].
    apply List.filter_In in Hkv. destruct Hkv as [Hkv _].
    apply Hle in Hkv.
    pose proof (Qdiv_le_1 (b_intensity (snd kv)) max_y). lra.
Qed.

Lemma dict_set_nonempty (d : peaks_dict) (g : Q) (v : Bucket) :
  dict_set d g v <> [].
Proof.
  destruct d as [| [k1 v1] d]; simpl; [discriminate |].
  destruct (Qeq_bool k1 g); discriminate.
Qed.

Lemma process_point_nonempty (flat : Flattened) (is_hex : bool) (tol : Q)
    (st st' : loop_state) (pt : recip_point) :
  process_point structure_factor flat is_hex tol st pt = Return st' ->
  fst st <> [] \/ ~ snd (fst pt) == 0 -> fst st' <> [].
Proof.
  destruct st as [peaks gs], pt as [[[[h k] l] g] n].
  cbn [fst snd]. unfold process_point.
  destruct (Qeq_bool g 0) eqn:Eg; cbn [negb].
  { intros [= <-]. qprop. cbn [fst]. tauto. }
  destruct (structure_factor flat _ _) as [f |]; cbn [Py.bind];
    [| discriminate].
  destruct (first_within gs g tol) as [g0 |].
  - destruct (dict_get peaks g0) as [v |]; cbn [Py.bind]; [| discriminate].
    intros [= <-] _. apply dict_set_nonempty.
  - intros [= <-] _. apply dict_set_nonempty.
Qed.

Lemma process_point_zero (flat : Flattened) (is_hex : bool) (tol : Q)
    (st : loop_state) (pt : recip_point) :
  snd (fst pt) == 0 ->
  process_point structure_factor flat is_hex tol st pt = Return st.
Proof.
  destruct st as [peaks gs], pt as [[[[h k] l] g] n].
  cbn [fst snd]. intros E. unfold process_point.
  now rewrite (proj2 (Qeq_bool_iff g 0) E).
Qed.

Lemma merge_loop_nonempty (flat : Flattened) (is_hex : bool) (tol : Q)
    (pts : list recip_point) (st : loop_state) :
  merge_loop structure_factor flat is_hex tol pts = Return st ->
  (exists pt, In pt pts /\ ~ snd (fst pt) == 0) ->
  fst st <> [].
Proof.
  unfold merge_loop. intros Hrun (pt & Hin & Hg).
  apply (Permutation_in _ (Permutation_sym (sorted_points_perm pts))) in Hin.
  apply in_split in Hin. destruct Hin as (l1 & l2 & E).
  rewrite E, for_each_app in Hrun.
  destruct (for_each _ l1 _) as [st1 |]; cbn [Py.bind] in Hrun;
    [| discriminate].
  cbn [for_each] in Hrun.
  destruct (process_point _ _ _ _ st1 pt) as [st2 |] eqn:E2;
    cbn [Py.bind] in Hrun; [| discriminate].
  apply (for_each_invariant (fun st => fst st <> [])
           (process_point structure_factor flat is_hex tol) l2 st2 st).
  - apply (process_point_nonempty _ _ _ _ _ _ E2). now right.
  - intros t x t' Ht _ Hx.
    apply (process_point_nonempty _ _ _ _ _ _ Hx). now left.
  - exact Hrun.
Qed.

Lemma merge_loop_zero (flat : Flattened) (is_hex : bool) (tol : Q)
    (pts : list recip_point) :
  (forall pt, In pt pts -> snd (fst pt) == 0) ->
  merge_loop structure_factor flat is_hex tol pts = Return ([], []).
Proof.
  intros H. unfold merge_loop.
  assert (forall pt, In pt (sorted_points pts) -> snd (fst pt) == 0) as H'.
  { intros pt Hpt. apply H.
    now apply (Permutation_in _ (sorted_points_perm pts)). }
  clear H. induction (sorted_points pts) as [| pt l IH]; cbn [for_each].
  - reflexivity.
  - rewrite process_point_zero by (apply H'; now left). cbn [Py.bind].
    apply IH. intros x Hx. apply H'. now right.
Qed.

(** C10.  When [minimum_intensity >= 100] and a point of nonzero magnitude
    is enumerated, the loop leaves at least one peak and the first [max]
    succeeds, no peak passes the filter, and the second [max], on the empty
    list [y], raises [ValueError]: no empty profile is returned. *)
Theorem profile_threshold_100_raises (self : DiffractionGenerator)
    (s : Structure) (r tol minI : Q) (flat : Flattened) :
  flatten self s = Return flat ->
  (forall hkl s2, exists f, structure_factor flat hkl s2 = Return f) ->
  (exists pt, In pt (points s r) /\ ~ snd (fst pt) == 0) ->
  100 <= minI ->
  exists peaks gs m,
    loop s flat tol r = Return (peaks, gs)
    /\ peaks <> []
    /\ max (List.map b_intensity (dict_values peaks)) = Return m
    /\ kept_items peaks m minI = []
    /\ profile self s r tol minI = Raise max_empty.
Proof.
  intros Hf Hsf Hpt Hmin.
  destruct (merge_loop_returns structure_factor flat
              (is_hexagonal (lattice s)) tol (points s r) Hsf)
    as ([peaks gs] & Hl & [_ _ Hn _ Hw]).
  cbn [fst snd] in Hn, Hw.
  pose proof (merge_loop_nonempty _ _ _ _ _ Hl Hpt) as Hne.
  cbn [fst] in Hne.
  destruct (max_returns (List.map b_intensity (dict_values peaks)))
    as [m Hm].
  { destruct peaks; [congruence | discriminate]. }
  assert (kept_items peaks m minI = []) as Hkept.
  { unfold kept_items.
    destruct (List.filter _ (sorted_items peaks)) as [| kv rest] eqn:E;
      [reflexivity |].
    assert (In kv (kv :: rest)) as Hin by now left.
    rewrite <- E in Hin. apply List.filter_In in Hin.
    destruct Hin as [Hin Hk].
    rewrite keeps_nothing in Hk; [discriminate | | | exact Hmin].
    - now apply (max_bucket_nonneg peaks).
    - now apply (max_bucket peaks m Hw Hm). }
  exists peaks, gs, m.
  split; [exact Hl |]. split; [exact Hne |]. split; [exact Hm |].
  split; [exact Hkept |].
  rewrite (profile_eq self s r tol minI flat peaks gs Hf Hl).
  rewrite scale_and_filter_eq, Hm. cbn [Py.bind]. cbv zeta.
  rewrite Hkept. reflexivity.
Qed.

(** C6 (as amended).  When no enumerated point has a nonzero magnitude,
    the loop leaves [peaks] empty and the call ends in the [ValueError]
    that the built-in [max] raises on an empty list. *)
Theorem profile_without_reflections_raises (self : DiffractionGenerator)
    (s : Structure) (r tol minI : Q) (flat : Flattened) :
  flatten self s = Return flat ->
  (forall pt, In pt (points s r) -> snd (fst pt) == 0) ->
  loop s flat tol r = Return ([], [])
  /\ profile self s r tol minI = Raise max_empty
  /\ exn_class max_empty = "ValueError"%string.
Proof.
  intros Hf Hz.
  pose proof (merge_loop_zero flat (is_hexagonal (lattice s)) tol _ Hz) as Hl.
  split; [exact Hl |]. split; [| reflexivity].
  rewrite (profile_eq self s r tol minI flat [] [] Hf Hl). reflexivity.
Qed.

Lemma StronglySorted_impl {A} (R R' : A -> A -> Prop) (l : list A) :
  (forall a b, R a b -> R' a b) -> StronglySorted R l -> StronglySorted R' l.
Proof.
  intros H Hl. induction Hl as [| a l Hl IH Ha]; constructor; [exact IH |].
  eapply List.Forall_impl; [| exact Ha]. intros b. apply H.
Qed.

Lemma StronglySorted_pairs {A} (R : A -> A -> Prop) (l : list A) :
  StronglySorted R l <-> ForallOrdPairs R l.
Proof.
  split; intros H.
  - induction H; constructor; assumption.
  - induction H; constructor; assumption.
Qed.

Lemma ordered_pairs_permuted {A} (R : A -> A -> Prop) (l l' : list A) :
  (forall a b, R a b -> R b a) ->
  Permutation l l' -> ForallOrdPairs R l -> ForallOrdPairs R l'.
Proof.
  intros Hsym Hp. induction Hp as [| x l l' Hp IH | x y l | l l' l'' _ IH1 _ IH2];
    intros H.
  - exact H.
  - inversion H as [| ? ? Hx Hl]; subst. constructor; [| auto].
    rewrite List.Forall_forall in *. intros b Hb. apply Hx.
    now apply (Permutation_in _ (Permutation_sym Hp)).
  - inversion H as [| ? ? Hy Hl]; subst.
    inversion Hl as [| ? ? Hx Hl']; subst.
    inversion Hy as [| ? ? Hyx Hyl]; subst.
    constructor; [constructor; [now apply Hsym | exact Hx] |].
    now constructor.
  - auto.
Qed.

Lemma StronglySorted_map_filter {A B} (R : B -> B -> Prop) (f : A -> B)
    (P : A -> bool) (l : list A) :
  StronglySorted R (List.map f l) ->
  StronglySorted R (List.map f (List.filter P l)).
Proof.
  induction l as [| a l IH]; simpl; intros H; [constructor |].
  inversion H as [| ? ? Hl Ha]; subst.
  destruct (P a); simpl; [| auto].
  constructor; [auto |].
  rewrite List.Forall_forall in *. intros b Hb. apply Ha.
  apply List.in_map_iff in Hb. destruct Hb as (c & <- & Hc).
  apply List.filter_In in Hc. apply List.in_map. tauto.
Qed.

(** Sorted keys that lie [tol] apart, pair by pair, ascend in steps of at
    least [tol]. *)
Lemma sorted_keys_separated (tol : Q) (keys : list Q) :
  separated tol keys ->
  StronglySorted (fun a b => a + tol <= b) (sorted Qltb keys).
Proof.
  intros Hsep.
  assert (StronglySorted (fun a b => Qltb b a = false) (sorted Qltb keys))
    as Hs.
  { apply sorted_strongly.
    - intros a b. rewrite Qltb_true, Qltb_false. lra.
    - intros a b c. rewrite !Qltb_false. lra. }
  assert (separated tol (sorted Qltb keys)) as Hsep'.
  { apply (ordered_pairs_permuted _ keys).
    - intros a b H. rewrite <- (Qabs_opp (b - a)).
      assert (- (b - a) == a - b) as -> by ring. exact H.
    - apply Permutation_sym, sorted_perm.
    - exact Hsep. }
  unfold separated in Hsep'.
  induction Hs as [| a l Hl IH Ha]; [constructor |].
  inversion Hsep' as [| ? ? Hsa Hsl]; subst.
  constructor; [auto |].
  rewrite List.Forall_forall in *. intros b Hb.
  specialize (Ha b Hb). specialize (Hsa b Hb). qprop.
  rewrite Qabs_neg in Hsa by lra. lra.
Qed.

Lemma profile_return (self : DiffractionGenerator) (s : Structure)
    (r tol minI : Q) (sim : ProfileSimulation families) :
  profile self s r tol minI = Return sim ->
  exists flat peaks gs m max_y,
    flatten self s = Return flat
    /\ loop s flat tol r = Return (peaks, gs)
    /\ max (List.map b_intensity (dict_values peaks)) = Return m
    /\ max (List.map (fun kv => b_intensity (snd kv))
              (kept_items peaks m minI)) = Return max_y
    /\ sim = {| magnitudes := List.map fst (kept_items peaks m minI);
                intensities :=
                  List.map
                    (fun kv => mul (div (b_intensity (snd kv)) max_y) 100)
                    (kept_items peaks m minI);
                hkls := List.map
                          (fun kv => get_unique_families (b_hkls (snd kv)))
                          (kept_items peaks m minI) |}.
Proof.
  unfold calculate_profile_data.
  destruct (flatten self s) as [flat |]; cbn [Py.bind]; [| discriminate].
  destruct (merge_loop _ _ _ _ _) as [[peaks gs] |] eqn:El; cbn [Py.bind];
    [| discriminate].
  rewrite scale_and_filter_eq.
  destruct (max (List.map b_intensity (dict_values peaks))) as [m |] eqn:Em;
    cbn [Py.bind]; [| discriminate].
  cbv zeta.
  destruct (max (List.map _ (kept_items peaks m minI))) as [max_y |] eqn:Ey;
    cbn [Py.bind]; [| discriminate].
  intros [= <-]. exists flat, peaks, gs, m, max_y.
  repeat (split; [first [reflexivity | assumption] |]). reflexivity.
Qed.

(** C2.  Under a positive [magnitude_tolerance] the magnitudes of a
    returned profile ascend strictly and any two of them, adjacent or not,
    differ by at least the tolerance. *)
Theorem profile_magnitudes_separated (self : DiffractionGenerator)
    (s : Structure) (r tol minI : Q) (sim : ProfileSimulation families) :
  0 < tol ->
  profile self s r tol minI = Return sim ->
  StronglySorted Qlt (magnitudes sim)
  /\ ForallOrdPairs (fun a b => tol <= Qabs (a - b)) (magnitudes sim)
  /\ StronglySorted (fun a b => a + tol <= b) (magnitudes sim).
Proof.
  intros Htol Hsim.
  destruct (profile_return _ _ _ _ _ _ Hsim)
    as (flat & peaks & gs & m & max_y & Hf & Hl & Hm & Hy & ->).
  pose proof (merge_loop_inv _ _ _ _ _ _ Hl) as [_ _ _ Hs _].
  cbn [fst snd] in Hs. destruct (Hs Htol) as [Ek Hsep].
  cbn [magnitudes].
  assert (StronglySorted (fun a b => a + tol <= b)
            (List.map fst (kept_items peaks m minI))) as H.
  { unfold kept_items. apply StronglySorted_map_filter.
    rewrite sorted_items_keys. apply sorted_keys_separated.
    now rewrite Ek. }
  split; [| split; [| exact H]].
  - apply (StronglySorted_impl (fun a b => a + tol <= b)); [| exact H].
    intros a b Hab. lra.
  - apply StronglySorted_pairs.
    apply (StronglySorted_impl (fun a b => a + tol <= b)); [| exact H].
    intros a b Hab. rewrite Qabs_neg by lra. lra.
Qed.

Lemma keeps_needs (m minI : Q) (v : Bucket) :
  0 <= m -> b_intensity v <= m -> keeps m minI v = true ->
  0 < m /\ minI < 100.
Proof.
  intros Hm Hv Hk. split.
  - destruct (Qeq_bool m 0) eqn:E; qprop; [| lra].
    exfalso. unfold keeps in Hk. rewrite div_zero_divisor in Hk by exact E.
    destruct (Qcompare_spec (b_intensity v) 0) as [H0 | H0 | H0];
      [discriminate | discriminate | lra].
  - destruct (Qlt_le_dec minI 100) as [H | H]; [exact H |].
    rewrite keeps_nothing in Hk by assumption. discriminate.
Qed.

Lemma filter_filter_implied {A} (P P' : A -> bool) (l : list A) :
  (forall a, P a = true -> P' a = true) ->
  List.filter P (List.filter P' l) = List.filter P l.
Proof.
  intros H. induction l as [| a l IH]; simpl; [reflexivity |].
  destruct (P' a) eqn:E'; simpl.
  - destruct (P a); [f_equal |]; exact IH.
  - destruct (P a) eqn:E; [| exact IH].
    apply H in E. congruence.
Qed.

Lemma combine_map {A B C} (f : A -> B) (g : A -> C) (l : list A) :
  combine (List.map f l) (List.map g l) = List.map (fun a => (f a, g a)) l.
Proof. induction l; simpl; [reflexivity | now f_equal]. Qed.

(** C8.  Raising [minimum_intensity] from [lo] to [hi] can only remove
    records: when the call with [hi] returns, so does the call with [lo],
    and the records of the former are exactly those records of the latter
    whose intensity, on the scale from 0 to 100, exceeds [hi]. *)
Theorem profile_records_antitone (self : DiffractionGenerator)
    (s : Structure) (r tol lo hi : Q) (sim_hi : ProfileSimulation families) :
  lo <= hi ->
  profile self s r tol hi = Return sim_hi ->
  exists sim_lo,
    profile self s r tol lo = Return sim_lo
    /\ incl (records sim_hi) (records sim_lo)
    /\ forall rec,
         In rec (records sim_hi)
         <-> In rec (records sim_lo) /\ gt (snd (fst rec)) hi = true.
Proof.
  intros Hlo Hsim.
  destruct (profile_return _ _ _ _ _ _ Hsim)
    as (flat & peaks & gs & m & y0 & Hf & Hl & Hm & Hy0 & _).
  pose proof (merge_loop_inv _ _ _ _ _ _ Hl) as [_ _ Hn _ Hw].
  cbn [fst snd] in Hn, Hw.
  destruct (max_bucket peaks m Hw Hm) as [Hle _].
  pose proof (max_bucket_nonneg peaks m Hn Hm) as Hm0.
  (* the call with [hi] kept something, so [m] is positive and [hi < 100] *)
  assert (0 < m /\ hi < 100) as [Hmpos Hhi].
  { apply max_first_max, first_max_In, List.in_map_iff in Hy0.
    destruct Hy0 as (kv & _ & Hkv). apply List.filter_In in Hkv.
    destruct Hkv as [Hkv Hk].
    apply (keeps_needs m hi (snd kv)); auto. }
  destruct (scale_positive peaks lo m Hw Hm Hmpos ltac:(lra))
    as (y_lo & Ey_lo & Hfm_lo & _ & Hsim_lo).
  destruct (scale_positive peaks hi m Hw Hm Hmpos Hhi)
    as (y_hi & Ey_hi & Hfm_hi & _ & Hsim_hi).
  assert (kept_items peaks m hi
          = List.filter (fun kv => keeps m hi (snd kv))
              (kept_items peaks m lo)) as Ekept.
  { unfold kept_items. symmetry. apply filter_filter_implied.
    intros kv Hk.
    apply (keeps_monotone m lo hi (snd kv) (snd kv)); auto. lra. }
  (* both calls divide by the same maximum *)
  assert (y_hi = y_lo) as ->.
  { assert (max (List.map (fun kv => b_intensity (snd kv))
                   (kept_items peaks m hi)) = Return y_lo) as H1.
    { apply max_first_max. rewrite Ekept.
      apply first_max_filter; [exact Hfm_lo |].
      intros kv _ E. apply keeps_maximal; [exact Hmpos | | exact Hhi].
      rewrite E. exact Ey_lo. }
    apply max_first_max in Hfm_hi. congruence. }
  rewrite (profile_eq self s r tol hi flat peaks gs Hf Hl), Hsim_hi in Hsim.
  injection Hsim as <-.
  eexists.
  rewrite (profile_eq self s r tol lo flat peaks gs Hf Hl), Hsim_lo.
  split; [reflexivity |].
  unfold records. cbn [magnitudes intensities hkls].
  rewrite !combine_map.
  assert (forall rec,
            In rec (List.map
                      (fun a => (fst a,
                                 Fin (b_intensity (snd a) / y_lo * 100),
                                 get_unique_families (b_hkls (snd a))))
                      (kept_items peaks m hi))
            <-> In rec (List.map
                      (fun a => (fst a,
                                 Fin (b_intensity (snd a) / y_lo * 100),
                                 get_unique_families (b_hkls (snd a))))
                      (kept_items peaks m lo))
                /\ gt (snd (fst rec)) hi = true) as Hiff.
  { intros rec. rewrite !List.in_map_iff. split.
    - intros (kv & <- & Hkv). rewrite Ekept in Hkv.
      apply List.filter_In in Hkv. destruct Hkv as [Hkv Hk].
      split; [eauto |]. cbn [fst snd gt].
      apply keeps_positive in Hk; [| exact Hmpos].
      apply Qltb_true.
      assert (b_intensity (snd kv) / y_lo == b_intensity (snd kv) / m)
        as -> by (rewrite Ey_lo; reflexivity).
      exact Hk.
    - intros [(kv & <- & Hkv) Hgt]. exists kv. split; [reflexivity |].
      rewrite Ekept. apply List.filter_In. split; [exact Hkv |].
      cbn [fst snd gt] in Hgt. apply Qltb_true in Hgt.
      apply keeps_positive; [exact Hmpos |].
      assert (b_intensity (snd kv) / m == b_intensity (snd kv) / y_lo)
        as -> by (rewrite Ey_lo; reflexivity).
      exact Hgt. }
  split; [| exact Hiff].
  intros rec Hrec. now apply Hiff in Hrec.
Qed.

(** C9.  The points are processed in the order of [sorted_points]: a
    rearrangement of the enumerated points in which a point comes before
    another only if its magnitude is smaller or, at equal magnitude, its h
    is larger or, at equal h, its k is larger or, at equal k, its l is not
    smaller.  Any two points are comparable.  When no two different points
    tie, the order, and with it the whole result, does not depend on the
    order in which the lattice enumerates the points. *)
Theorem profile_processing_order (self : DiffractionGenerator)
    (s s' : Structure) (r tol minI : Q) :
  (Permutation (sorted_points (points s r)) (points s r)
   /\ StronglySorted key_le (sorted_points (points s r))
   /\ (forall i j, key_le i j \/ key_le j i)
   /\ forall flat,
        loop s flat tol r
        = for_each
            (process_point structure_factor flat (is_hexagonal (lattice s))
               tol)
            (sorted_points (points s r)) ([], []))
  /\ (sites s = sites s' ->
      is_hexagonal (lattice s) = is_hexagonal (lattice s') ->
      Permutation (points s r) (points s' r) ->
      ties_identical (points s r) ->
      sorted_points (points s r) = sorted_points (points s' r)
      /\ profile self s r tol minI = profile self s' r tol minI).
Proof.
  split.
  - split; [apply sorted_points_perm |].
    split; [apply sorted_points_strongly |].
    split; [apply key_le_total | reflexivity].
  - intros Hsites Hhex Hperm Hties.
    pose proof (sorted_points_permuted _ _ Hperm Hties) as E.
    split; [exact E |].
    unfold calculate_profile_data, flatten_structure, merge_loop.
    now rewrite Hsites, Hhex, E.
Qed.

Lemma reached_inv (flat : Flattened) (is_hex : bool) (tol : Q)
    (pre : list recip_point) (st : loop_state) :
  for_each (process_point structure_factor flat is_hex tol) pre ([], [])
  = Return st ->
  loop_inv tol st.
Proof.
  apply for_each_invariant with (P := loop_inv tol).
  - apply loop_inv_init.
  - intros t x t' Ht _. now apply process_point_inv.
Qed.

(** Two reflections processed one after the other, from the empty state. *)
Lemma merge_two (flat : Flattened) (is_hex : bool) (tol : Q)
    (h1 k1 l1 g1 h2 k2 l2 g2 : Q) (n1 n2 : Z) (f1 f2 : Q * Q) :
  ~ g1 == 0 -> ~ g2 == 0 ->
  structure_factor flat [round h1; round k1; round l1] (g1 / 2 * (g1 / 2))
  = Return f1 ->
  structure_factor flat [round h2; round k2; round l2] (g2 / 2 * (g2 / 2))
  = Return f2 ->
  let t1 := if is_hex then miller_bravais [round h1; round k1; round l1]
            else [round h1; round k1; round l1] in
  let t2 := if is_hex then miller_bravais [round h2; round k2; round l2]
            else [round h2; round k2; round l2] in
  for_each (process_point structure_factor flat is_hex tol)
    [((h1, k1, l1), g1, n1); ((h2, k2, l2), g2, n2)] ([], [])
  = if Qltb (Qabs (g1 - g2)) tol then
      Return ([(g1, {| b_intensity := intensity_of f1 + intensity_of f2;
                       b_hkls := [t1; t2];
                       b_d_hkl := 1 / g1 |})],
              [g1])
    else if Qeq_bool g1 g2 then
      Return ([(g1, {| b_intensity := intensity_of f2;
                       b_hkls := [t2];
                       b_d_hkl := 1 / g2 |})],
              [g1; g2])
    else
      Return ([(g1, {| b_intensity := intensity_of f1;
                       b_hkls := [t1];
                       b_d_hkl := 1 / g1 |});
               (g2, {| b_intensity := intensity_of f2;
                       b_hkls := [t2];
                       b_d_hkl := 1 / g2 |})],
              [g1; g2]).
Proof.
  intros H1 H2 E1 E2 t1 t2.
  cbn [for_each]. unfold process_point at 1.
  rewrite (proj2 (Qeq_bool_false g1 0) H1). cbn [negb].
  rewrite E1. cbn [Py.bind first_within List.find dict_set app].
  unfold process_point.
  rewrite (proj2 (Qeq_bool_false g2 0) H2). cbn [negb].
  rewrite E2. unfold first_within, within. cbn [Py.bind List.find].
  destruct (Qltb (Qabs (g1 - g2)) tol); cbn [dict_get dict_set].
  - rewrite (proj2 (Qeq_bool_iff g1 g1) (Qeq_refl g1)).
    cbn [Py.bind dict_set b_intensity b_hkls b_d_hkl app]. reflexivity.
  - destruct (Qeq_bool g1 g2); reflexivity.
Qed.

(** C3.  A reflection of nonzero magnitude [g] arrives at a state reached
    by the loop.  If a recorded magnitude lies within the tolerance of [g],
    the first such magnitude [g0] names the peak that takes the
    reflection: its intensity grows by the intensity of the reflection, its
    family gets the tuple appended, and no other peak changes.  Otherwise a
    peak keyed by [g] is created, holding the reflection alone.
    Consequently two reflections closer than the tolerance end in one peak
    whose intensity is the sum of the intensities of the two peaks that a
    tolerance not above their distance leaves. *)
Theorem profile_merges_within_tolerance (flat : Flattened) (is_hex : bool)
    (tol tol' : Q) :
  (forall pre st h k l g n f,
     for_each (process_point structure_factor flat is_hex tol) pre ([], [])
     = Return st ->
     ~ g == 0 ->
     structure_factor flat [round h; round k; round l] (g / 2 * (g / 2))
     = Return f ->
     let t := if is_hex then miller_bravais [round h; round k; round l]
              else [round h; round k; round l] in
     ((exists g', In g' (snd st) /\ Qabs (g' - g) < tol) ->
      exists g0 v peaks',
        In g0 (snd st) /\ Qabs (g0 - g) < tol
        /\ dict_get (fst st) g0 = Return v
        /\ process_point structure_factor flat is_hex tol st ((h, k, l), g, n)
           = Return (peaks', snd st)
        /\ dict_get peaks' g0
           = Return {| b_intensity := b_intensity v + intensity_of f;
                       b_hkls := b_hkls v ++ [t];
                       b_d_hkl := b_d_hkl v |}
        /\ forall k0, ~ g0 == k0 -> dict_get peaks' k0 = dict_get (fst st) k0)
     /\ ((forall g', In g' (snd st) -> tol <= Qabs (g' - g)) ->
         exists peaks',
           process_point structure_factor flat is_hex tol st
             ((h, k, l), g, n)
           = Return (peaks', snd st ++ [g])
           /\ dict_get peaks' g
              = Return {| b_intensity := intensity_of f;
                          b_hkls := [t];
                          b_d_hkl := 1 / g |}
           /\ forall k0, ~ g == k0 ->
                         dict_get peaks' k0 = dict_get (fst st) k0))
  /\ (forall ha ka la ga na hb kb lb gb nb fa fb,
        ~ ga == 0 -> ~ gb == 0 ->
        structure_factor flat [round ha; round ka; round la]
          (ga / 2 * (ga / 2)) = Return fa ->
        structure_factor flat [round hb; round kb; round lb]
          (gb / 2 * (gb / 2)) = Return fb ->
        Qabs (ga - gb) < tol ->
        tol' <= Qabs (ga - gb) -> ~ ga == gb ->
        exists key b key1 b1 key2 b2 gs gs',
          merge_loop structure_factor flat is_hex tol
            [((ha, ka, la), ga, na); ((hb, kb, lb), gb, nb)]
          = Return ([(key, b)], gs)
          /\ merge_loop structure_factor flat is_hex tol'
               [((ha, ka, la), ga, na); ((hb, kb, lb), gb, nb)]
             = Return ([(key1, b1); (key2, b2)], gs')
          /\ b_intensity b = b_intensity b1 + b_intensity b2
          /\ b_hkls b = b_hkls b1 ++ b_hkls b2).
Proof.
  split.
  - intros pre [peaks gs] h k l g n f Hreach Hg Hf t. cbn [fst snd].
    pose proof (reached_inv _ _ _ _ _ Hreach) as [_ Hgs _ _ _].
    cbn [fst snd] in Hgs.
    assert (process_point structure_factor flat is_hex tol (peaks, gs)
                ((h, k, l), g, n)
              = match first_within gs g tol with
                | Some g0 =>
                    let* v := dict_get peaks g0 in
                    Return (dict_set peaks g0
                              {| b_intensity := b_intensity v + intensity_of f;
                                 b_hkls := b_hkls v ++ [t];
                                 b_d_hkl := b_d_hkl v |}, gs)
                | None =>
                    Return (dict_set peaks g
                              {| b_intensity := intensity_of f;
                                 b_hkls := [t];
                                 b_d_hkl := 1 / g |}, gs ++ [g])
                end) as Estep.
    { unfold process_point.
      rewrite (proj2 (Qeq_bool_false g 0) Hg). cbn [negb].
      rewrite Hf. reflexivity. }
    split.
    + intros (g' & Hin' & Hnear').
      destruct (first_within gs g tol) as [g0 |] eqn:Ef.
      * apply first_within_some in Ef. destruct Ef as [Hin Hnear].
        destruct (proj1 (dict_get_key peaks g0) (Hgs g0 Hin)) as [v Ev].
        rewrite Ev in Estep. cbn [Py.bind] in Estep.
        exists g0, v. eexists.
        split; [exact Hin |]. split; [exact Hnear |]. split; [exact Ev |].
        split; [exact Estep |]. split.
        -- rewrite dict_get_set.
           now rewrite (proj2 (Qeq_bool_iff g0 g0) (Qeq_refl g0)).
        -- intros k0 Hk0. rewrite dict_get_set.
           now rewrite (proj2 (Qeq_bool_false g0 k0) Hk0).
      * apply first_within_none in Ef. rewrite List.Forall_forall in Ef.
        specialize (Ef g' Hin'). lra.
    + intros Hfar.
      destruct (first_within gs g tol) as [g0 |] eqn:Ef.
      * apply first_within_some in Ef. destruct Ef as [Hin Hnear].
        specialize (Hfar g0 Hin). lra.
      * eexists. split; [exact Estep |]. split.
        -- rewrite dict_get_set.
           now rewrite (proj2 (Qeq_bool_iff g g) (Qeq_refl g)).
        -- intros k0 Hk0. rewrite dict_get_set.
           now rewrite (proj2 (Qeq_bool_false g k0) Hk0).
  - intros ha ka la ga na hb kb lb gb nb fa fb Ha Hb Efa Efb Hnear Hfar Hne.
    unfold merge_loop, sorted_points, sorted.
    cbn [fold_right insert_sorted].
    destruct (point_ltb (hb, kb, lb, gb, nb) (ha, ka, la, ga, na)).
    + rewrite !(merge_two flat is_hex _ hb kb lb gb ha ka la ga nb na fb fa)
        by assumption.
      rewrite (Qabs_Qminus gb ga).
      rewrite (proj2 (Qltb_true _ _) Hnear), (proj2 (Qltb_false _ _) Hfar).
      rewrite (proj2 (Qeq_bool_false gb ga)) by (intros E; apply Hne; lra).
      do 8 eexists. repeat split.
    + rewrite !(merge_two flat is_hex _ ha ka la ga hb kb lb gb na nb fa fb)
        by assumption.
      rewrite (proj2 (Qltb_true _ _) Hnear), (proj2 (Qltb_false _ _) Hfar).
      rewrite (proj2 (Qeq_bool_false ga gb) Hne).
      do 8 eexists. repeat split.
Qed.

End ProfileFacts.


(* ================================================================== *)
(** * The pattern: selection on the Ewald sphere *)
(* ================================================================== *)

Lemma select_map {A B} (f : A -> B) (P : A -> bool) (l : list A) :
  select (List.map f l) (List.map P l) = List.map f (List.filter P l).
Proof.
  induction l as [| a l IH]; simpl; [reflexivity |].
  destruct (P a); simpl; now rewrite IH.
Qed.

Lemma select_filter {A} (P : A -> bool) (l : list A) :
  select l (List.map P l) = List.filter P l.
Proof.
  induction l as [| a l IH]; simpl; [reflexivity |].
  destruct (P a); simpl; now rewrite IH.
Qed.

Lemma boolean_index_map {A B} (f : A -> B) (P : A -> bool) (l : list A) :
  boolean_index (List.map f l) (List.map P l)
  = Return (List.map f (List.filter P l)).
Proof.
  unfold boolean_index. rewrite !List.length_map, Nat.eqb_refl.
  now rewrite select_map.
Qed.

Lemma boolean_index_return {A} (a sel : list A) (mask : list bool) :
  boolean_index a mask = Return sel ->
  length a = length mask /\ sel = select a mask.
Proof.
  unfold boolean_index.
  destruct (Nat.eqb (length a) (length mask)) eqn:E; [| discriminate].
  apply Nat.eqb_eq in E. intros [= <-]. auto.
Qed.

Lemma select_length {A B} (a : list A) (b : list B) (mask : list bool) :
  length a = length mask -> length b = length mask ->
  length (select a mask) = length (select b mask).
Proof.
  revert a b. induction mask as [| m mask IH]; intros [| x a] [| y b];
    simpl; try discriminate; try reflexivity.
  intros [= Ha] [= Hb]. destruct m; simpl; auto.
Qed.

Section PatternFacts.

Variables np_sqrt np_arcsin np_cos : Q -> Q.
Variable get_kinematical_intensities :
  Structure -> list vec3 -> list Q -> list Q -> Q -> gmap string Q
  -> result (list Q).

Local Abbreviation simulate :=
  (calculate_ed_data np_sqrt np_arcsin np_cos get_kinematical_intensities).
Local Abbreviation excited := (excited_reflections np_sqrt np_arcsin np_cos).
Local Abbreviation error := (excitation_error np_sqrt np_arcsin np_cos).
Local Abbreviation cart s :=
  (get_cartesian_coords (reciprocal_lattice_crystallographic (lattice s))).
Local Abbreviation points s r :=
  (get_points_in_sphere (reciprocal_lattice_crystallographic (lattice s)) r).

(** The excited reflections are the enumerated points whose excitation
    error is below the maximum, in the order of the enumeration. *)
Lemma excited_eq (self : DiffractionGenerator) (s : Structure) (r : Q) :
  let P := fun p : recip_point =>
             Qltb (error (wavelength self) (cart s (fst (fst p))))
               (max_excitation_error self) in
  let kept := List.filter P (points s r) in
  excited self s r
  = Return (List.map (fun p => cart s (fst (fst p))) kept,
            List.map (fun p => fst (fst p)) kept,
            List.map (fun p => error (wavelength self)
                                 (cart s (fst (fst p)))) kept,
            List.map (fun p => snd (fst p)) kept).
Proof.
  intros P kept. unfold excited_reflections.
  rewrite !List.map_map.
  rewrite (boolean_index_map (fun p => cart s (fst (fst p))) P).
  cbn [Py.bind].
  rewrite (boolean_index_map (fun p : recip_point => fst (fst p)) P).
  cbn [Py.bind].
  rewrite (boolean_index_map
             (fun p => error (wavelength self) (cart s (fst (fst p)))) P).
  cbn [Py.bind].
  rewrite (boolean_index_map (fun p : recip_point => snd (fst p)) P).
  reflexivity.
Qed.

Lemma excitation_error_formula (wavelength : Q) (c : vec3) :
  Proper (Qeq ==> Qeq) np_arcsin -> Proper (Qeq ==> Qeq) np_cos ->
  error wavelength c == ewald_distance np_sqrt np_arcsin np_cos wavelength c.
Proof.
  intros Hasin Hcos. destruct c as [[x y] z].
  unfold excitation_error, ewald_distance.
  assert (np_sqrt (x * x + y * y) / (1 / wavelength)
          == np_sqrt (x * x + y * y) * wavelength) as E.
  { unfold Qdiv. rewrite Qmult_1_l, Qinv_involutive. reflexivity. }
  now rewrite E.
Qed.

(** C4.  The excitation error of a point is
    [|(1/wavelength) (1 - cos (arcsin (sqrt (x^2 + y^2) wavelength))) - z|],
    and a point of the sphere is among the excited reflections exactly when
    this number is strictly below [max_excitation_error]; its distance to
    the origin plays no part. *)
Theorem ewald_selection (self : DiffractionGenerator) (s : Structure)
    (r : Q) :
  0 < wavelength self ->
  Proper (Qeq ==> Qeq) np_arcsin -> Proper (Qeq ==> Qeq) np_cos ->
  (forall c, error (wavelength self) c
             == ewald_distance np_sqrt np_arcsin np_cos (wavelength self) c)
  /\ exists kept,
       excited self s r
       = Return (List.map (fun p => cart s (fst (fst p))) kept,
                 List.map (fun p => fst (fst p)) kept,
                 List.map (fun p => error (wavelength self)
                                      (cart s (fst (fst p)))) kept,
                 List.map (fun p => snd (fst p)) kept)
       /\ forall p,
            In p kept
            <-> In p (points s r)
                /\ ewald_distance np_sqrt np_arcsin np_cos (wavelength self)
                     (cart s (fst (fst p)))
                   < max_excitation_error self.
Proof.
  intros _ Hasin Hcos. split.
  - intros c. now apply excitation_error_formula.
  - eexists. split; [apply excited_eq |].
    intros p. rewrite List.filter_In, Qltb_true.
    now rewrite excitation_error_formula.
Qed.

(** C7.  For a positive wavelength: the excited reflections are computed
    without an exception; when [get_kinematical_intensities] returns one
    intensity for each of them, the simulation is returned; and every
    simulation that is returned holds coordinates, indices and intensities
    of one length, each intensity strictly above [1e-20]. *)
Theorem pattern_arrays (self : DiffractionGenerator) (s : Structure)
    (r : Q) (direct : bool) :
  0 < wavelength self ->
  (exists ic ii prox g,
     excited self s r = Return (ic, ii, prox, g)
     /\ length ii = length ic
     /\ forall ints,
          get_kinematical_intensities s ii g prox (max_excitation_error self)
            (debye_waller_factors self) = Return ints ->
          length ints = length ic ->
          exists sim, simulate self s r direct = Return sim)
  /\ forall sim,
       simulate self s r direct = Return sim ->
       length (coordinates sim) = length (ed_intensities sim)
       /\ length (indices sim) = length (ed_intensities sim)
       /\ Forall (fun i => noise_floor < i) (ed_intensities sim).
Proof.
  intros _. split.
  - do 4 eexists. split; [apply excited_eq |].
    split; [now rewrite !List.length_map |].
    intros ints Hints Hlen.
    unfold calculate_ed_data. rewrite excited_eq. cbn [Py.bind].
    rewrite Hints. cbn [Py.bind]. cbv zeta.
    unfold boolean_index.
    rewrite !List.length_map in *. rewrite Nat.eqb_refl. cbn [Py.bind].
    rewrite <- Hlen, Nat.eqb_refl. cbn [Py.bind]. eauto.
  - intros sim. unfold calculate_ed_data.
    destruct (excited self s r) as [[[[ic ii] prox] g] |]; cbn [Py.bind];
      [| discriminate].
    destruct (get_kinematical_intensities _ _ _ _ _ _) as [ints |];
      cbn [Py.bind]; [| discriminate].
    cbv zeta.
    destruct (boolean_index ints _) as [ints' |] eqn:E1; cbn [Py.bind];
      [| discriminate].
    destruct (boolean_index ic _) as [ic' |] eqn:E2; cbn [Py.bind];
      [| discriminate].
    destruct (boolean_index ii _) as [ii' |] eqn:E3; cbn [Py.bind];
      [| discriminate].
    intros [= <-]. cbn [coordinates indices ed_intensities].
    apply boolean_index_return in E1, E2, E3.
    destruct E1 as [L1 ->], E2 as [L2 ->], E3 as [L3 ->].
    split; [now apply select_length |].
    split; [now apply select_length |].
    rewrite select_filter.
    apply List.Forall_forall. intros i Hi.
    apply List.filter_In in Hi. destruct Hi as [_ Hi].
    now apply Qltb_true in Hi.
Qed.

End PatternFacts.

(* ================================================================== *)
(** * Elements without scattering parameters *)
(* ================================================================== *)

Section MissingElement.

Variable ATOMIC_SCATTERING_PARAMS : gmap string scattering_coeffs.
Variable self : DiffractionGenerator.

(** The loop over the species of one site, in the profile and in the
    intensity routine: both get through, or both stop at the same
    species. *)
Lemma species_loop (site : Site) (items : list (Specie * Q))
    (acc : Flattened) :
  ((forall sp occu, In (sp, occu) items ->
                    ATOMIC_SCATTERING_PARAMS !! symbol sp <> None)
   /\ (exists acc',
         for_each (flatten_specie ATOMIC_SCATTERING_PARAMS self site) items acc
         = Return acc')
   /\ for_each (SimUtils.check_specie ATOMIC_SCATTERING_PARAMS) items tt = Return tt)
  \/ exists sp occu,
       In (sp, occu) items
       /\ ATOMIC_SCATTERING_PARAMS !! symbol sp = None
       /\ for_each (flatten_specie ATOMIC_SCATTERING_PARAMS self site) items
            acc
          = Raise (no_coefficients (symbol sp))
       /\ for_each (SimUtils.check_specie ATOMIC_SCATTERING_PARAMS) items tt
          = Raise (SimUtils.UnknownElementError (symbol sp)).
Proof.
  revert acc. induction items as [| [sp occu] items IH]; intros acc.
  - left. split; [intros ? ? [] |]. split; [eexists |]; reflexivity.
  - cbn [for_each]. unfold flatten_specie, SimUtils.check_specie.
    cbn [fst].
    destruct (ATOMIC_SCATTERING_PARAMS !! symbol sp) as [c |] eqn:E;
      cbn [Py.bind].
    + match goal with
      | |- context [for_each _ items ?a] =>
          destruct (IH a) as [(Hall & Hret & Hchk)
                             | (sp' & occu' & Hin & Hnone & Hrai & Hchk)]
      end.
      * left. split; [| split; assumption].
        intros sp0 occu0 [[= <- <-] | H0]; [congruence | eauto].
      * right. exists sp', occu'. split; [now right |].
        split; [exact Hnone | split; assumption].
    + right. exists sp, occu. split; [now left |].
      split; [exact E | split; reflexivity].
Qed.

Lemma sites_loop (site_list : list Site) (acc : Flattened) :
  ((forall sym, ~ missing_symbol ATOMIC_SCATTERING_PARAMS site_list sym)
   /\ (exists acc',
         for_each (flatten_site ATOMIC_SCATTERING_PARAMS self) site_list acc
         = Return acc')
   /\ for_each (SimUtils.check_site ATOMIC_SCATTERING_PARAMS) site_list tt = Return tt)
  \/ exists sym,
       missing_symbol ATOMIC_SCATTERING_PARAMS site_list sym
       /\ for_each (flatten_site ATOMIC_SCATTERING_PARAMS self) site_list acc
          = Raise (no_coefficients sym)
       /\ for_each (SimUtils.check_site ATOMIC_SCATTERING_PARAMS) site_list tt
          = Raise (SimUtils.UnknownElementError sym).
Proof.
  revert acc. induction site_list as [| site site_list IH]; intros acc.
  - left. split; [| split; [eexists |]; reflexivity].
    intros sym (site & _ & _ & [] & _).
  - cbn [for_each]. unfold flatten_site, SimUtils.check_site.
    destruct (species_loop site (species_and_occu site) acc)
      as [(Hall & [acc' Hret] & Hchk) | (sp & occu & Hin & Hnone & Hrai & Hchk)].
    + rewrite Hret, Hchk. cbn [Py.bind].
      destruct (IH acc') as [(Hall' & Hret' & Hchk')
                            | (sym & Hmiss & Hrai' & Hchk')].
      * left. split; [| split; assumption].
        intros sym (site0 & sp0 & occu0 & [<- | Hs] & Hi & Hsym & Hnone).
        -- apply (Hall sp0 occu0 Hi). now rewrite Hsym.
        -- apply (Hall' sym). exists site0, sp0, occu0. auto.
      * right. exists sym. split; [| split; assumption].
        destruct Hmiss as (site0 & sp0 & occu0 & Hs & Hrest).
        exists site0, sp0, occu0. split; [now right | exact Hrest].
    + rewrite Hrai, Hchk. cbn [Py.bind].
      right. exists (symbol sp). split; [| split; reflexivity].
      exists site, sp, occu. split; [now left |].
      split; [exact Hin | split; [reflexivity | exact Hnone]].
Qed.

End MissingElement.

(** C5 (as amended).  When a species of the structure has no row in the
    scattering table, [calculate_profile_data] raises [ValueError] with
    the message of the source, which names the symbol.
    [calculate_ed_data] itself looks nothing up: with
    [get_kinematical_intensities] as the specification describes it, the
    call ends in [UnknownElementError] for the same symbol. *)
Theorem missing_element_is_reported
    (table : gmap string scattering_coeffs)
    (structure_factor : Flattened -> list Z -> Q -> result (Q * Q))
    (families : Type) (get_unique_families : list hkl_tuple -> families)
    (np_sqrt np_arcsin np_cos : Q -> Q)
    (kinematical_intensity :
       Structure -> gmap string Q -> Q -> vec3 * Q * Q -> Q)
    (self : DiffractionGenerator) (s : Structure)
    (r tol minI : Q) (direct : bool) :
  0 < wavelength self ->
  (exists sym, missing_symbol table (sites s) sym) ->
  exists sym,
    missing_symbol table (sites s) sym
    /\ calculate_profile_data table structure_factor families
         get_unique_families self s r tol minI
       = Raise (no_coefficients sym)
    /\ no_coefficients sym
       = ValueError
           ("Unable to calculate XRD pattern as there is no scattering coefficients for "
              +:+ sym +:+ ".")
    /\ calculate_ed_data np_sqrt np_arcsin np_cos
         (SimUtils.get_kinematical_intensities table kinematical_intensity)
         self s r direct
       = Raise (SimUtils.UnknownElementError sym)
    /\ SimUtils.UnknownElementError sym = Exn "UnknownElementError" sym.
Proof.
  intros _ [sym0 Hmiss0].
  destruct (sites_loop table self (sites s) Flattened_empty)
    as [(Hall & _) | (sym & Hmiss & Hrai & Hchk)].
  - exfalso. apply (Hall sym0 Hmiss0).
  - exists sym. split; [exact Hmiss |].
    split; [| split; [reflexivity | split; [| reflexivity]]].
    + unfold calculate_profile_data, flatten_structure. now rewrite Hrai.
    + unfold calculate_ed_data. rewrite excited_eq. cbn [Py.bind].
      unfold SimUtils.get_kinematical_intensities. now rewrite Hchk.
Qed.


(* ================================================================== *)
(** * The statements on the cubic cell *)
(* ================================================================== *)

Lemma profile_maximum_is_100_witness :
  exists sim m,
    calculate_profile_data Example.table Example.factor_one _
      Example.same_families Example.generator Example.aluminium
      (3 # 10) (1 # 100000) (1 # 1000) = Return sim
    /\ 0 < m
    /\ (exists q, In (Fin q) (intensities sim) /\ q == 100).
Proof.
  destruct (profile_maximum_is_100 Example.table Example.factor_one _
              Example.same_families Example.generator Example.aluminium
              (3 # 10) (1 # 100000) (1 # 1000)
              _ _ _ eq_refl eq_refl) as (sim & m & H).
  - eexists. split; [left; reflexivity | reflexivity].
  - reflexivity.
  - exists sim, m. tauto.
Defined.

(** Counterexample to C1 as stated: the six points of {100} have nonzero
    magnitude and the threshold is below 100, but under a Debye-Waller
    factor of 10^7 every structure factor is 0; the maximum is 0, the
    quotient 0/0 is [nan] and passes no filter, and the call raises instead
    of returning a profile with maximum 100. *)
Lemma profile_extinct_structure_raises :
  (exists pt,
     In pt (Example.cubic_points (3 # 10)) /\ ~ snd (fst pt) == 0)
  /\ (1 # 1000) < 100
  /\ calculate_profile_data Example.table Example.damped_factor _
       Example.same_families Example.hot_generator Example.aluminium
       (3 # 10) (1 # 100000) (1 # 1000)
     = Raise max_empty
  /\ ~ exists sim,
         calculate_profile_data Example.table Example.damped_factor _
           Example.same_families Example.hot_generator Example.aluminium
           (3 # 10) (1 # 100000) (1 # 1000)
         = Return sim.
Proof.
  split.
  { exists ((0, 0, 1), 1 # 4, 0%Z). split; [right; left; reflexivity |].
    cbn [fst snd]. intros H. discriminate H. }
  split; [reflexivity |].
  split; [vm_compute; reflexivity |].
  intros [sim H]. vm_compute in H. discriminate H.
Qed.

Lemma profile_magnitudes_separated_witness :
  exists sim,
    calculate_profile_data Example.table Example.factor_one _
      Example.same_families Example.generator Example.layered
      (6 # 10) (1 # 100000) (1 # 1000) = Return sim
    /\ magnitudes sim = [1 # 4; 1 # 2]
    /\ StronglySorted Qlt (magnitudes sim)
    /\ ForallOrdPairs (fun a b => (1 # 100000) <= Qabs (a - b))
         (magnitudes sim).
Proof.
  eexists. split; [vm_compute; reflexivity |].
  split; [reflexivity |].
  destruct (profile_magnitudes_separated Example.table Example.factor_one _
              Example.same_families Example.generator Example.layered
              (6 # 10) (1 # 100000) (1 # 1000) _ eq_refl eq_refl)
    as (H1 & H2 & _).
  split; [exact H1 | exact H2].
Defined.

Lemma profile_merges_within_tolerance_witness :
  exists key b key1 b1 key2 b2 gs gs',
    merge_loop Example.factor_one Flattened_empty false (1 # 10)
      [Example.near_a; Example.near_b]
    = Return ([(key, b)], gs)
    /\ merge_loop Example.factor_one Flattened_empty false (1 # 1000)
         [Example.near_a; Example.near_b]
       = Return ([(key1, b1); (key2, b2)], gs')
    /\ b_intensity b = b_intensity b1 + b_intensity b2
    /\ b_hkls b = b_hkls b1 ++ b_hkls b2.
Proof.
  apply (proj2 (profile_merges_within_tolerance Example.factor_one
                  Flattened_empty false (1 # 10) (1 # 1000))
           1 0 0 (25 # 100) 0%Z 0 1 0 (26 # 100) 0%Z (1, 0) (1, 0)).
  - intros H. discriminate H.
  - intros H. discriminate H.
  - reflexivity.
  - reflexivity.
  - reflexivity.
  - intros H. discriminate H.
  - intros H. discriminate H.
Defined.

Lemma ewald_selection_witness :
  exists kept,
    excited_reflections Example.small_sqrt Example.small_arcsin
      Example.small_cos Example.generator Example.aluminium (3 # 10)
    = Return (List.map (fun p => Example.cubic_cart (fst (fst p))) kept,
              List.map (fun p => fst (fst p)) kept,
              List.map
                (fun p =>
                   excitation_error Example.small_sqrt Example.small_arcsin
                     Example.small_cos (251 # 10000)
                     (Example.cubic_cart (fst (fst p)))) kept,
              List.map (fun p => snd (fst p)) kept)
    /\ forall p,
         In p kept
         <-> In p (Example.cubic_points (3 # 10))
             /\ ewald_distance Example.small_sqrt Example.small_arcsin
                  Example.small_cos (251 # 10000)
                  (Example.cubic_cart (fst (fst p)))
                < 1 # 100.
Proof.
  apply (ewald_selection Example.small_sqrt Example.small_arcsin
           Example.small_cos Example.generator Example.aluminium (3 # 10)).
  - reflexivity.
  - intros x y H. exact H.
  - intros x y H. unfold Example.small_cos. now rewrite H.
Defined.

Lemma missing_element_is_reported_witness :
  exists sym,
    missing_symbol Example.table (sites Example.unlisted) sym
    /\ calculate_profile_data Example.table Example.factor_one _
         Example.same_families Example.generator Example.unlisted
         (3 # 10) (1 # 100000) (1 # 1000)
       = Raise (no_coefficients sym)
    /\ calculate_ed_data Example.small_sqrt Example.small_arcsin
         Example.small_cos
         (SimUtils.get_kinematical_intensities Example.table
            Example.unit_intensity)
         Example.generator Example.unlisted (3 # 10) true
       = Raise (SimUtils.UnknownElementError sym).
Proof.
  destruct (missing_element_is_reported Example.table Example.factor_one _
              Example.same_families Example.small_sqrt Example.small_arcsin
              Example.small_cos Example.unit_intensity Example.generator
              Example.unlisted (3 # 10) (1 # 100000) (1 # 1000) true)
    as (sym & H1 & H2 & _ & H3 & _).
  - reflexivity.
  - exists "Xx"%string.
    exists (Example.site_of "Xx" 0), {| symbol := "Xx"; atomic_number := 0 |}, 1.
    split; [left; reflexivity |]. split; [left; reflexivity |].
    split; reflexivity.
  - exists sym. split; [exact H1 |]. split; [exact H2 | exact H3].
Defined.

(** Counterexample to C5 as stated: for the element [Xx], which the table
    does not list, the profile raises [ValueError], not an exception of a
    class [UnknownElementError]. *)
Lemma profile_unlisted_element_is_value_error :
  calculate_profile_data Example.table Example.factor_one _
    Example.same_families Example.generator Example.unlisted
    (3 # 10) (1 # 100000) (1 # 1000)
  = Raise (ValueError
             "Unable to calculate XRD pattern as there is no scattering coefficients for Xx.")
  /\ ~ raises_class "UnknownElementError"
         (calculate_profile_data Example.table Example.factor_one _
            Example.same_families Example.generator Example.unlisted
            (3 # 10) (1 # 100000) (1 # 1000)).
Proof.
  split; [vm_compute; reflexivity |].
  intros [msg H]. vm_compute in H. discriminate H.
Qed.

Lemma profile_without_reflections_raises_witness :
  merge_loop Example.factor_one
    {| zs := [13%Z]; coeffs := [[(1, 2); (3, 4)]]; fcoords := [(0, 0, 0)];
       occus := [1]; dwfactors := [0] |}
    false (1 # 100000) (Example.cubic_points (1 # 10))
  = Return ([], [])
  /\ calculate_profile_data Example.table Example.factor_one _
       Example.same_families Example.generator Example.aluminium
       (1 # 10) (1 # 100000) (1 # 1000)
     = Raise max_empty
  /\ exn_class max_empty = "ValueError"%string.
Proof.
  apply (profile_without_reflections_raises Example.table Example.factor_one
           _ Example.same_families Example.generator Example.aluminium
           (1 # 10) (1 # 100000) (1 # 1000)).
  - reflexivity.
  - intros pt [<- | []]. reflexivity.
Defined.

(** Counterexample to C6 as stated: with a radius of 0.1 only the origin
    is enumerated and no reflection is retained; the call ends in the
    [ValueError] of the built-in [max], not in an exception of a class
    [EmptyProfileError]. *)
Lemma profile_empty_is_not_reported :
  (forall pt, In pt (Example.cubic_points (1 # 10)) -> snd (fst pt) == 0)
  /\ calculate_profile_data Example.table Example.factor_one _
       Example.same_families Example.generator Example.aluminium
       (1 # 10) (1 # 100000) (1 # 1000)
     = Raise (ValueError "max() arg is an empty sequence")
  /\ ~ raises_class "EmptyProfileError"
         (calculate_profile_data Example.table Example.factor_one _
            Example.same_families Example.generator Example.aluminium
            (1 # 10) (1 # 100000) (1 # 1000)).
Proof.
  split; [intros pt [<- | []]; reflexivity |].
  split; [vm_compute; reflexivity |].
  intros [msg H]. vm_compute in H. discriminate H.
Qed.

Lemma pattern_arrays_witness :
  exists sim,
    calculate_ed_data Example.small_sqrt Example.small_arcsin
      Example.small_cos
      (SimUtils.get_kinematical_intensities Example.table Example.unit_intensity)
      Example.generator Example.aluminium (3 # 10) true
    = Return sim
    /\ length (coordinates sim) = length (ed_intensities sim)
    /\ length (indices sim) = length (ed_intensities sim)
    /\ Forall (fun i => noise_floor < i) (ed_intensities sim).
Proof.
  eexists. split; [vm_compute; reflexivity |].
  apply (proj2 (pattern_arrays Example.small_sqrt Example.small_arcsin
                  Example.small_cos
                  (SimUtils.get_kinematical_intensities Example.table
                     Example.unit_intensity)
                  Example.generator Example.aluminium (3 # 10) true
                  eq_refl)).
  vm_compute. reflexivity.
Defined.

Lemma profile_records_antitone_witness :
  exists sim_hi sim_lo,
    calculate_profile_data Example.table Example.decaying_factor _
      Example.same_families Example.generator Example.layered
      (6 # 10) (1 # 100000) 50 = Return sim_hi
    /\ calculate_profile_data Example.table Example.decaying_factor _
         Example.same_families Example.generator Example.layered
         (6 # 10) (1 # 100000) 0 = Return sim_lo
    /\ magnitudes sim_hi = [1 # 4]
    /\ magnitudes sim_lo = [1 # 4; 1 # 2]
    /\ incl (records sim_hi) (records sim_lo)
    /\ forall rec,
         In rec (records sim_hi)
         <-> In rec (records sim_lo) /\ gt (snd (fst rec)) 50 = true.
Proof.
  eexists.
  destruct (profile_records_antitone Example.table Example.decaying_factor _
              Example.same_families Example.generator Example.layered
              (6 # 10) (1 # 100000) 0 50 _ ltac:(discriminate)
              eq_refl)
    as (sim_lo & H1 & H2 & H3).
  vm_compute in H1. injection H1 as <-.
  eexists. split; [vm_compute; reflexivity |].
  split; [vm_compute; reflexivity |].
  split; [reflexivity |]. split; [reflexivity |].
  split; [exact H2 | exact H3].
Defined.

Lemma profile_threshold_100_raises_witness :
  exists peaks gs m,
    merge_loop Example.factor_one
      {| zs := [13%Z]; coeffs := [[(1, 2); (3, 4)]]; fcoords := [(0, 0, 0)];
         occus := [1]; dwfactors := [0] |}
      false (1 # 100000) (Example.cubic_points (3 # 10))
    = Return (peaks, gs)
    /\ peaks <> []
    /\ max (List.map b_intensity (dict_values peaks)) = Return m
    /\ kept_items peaks m 100 = []
    /\ calculate_profile_data Example.table Example.factor_one _
         Example.same_families Example.generator Example.aluminium
         (3 # 10) (1 # 100000) 100
       = Raise max_empty.
Proof.
  apply (profile_threshold_100_raises Example.table Example.factor_one _
           Example.same_families Example.generator Example.aluminium
           (3 # 10) (1 # 100000) 100).
  - reflexivity.
  - intros hkl s2. eexists. reflexivity.
  - exists ((0, 0, 1), 1 # 4, 0%Z). split; [right; left; reflexivity |].
    intros H. discriminate H.
  - discriminate.
Defined.

Lemma cubic_points_ties_identical :
  ties_identical (Example.cubic_points (3 # 10)).
Proof.
  intros i j Hi Hj.
  change (Example.cubic_points (3 # 10))
    with [((0, 0, 0), 0, 0%Z);
          ((0, 0, 1), 1 # 4, 0%Z); ((1, 0, 0), 1 # 4, 0%Z);
          ((0, -1, 0), 1 # 4, 0%Z); ((-1, 0, 0), 1 # 4, 0%Z);
          ((0, 1, 0), 1 # 4, 0%Z); ((0, 0, -1), 1 # 4, 0%Z)] in Hi, Hj.
  cbn [In] in Hi, Hj.
  repeat (destruct Hi as [<- | Hi]; [| try contradiction]);
    repeat (destruct Hj as [<- | Hj]; [| try contradiction]);
    first [ intros _ _; reflexivity
          | unfold key_le; intros H1 H2; exfalso; split_hyps; lra ].
Defined.

Lemma profile_processing_order_witness :
  StronglySorted key_le (sorted_points (Example.cubic_points (3 # 10)))
  /\ sorted_points (Example.cubic_points (3 # 10))
     = sorted_points (rev (Example.cubic_points (3 # 10)))
  /\ calculate_profile_data Example.table Example.factor_one _
       Example.same_families Example.generator Example.aluminium
       (3 # 10) (1 # 100000) (1 # 1000)
     = calculate_profile_data Example.table Example.factor_one _
         Example.same_families Example.generator Example.aluminium_reversed
         (3 # 10) (1 # 100000) (1 # 1000).
Proof.
  destruct (profile_processing_order Example.table Example.factor_one _
              Example.same_families Example.generator Example.aluminium
              Example.aluminium_reversed (3 # 10) (1 # 100000) (1 # 1000))
    as [(_ & H2 & _) H].
  split; [exact H2 |].
  apply H.
  - reflexivity.
  - reflexivity.
  - apply Permutation_rev.
  - exact cubic_points_ties_identical.
Defined.


(* ================================================================== *)
(** * Further properties of the loop over the points *)
(* ================================================================== *)

Lemma insert_sorted_head {A} (ltb : A -> A -> bool) (x : A) (l : list A) :
  (forall z, In z l -> ltb z x = false) -> insert_sorted ltb x l = x :: l.
Proof.
  destruct l as [| y l]; simpl; intros H; [reflexivity |].
  now rewrite (H y (or_introl eq_refl)).
Qed.

(** Filtering commutes with inserting into a sorted list. *)
Lemma filter_insert_sorted {A} (ltb : A -> A -> bool) (P : A -> bool)
    (x : A) (l : list A) :
  (forall a b c, ltb b a = false -> ltb c b = false -> ltb c a = false) ->
  StronglySorted (fun a b => ltb b a = false) l ->
  List.filter P (insert_sorted ltb x l)
  = if P x then insert_sorted ltb x (List.filter P l) else List.filter P l.
Proof.
  intros Htrans Hl. induction Hl as [| y l Hl IH Hy]; simpl.
  - destruct (P x); reflexivity.
  - destruct (ltb y x) eqn:E; simpl.
    + rewrite IH. destruct (P y), (P x); simpl; rewrite ?E; reflexivity.
    + destruct (P x) eqn:Px.
      * rewrite insert_sorted_head; [reflexivity |].
        intros z Hz.
        assert (In z (y :: l)) as Hz'.
        { destruct (P y); [| right];
            [destruct Hz as [<- | Hz]; [now left | right] |];
            apply List.filter_In in Hz; tauto. }
        destruct Hz' as [<- | Hz']; [exact E |].
        rewrite List.Forall_forall in Hy.
        apply Htrans with y; [exact E | auto].
      * reflexivity.
Qed.

Lemma filter_sorted {A} (ltb : A -> A -> bool) (P : A -> bool) (l : list A) :
  (forall a b, ltb a b = true -> ltb b a = false) ->
  (forall a b c, ltb b a = false -> ltb c b = false -> ltb c a = false) ->
  List.filter P (sorted ltb l) = sorted ltb (List.filter P l).
Proof.
  intros Hasym Htrans. induction l as [| x l IH]; simpl; [reflexivity |].
  rewrite filter_insert_sorted; [| exact Htrans | now apply sorted_strongly].
  destruct (P x); simpl; now rewrite IH.
Qed.

Lemma for_each_skip {S B} (body : S -> B -> result S) (keep : B -> bool)
    (l : list B) (s : S) :
  (forall s x, keep x = false -> body s x = Return s) ->
  for_each body l s = for_each body (List.filter keep l) s.
Proof.
  intros H. revert s. induction l as [| x l IH]; intros s; simpl;
    [reflexivity |].
  destruct (keep x) eqn:E; simpl.
  - destruct (body s x); simpl; auto.
  - rewrite (H s x E). simpl. apply IH.
Qed.

Lemma sorted_points_filter (P : recip_point -> bool)
    (pts : list recip_point) :
  List.filter P (sorted_points pts) = sorted_points (List.filter P pts).
Proof.
  apply filter_sorted.
  - apply point_ltb_asym.
  - intros a b c. rewrite !point_ltb_false. apply key_le_trans.
Qed.

Section MoreLoopFacts.

Variable ATOMIC_SCATTERING_PARAMS : gmap string scattering_coeffs.
Variable structure_factor : Flattened -> list Z -> Q -> result (Q * Q).
Variable families : Type.
Variable get_unique_families : list hkl_tuple -> families.

Local Abbreviation profile :=
  (calculate_profile_data ATOMIC_SCATTERING_PARAMS structure_factor families
     get_unique_families).
Local Abbreviation flatten := (flatten_structure ATOMIC_SCATTERING_PARAMS).
Local Abbreviation points s r :=
  (get_points_in_sphere (reciprocal_lattice_crystallographic (lattice s)) r).
Local Abbreviation step flat is_hex tol :=
  (process_point structure_factor flat is_hex tol).
Local Abbreviation loop flat is_hex tol pts :=
  (merge_loop structure_factor flat is_hex tol pts).

(** X1.  Points of zero magnitude (the direct beam) are passed over: the
    loop ends in the same state with and without them, and two structures
    that differ only in such points have the same profile. *)
Theorem zero_magnitude_points_are_ignored (self : DiffractionGenerator)
    (s s' : Structure) (r tol minI : Q) (flat : Flattened) :
  loop flat (is_hexagonal (lattice s)) tol (points s r)
  = loop flat (is_hexagonal (lattice s)) tol
      (List.filter nonzero_magnitude (points s r))
  /\ (sites s = sites s' ->
      is_hexagonal (lattice s) = is_hexagonal (lattice s') ->
      List.filter nonzero_magnitude (points s r)
      = List.filter nonzero_magnitude (points s' r) ->
      profile self s r tol minI = profile self s' r tol minI).
Proof.
  assert (forall is_hex pts,
            loop flat is_hex tol pts
            = loop flat is_hex tol (List.filter nonzero_magnitude pts)) as H.
  { intros is_hex pts. unfold merge_loop.
    rewrite <- sorted_points_filter. apply for_each_skip.
    intros st pt Hpt. apply process_point_zero.
    unfold nonzero_magnitude in Hpt. apply negb_false_iff in Hpt.
    now apply Qeq_bool_iff. }
  split; [apply H |].
  intros Hsites Hhex Hpts.
  unfold calculate_profile_data, flatten_structure.
  rewrite Hsites, Hhex.
  destruct (for_each _ (sites s') Flattened_empty) as [flat' |];
    cbn [Py.bind]; [| reflexivity].
  assert (forall is_hex pts,
            merge_loop structure_factor flat' is_hex tol pts
            = merge_loop structure_factor flat' is_hex tol
                (List.filter nonzero_magnitude pts)) as H'.
  { intros is_hex pts. unfold merge_loop.
    rewrite <- sorted_points_filter. apply for_each_skip.
    intros st pt Hpt. apply process_point_zero.
    unfold nonzero_magnitude in Hpt. apply negb_false_iff in Hpt.
    now apply Qeq_bool_iff. }
  rewrite (H' _ (points s r)), (H' _ (points s' r)), Hpts. reflexivity.
Qed.

Lemma first_within_nonpositive (gs : list Q) (g tol : Q) :
  tol <= 0 -> first_within gs g tol = None.
Proof.
  intros Htol. unfold first_within.
  induction gs as [| a gs IH]; simpl; [reflexivity |].
  unfold within at 1.
  destruct (Qltb (Qabs (a - g)) tol) eqn:E; [| exact IH].
  qprop. pose proof (Qabs_nonneg (a - g)). lra.
Qed.

(** What one iteration does with a point of nonzero magnitude whose
    structure factor is defined. *)
Lemma process_point_nonzero (flat : Flattened) (is_hex : bool) (tol : Q)
    (peaks : peaks_dict) (gs : list Q) (pt : recip_point)
    (st' : loop_state) :
  nonzero_magnitude pt = true ->
  step flat is_hex tol (peaks, gs) pt = Return st' ->
  match first_within gs (snd (fst pt)) tol with
  | Some g0 =>
      exists v,
        dict_get peaks g0 = Return v
        /\ st' = (dict_set peaks g0
                    {| b_intensity :=
                         b_intensity v
                         + reflection_intensity structure_factor flat pt;
                       b_hkls := b_hkls v ++ [stored_tuple is_hex pt];
                       b_d_hkl := b_d_hkl v |}, gs)
  | None =>
      st' = (dict_set peaks (snd (fst pt))
               {| b_intensity :=
                    reflection_intensity structure_factor flat pt;
                  b_hkls := [stored_tuple is_hex pt];
                  b_d_hkl := 1 / snd (fst pt) |},
             gs ++ [snd (fst pt)])
  end.
Proof.
  destruct pt as [[[[h k] l] g] n]. unfold nonzero_magnitude.
  cbn [fst snd]. intros Hg. unfold process_point. rewrite Hg.
  unfold reflection_intensity, stored_tuple, miller_bravais.
  destruct (structure_factor flat _ _) as [f |]; cbn [Py.bind];
    [| discriminate].
  destruct (first_within gs g tol) as [g0 |].
  - destruct (dict_get peaks g0) as [v |]; cbn [Py.bind]; [| discriminate].
    intros [= <-]. exists v. split; reflexivity.
  - intros [= <-]. reflexivity.
Qed.

(** X2.  Under a tolerance that is not positive nothing is ever merged:
    [gs] records the magnitude of every point of nonzero magnitude, in the
    order of processing, and every peak holds one single reflection, the
    last one processed with its magnitude; intensities of equal magnitude
    are not added up. *)
Theorem nonpositive_tolerance_never_merges (flat : Flattened)
    (is_hex : bool) (tol : Q) (pts : list recip_point)
    (peaks : peaks_dict) (gs : list Q) :
  tol <= 0 ->
  loop flat is_hex tol pts = Return (peaks, gs) ->
  gs = List.map (fun pt => snd (fst pt))
         (List.filter nonzero_magnitude (sorted_points pts))
  /\ forall b,
       In b (dict_values peaks) ->
       exists pt,
         In pt pts /\ nonzero_magnitude pt = true
         /\ b = {| b_intensity :=
                     reflection_intensity structure_factor flat pt;
                   b_hkls := [stored_tuple is_hex pt];
                   b_d_hkl := 1 / snd (fst pt) |}.
Proof.
  intros Htol. unfold merge_loop.
  set (single := fun b : Bucket =>
         exists pt,
           In pt pts /\ nonzero_magnitude pt = true
           /\ b = {| b_intensity :=
                       reflection_intensity structure_factor flat pt;
                     b_hkls := [stored_tuple is_hex pt];
                     b_d_hkl := 1 / snd (fst pt) |}).
  assert (forall l st st',
            (forall pt, In pt l -> In pt pts) ->
            for_each (step flat is_hex tol) l st = Return st' ->
            snd st' = snd st
                      ++ List.map (fun pt => snd (fst pt))
                           (List.filter nonzero_magnitude l)
            /\ ((forall b, In b (dict_values (fst st)) -> single b) ->
                forall b, In b (dict_values (fst st')) -> single b)) as H.
  { induction l as [| pt l IH]; intros [d g0] st' Hin; cbn [for_each].
    - intros [= <-]. cbn [fst snd List.filter List.map]. rewrite app_nil_r.
      auto.
    - destruct (step flat is_hex tol (d, g0) pt) as [st1 |] eqn:E;
        cbn [Py.bind]; [| discriminate].
      intros Hrun.
      destruct (IH st1 st' (fun p Hp => Hin p (or_intror Hp)) Hrun)
        as [Hgs Hsingle].
      cbn [List.filter].
      destruct (nonzero_magnitude pt) eqn:Hnz.
      + apply process_point_nonzero in E; [| exact Hnz].
        rewrite first_within_nonpositive in E by exact Htol. subst st1.
        cbn [fst snd] in *. split.
        * rewrite Hgs. cbn [List.map]. now rewrite <- app_assoc.
        * intros Hd. apply Hsingle. intros b Hb.
          apply dict_set_values in Hb. destruct Hb as [-> | Hb]; [| auto].
          exists pt. split; [apply Hin; now left |]. split; auto.
      + rewrite process_point_zero in E.
        * injection E as <-. auto.
        * unfold nonzero_magnitude in Hnz. apply negb_false_iff in Hnz.
          now apply Qeq_bool_iff. }
  intros Hrun.
  destruct (H (sorted_points pts) ([], []) (peaks, gs)) as [Hgs Hsingle].
  - intros pt Hpt. now apply (Permutation_in _ (sorted_points_perm pts)).
  - exact Hrun.
  - cbn [fst snd] in *. split; [exact Hgs |].
    apply Hsingle. intros b [].
Qed.

Lemma Qsum_nil : Qsum [] = 0.
Proof. reflexivity. Qed.

Lemma Qsum_cons (a : Q) (l : list Q) : Qsum (a :: l) = a + Qsum l.
Proof. reflexivity. Qed.

Lemma Qsum_app (l1 l2 : list Q) : Qsum (l1 ++ l2) == Qsum l1 + Qsum l2.
Proof.
  induction l1 as [| a l1 IH]; simpl; [lra |]. rewrite IH. lra.
Qed.

Lemma Qsum_permuted (l l' : list Q) : Permutation l l' -> Qsum l == Qsum l'.
Proof.
  intros H. induction H; simpl; lra.
Qed.

Lemma Qsum_positive_member (l : list Q) :
  0 < Qsum l -> exists a, In a l /\ 0 < a.
Proof.
  induction l as [| a l IH]; simpl; [lra |].
  intros H. destruct (Qlt_le_dec 0 a) as [Ha | Ha].
  - exists a. auto.
  - destruct IH as (b & Hb & Hpos); [lra |]. exists b. auto.
Qed.

(** A key that is found sits in front of an entry that [dict_set]
    replaces in place. *)
Lemma dict_get_split (d : peaks_dict) (k : Q) (v : Bucket) :
  dict_get d k = Return v ->
  exists d1 k1 d2,
    d = d1 ++ (k1, v) :: d2
    /\ forall v', dict_set d k v' = d1 ++ (k1, v') :: d2.
Proof.
  induction d as [| [k0 v0] d IH]; simpl; [discriminate |].
  destruct (Qeq_bool k0 k) eqn:E.
  - intros [= ->]. exists [], k0, d. split; reflexivity.
  - intros H. destruct (IH H) as (d1 & k1 & d2 & -> & Hset).
    exists ((k0, v0) :: d1), k1, d2. split; [reflexivity |].
    intros v'. simpl. now rewrite Hset.
Qed.

(** Under a positive tolerance every reflection of nonzero magnitude ends
    in exactly one peak: intensities and tuples are neither lost nor
    counted twice. *)
Lemma loop_conserves (flat : Flattened) (is_hex : bool) (tol : Q)
    (l : list recip_point) (st st' : loop_state) :
  0 < tol ->
  loop_inv tol st ->
  for_each (step flat is_hex tol) l st = Return st' ->
  Qsum (List.map b_intensity (dict_values (fst st')))
  == Qsum (List.map b_intensity (dict_values (fst st)))
     + Qsum (List.map (reflection_intensity structure_factor flat)
               (List.filter nonzero_magnitude l))
  /\ length (concat (List.map b_hkls (dict_values (fst st'))))
     = (length (concat (List.map b_hkls (dict_values (fst st))))
        + length (List.filter nonzero_magnitude l))%nat.
Proof.
  intros Htol. revert st.
  induction l as [| pt l IH]; intros [d gs] Hinv; cbn [for_each].
  - intros [= <-]. cbn [List.filter List.map length]. rewrite Qsum_nil.
    split; [lra | lia].
  - destruct (step flat is_hex tol (d, gs) pt) as [st1 |] eqn:E;
      cbn [Py.bind]; [| discriminate].
    intros Hrun.
    pose proof (process_point_inv _ _ _ _ _ _ _ Hinv E) as Hinv1.
    destruct (IH st1 Hinv1 Hrun) as [Hsum Hcnt].
    rewrite Hsum, Hcnt. clear IH Hrun Hsum Hcnt.
    cbn [List.filter].
    destruct (nonzero_magnitude pt) eqn:Hnz.
    + apply process_point_nonzero in E; [| exact Hnz].
      cbn [List.map length fst]. rewrite Qsum_cons.
      destruct (first_within gs (snd (fst pt)) tol) as [g0 |] eqn:Ef.
      * destruct E as (v & Ev & ->). cbn [fst].
        destruct (dict_get_split d g0 v Ev) as (d1 & k1 & d2 & -> & Hset).
        rewrite Hset. unfold dict_values.
        rewrite !List.map_app. cbn [List.map snd b_intensity b_hkls].
        rewrite !concat_app. cbn [concat].
        rewrite !Qsum_app, !Qsum_cons.
        rewrite !List.length_app. cbn [length].
        split; [lra |]. rewrite ?List.length_app. cbn [length]. lia.
      * subst st1. cbn [fst].
        destruct Hinv as [_ _ _ Hsep _]. cbn [fst snd] in Hsep.
        destruct (Hsep Htol) as [Ek _].
        apply first_within_none in Ef.
        rewrite dict_set_keys_new.
        -- unfold dict_values. rewrite !List.map_app.
           cbn [List.map snd b_intensity b_hkls].
           rewrite concat_app, Qsum_app, Qsum_cons, Qsum_nil.
           cbn [concat]. rewrite List.length_app. cbn [length app].
           split; [lra | lia].
        -- intros k0 H0 Heq. rewrite Ek in H0.
           rewrite List.Forall_forall in Ef. specialize (Ef k0 H0).
           pose proof (Qabs_zero_of_eq _ _ Heq). lra.
    + rewrite process_point_zero in E.
      * injection E as <-. split; [lra | lia].
      * unfold nonzero_magnitude in Hnz. apply negb_false_iff in Hnz.
        now apply Qeq_bool_iff.
Qed.

(** X3.  Under a positive tolerance the loop conserves what it is given:
    the accumulated intensities of the peaks add up to the intensities of
    all points of nonzero magnitude, and the families of the peaks hold as
    many tuples as there are such points. *)
Theorem positive_tolerance_conserves_intensity (flat : Flattened)
    (is_hex : bool) (tol : Q) (pts : list recip_point)
    (peaks : peaks_dict) (gs : list Q) :
  0 < tol ->
  loop flat is_hex tol pts = Return (peaks, gs) ->
  Qsum (List.map b_intensity (dict_values peaks))
  == Qsum (List.map (reflection_intensity structure_factor flat)
             (List.filter nonzero_magnitude pts))
  /\ length (concat (List.map b_hkls (dict_values peaks)))
     = length (List.filter nonzero_magnitude pts).
Proof.
  intros Htol Hrun. unfold merge_loop in Hrun.
  destruct (loop_conserves flat is_hex tol _ _ _ Htol (loop_inv_init tol) Hrun)
    as [Hsum Hcnt].
  cbn [fst snd] in Hsum, Hcnt.
  change (dict_values []) with (@nil Bucket) in Hsum, Hcnt.
  cbn [List.map concat length] in Hsum, Hcnt.
  rewrite Qsum_nil in Hsum.
  rewrite sorted_points_filter in Hsum, Hcnt.
  pose proof (sorted_points_perm (List.filter nonzero_magnitude pts)) as Hp.
  split.
  - rewrite Hsum, Qplus_0_l. apply Qsum_permuted.
    now apply Permutation_map.
  - rewrite Hcnt. cbn [Nat.add]. now apply Permutation_length.
Qed.

Lemma reflection_intensity_nonneg (flat : Flattened) (pt : recip_point) :
  0 <= reflection_intensity structure_factor flat pt.
Proof.
  destruct pt as [[[[h k] l] g] n]. unfold reflection_intensity.
  destruct (structure_factor flat _ _); [apply intensity_of_nonneg | lra].
Qed.

Lemma Qsum_member_le (l : list Q) (a : Q) :
  (forall b, In b l -> 0 <= b) -> In a l -> a <= Qsum l.
Proof.
  induction l as [| b l IH]; intros Hpos Ha; [contradiction |].
  rewrite Qsum_cons.
  assert (0 <= Qsum l) as H0.
  { clear IH Ha. induction l as [| c l IH]; [rewrite Qsum_nil; lra |].
    rewrite Qsum_cons.
    pose proof (Hpos c (or_intror (or_introl eq_refl))).
    assert (0 <= Qsum l); [| lra].
    apply IH. intros d [<- | Hd]; apply Hpos; [now left | right; now right]. }
  destruct Ha as [<- | Ha]; [lra |].
  pose proof (Hpos b (or_introl eq_refl)).
  assert (a <= Qsum l); [| lra].
  apply IH; [| exact Ha]. intros c Hc. apply Hpos. now right.
Qed.

Lemma positive_sum_gives_peak (flat : Flattened) (is_hex : bool) (tol : Q)
    (pts : list recip_point) (peaks : peaks_dict) (gs : list Q)
    (pt : recip_point) :
  0 < tol ->
  loop flat is_hex tol pts = Return (peaks, gs) ->
  In pt pts -> nonzero_magnitude pt = true ->
  0 < reflection_intensity structure_factor flat pt ->
  exists b, In b (dict_values peaks) /\ 0 < b_intensity b.
Proof.
  intros Htol Hrun Hin Hnz Hpos. unfold merge_loop in Hrun.
  destruct (loop_conserves flat is_hex tol _ _ _ Htol (loop_inv_init tol) Hrun)
    as [Hsum _].
  cbn [fst snd] in Hsum.
  change (dict_values []) with (@nil Bucket) in Hsum.
  cbn [List.map] in Hsum. rewrite Qsum_nil in Hsum.
  assert (reflection_intensity structure_factor flat pt
          <= Qsum (List.map (reflection_intensity structure_factor flat)
                     (List.filter nonzero_magnitude (sorted_points pts))))
    as Hle.
  { apply Qsum_member_le.
    - intros b Hb. apply List.in_map_iff in Hb. destruct Hb as (p & <- & _).
      apply reflection_intensity_nonneg.
    - apply List.in_map. apply List.filter_In. split; [| exact Hnz].
      now apply (Permutation_in _
                   (Permutation_sym (sorted_points_perm pts))). }
  destruct (Qsum_positive_member
              (List.map b_intensity (dict_values peaks)))
    as (a & Ha & Hapos); [lra |].
  apply List.in_map_iff in Ha. destruct Ha as (b & <- & Hb). eauto.
Qed.

(** X4.  A profile is returned whenever the tolerance is positive, every
    species is tabulated, the structure factor is defined, some enumerated
    point of nonzero magnitude has a positive intensity and the threshold
    is below 100; it has at least one record and an intensity of 100. *)
Theorem profile_is_returned (self : DiffractionGenerator) (s : Structure)
    (r tol minI : Q) (flat : Flattened) :
  0 < tol ->
  flatten self s = Return flat ->
  (forall hkl s2, exists f, structure_factor flat hkl s2 = Return f) ->
  (exists pt,
     In pt (points s r) /\ nonzero_magnitude pt = true
     /\ 0 < reflection_intensity structure_factor flat pt) ->
  minI < 100 ->
  exists sim,
    profile self s r tol minI = Return sim
    /\ magnitudes sim <> []
    /\ exists q, In (Fin q) (intensities sim) /\ q == 100.
Proof.
  intros Htol Hf Hsf (pt & Hin & Hnz & Hpos) Hmin.
  destruct (merge_loop_returns structure_factor flat
              (is_hexagonal (lattice s)) tol (points s r) Hsf)
    as ([peaks gs] & Hl & Hinv).
  pose proof Hinv as [_ _ Hn _ Hw]. cbn [fst snd] in Hn, Hw.
  destruct (positive_sum_gives_peak flat (is_hexagonal (lattice s)) tol
              (points s r) peaks gs pt Htol Hl Hin Hnz Hpos)
    as (b & Hb & Hbpos).
  destruct (max_returns (List.map b_intensity (dict_values peaks)))
    as [m Hm].
  { intros E. apply (List.in_map b_intensity) in Hb. rewrite E in Hb.
    contradiction. }
  assert (0 < m) as Hmpos.
  { apply max_first_max in Hm.
    pose proof (first_max_ge _ _ (b_intensity b) Hm
                  (List.in_map b_intensity _ _ Hb)). lra. }
  destruct (scale_positive families get_unique_families peaks minI m Hw Hm
              Hmpos Hmin)
    as (max_y & Ey & _ & (kv & Hkv & Ekv) & Hsim).
  eexists.
  unfold calculate_profile_data. rewrite Hf. cbn [Py.bind].
  rewrite Hl. cbn [Py.bind]. rewrite Hsim.
  split; [reflexivity |]. cbn [magnitudes intensities]. split.
  - intros E. apply (List.in_map fst) in Hkv. rewrite E in Hkv.
    contradiction.
  - exists (b_intensity (snd kv) / max_y * 100). split.
    + apply (List.in_map
               (fun kv => Fin (b_intensity (snd kv) / max_y * 100)) _ _ Hkv).
    + rewrite Ekv, Ey. field. lra.
Qed.

(** X5.  Whatever the arguments, a profile that is returned is normalised:
    it has at least one record, its three lists have one length, the
    threshold was below 100, every intensity is a finite number strictly
    above the threshold and not above 100, and one intensity is 100. *)
Theorem returned_profile_is_normalised (self : DiffractionGenerator)
    (s : Structure) (r tol minI : Q) (sim : ProfileSimulation families) :
  profile self s r tol minI = Return sim ->
  magnitudes sim <> []
  /\ length (magnitudes sim) = length (intensities sim)
  /\ length (hkls sim) = length (intensities sim)
  /\ minI < 100
  /\ Forall (fun y => exists q, y = Fin q /\ minI < q /\ q <= 100)
       (intensities sim)
  /\ exists q, In (Fin q) (intensities sim) /\ q == 100.
Proof.
  intros Hsim.
  destruct (profile_return _ _ _ _ _ _ _ _ _ _ Hsim)
    as (flat & peaks & gs & m & y0 & Hf & Hl & Hm & Hy0 & _).
  pose proof (merge_loop_inv _ _ _ _ _ _ Hl) as [_ _ Hn _ Hw].
  cbn [fst snd] in Hn, Hw.
  destruct (max_bucket peaks m Hw Hm) as [Hle _].
  pose proof (max_bucket_nonneg peaks m Hn Hm) as Hm0.
  assert (0 < m /\ minI < 100) as [Hmpos Hmin].
  { apply max_first_max, first_max_In, List.in_map_iff in Hy0.
    destruct Hy0 as (kv & _ & Hkv). apply List.filter_In in Hkv.
    destruct Hkv as [Hkv Hk].
    apply (keeps_needs m minI (snd kv)); auto. }
  destruct (scale_positive families get_unique_families peaks minI m Hw Hm
              Hmpos Hmin)
    as (max_y & Ey & _ & (kv & Hkv & Ekv) & Hscale).
  rewrite (profile_eq _ _ _ _ self s r tol minI flat peaks gs Hf Hl), Hscale
    in Hsim.
  injection Hsim as <-. cbn [magnitudes intensities hkls].
  split.
  { intros E. apply (List.in_map fst) in Hkv. rewrite E in Hkv.
    contradiction. }
  split; [now rewrite !List.length_map |].
  split; [now rewrite !List.length_map |].
  split; [exact Hmin |]. split.
  - apply List.Forall_forall. intros y Hy.
    apply List.in_map_iff in Hy. destruct Hy as (kv' & <- & Hkv').
    eexists. split; [reflexivity |].
    apply List.filter_In in Hkv'. destruct Hkv' as [Hin Hk].
    apply keeps_positive in Hk; [| exact Hmpos].
    apply Hle in Hin.
    assert (b_intensity (snd kv') / max_y == b_intensity (snd kv') / m)
      as -> by (rewrite Ey; reflexivity).
    split; [exact Hk |].
    pose proof (Qdiv_le_1 (b_intensity (snd kv')) m). lra.
  - exists (b_intensity (snd kv) / max_y * 100). split.
    + apply (List.in_map
               (fun kv => Fin (b_intensity (snd kv) / max_y * 100)) _ _ Hkv).
    + rewrite Ekv, Ey. field. lra.
Qed.

(** Where the keys of [peaks] and the tuples of its families come from. *)
Lemma loop_provenance (flat : Flattened) (is_hex : bool) (tol : Q)
    (pts : list recip_point) (peaks : peaks_dict) (gs : list Q) :
  loop flat is_hex tol pts = Return (peaks, gs) ->
  (forall k, In k (dict_keys peaks) ->
             ~ k == 0 /\ exists pt, In pt pts /\ snd (fst pt) = k)
  /\ forall b, In b (dict_values peaks) ->
       b_hkls b <> []
       /\ forall t, In t (b_hkls b) ->
            exists pt, In pt pts /\ nonzero_magnitude pt = true
                       /\ t = stored_tuple is_hex pt.
Proof.
  unfold merge_loop.
  apply (for_each_invariant
           (fun st : loop_state =>
              (forall k, In k (dict_keys (fst st)) ->
                         ~ k == 0 /\ exists pt, In pt pts /\ snd (fst pt) = k)
              /\ forall b, In b (dict_values (fst st)) ->
                   b_hkls b <> []
                   /\ forall t, In t (b_hkls b) ->
                        exists pt, In pt pts /\ nonzero_magnitude pt = true
                                   /\ t = stored_tuple is_hex pt)
           (step flat is_hex tol) (sorted_points pts) ([], []) (peaks, gs)).
  - split; [intros k [] | intros b []].
  - intros [d g0] pt st' [Hk Hb] Hin E. cbn [fst] in Hk, Hb.
    apply (Permutation_in _ (sorted_points_perm pts)) in Hin.
    destruct (nonzero_magnitude pt) eqn:Hnz.
    + assert (~ snd (fst pt) == 0) as Hg.
      { unfold nonzero_magnitude in Hnz. apply negb_true_iff in Hnz.
        now apply Qeq_bool_false. }
      apply process_point_nonzero in E; [| exact Hnz].
      destruct (first_within g0 (snd (fst pt)) tol) as [g1 |].
      * destruct E as (v & Ev & ->). cbn [fst]. split.
        -- intros k Hkin. apply Hk.
           rewrite dict_set_keys_old in Hkin; [exact Hkin |].
           apply dict_get_key. eauto.
        -- intros b Hbin. apply dict_set_values in Hbin.
           destruct Hbin as [-> | Hbin]; [| auto].
           cbn [b_hkls]. split; [intros E; now apply app_eq_nil in E |].
           intros t Ht. apply in_app_or in Ht.
           destruct Ht as [Ht | [<- | []]]; [| eauto].
           apply dict_get_value in Ev. now apply (Hb v Ev).
      * subst st'. cbn [fst]. split.
        -- intros k Hkin.
           destruct (dict_set_keys d (snd (fst pt))
                       {| b_intensity :=
                            reflection_intensity structure_factor flat pt;
                          b_hkls := [stored_tuple is_hex pt];
                          b_d_hkl := 1 / snd (fst pt) |}) as [Ek | Ek];
             rewrite Ek in Hkin; [auto |].
           apply in_app_or in Hkin. destruct Hkin as [Hkin | [<- | []]];
             [auto | eauto].
        -- intros b Hbin. apply dict_set_values in Hbin.
           destruct Hbin as [-> | Hbin]; [| auto].
           cbn [b_hkls]. split; [discriminate |].
           intros t [<- | []]. eauto.
    + rewrite process_point_zero in E.
      * injection E as <-. auto.
      * unfold nonzero_magnitude in Hnz. apply negb_false_iff in Hnz.
        now apply Qeq_bool_iff.
Qed.

(** X6.  Every magnitude of a returned profile is the magnitude of an
    enumerated point, and none is zero: magnitudes are recorded, never
    computed or averaged. *)
Theorem profile_magnitudes_are_enumerated (self : DiffractionGenerator)
    (s : Structure) (r tol minI : Q) (sim : ProfileSimulation families) :
  profile self s r tol minI = Return sim ->
  Forall (fun x => ~ x == 0
                   /\ exists pt, In pt (points s r) /\ snd (fst pt) = x)
    (magnitudes sim).
Proof.
  intros Hsim.
  destruct (profile_return _ _ _ _ _ _ _ _ _ _ Hsim)
    as (flat & peaks & gs & m & y0 & Hf & Hl & Hm & Hy0 & ->).
  destruct (loop_provenance _ _ _ _ _ _ Hl) as [Hk _].
  cbn [magnitudes]. apply List.Forall_forall. intros x Hx.
  apply Hk.
  apply List.in_map_iff in Hx. destruct Hx as (kv & <- & Hkv).
  apply List.filter_In in Hkv. destruct Hkv as [Hkv _].
  apply (List.in_map fst) in Hkv. rewrite sorted_items_keys in Hkv.
  now apply (Permutation_in _ (sorted_perm Qltb (dict_keys peaks))).
Qed.

(** X7.  No family is empty, and every tuple of a family comes from an
    enumerated point of nonzero magnitude: its rounded indices h, k, l, and
    on a hexagonal lattice the four indices h, k, -h-k, l. *)
Theorem stored_tuples_are_miller_indices (flat : Flattened) (is_hex : bool)
    (tol : Q) (pts : list recip_point) (peaks : peaks_dict) (gs : list Q) :
  loop flat is_hex tol pts = Return (peaks, gs) ->
  forall b, In b (dict_values peaks) ->
    b_hkls b <> []
    /\ forall t, In t (b_hkls b) ->
         exists h k l g n,
           In ((h, k, l), g, n) pts /\ ~ g == 0
           /\ t = if is_hex
                  then [round h; round k; (- round h - round k)%Z; round l]
                  else [round h; round k; round l].
Proof.
  intros Hl b Hb.
  destruct (loop_provenance _ _ _ _ _ _ Hl) as [_ Hv].
  destruct (Hv b Hb) as [Hne Ht]. split; [exact Hne |].
  intros t Hin. destruct (Ht t Hin) as ([[[[h k] l] g] n] & Hpt & Hnz & ->).
  exists h, k, l, g, n. split; [exact Hpt |]. split; [| reflexivity].
  unfold nonzero_magnitude in Hnz. cbn [fst snd] in Hnz.
  apply negb_true_iff in Hnz. now apply Qeq_bool_false.
Qed.

Lemma for_each_raises {S B} (P : S -> Prop) (body : S -> B -> result S)
    (l : list B) (s : S) (e : exn) :
  P s ->
  (forall s x s', P s -> body s x = Return s' -> P s') ->
  for_each body l s = Raise e ->
  exists s0 x, P s0 /\ In x l /\ body s0 x = Raise e.
Proof.
  revert s. induction l as [| x l IH]; intros s Hs Hstep; cbn [for_each];
    [discriminate |].
  destruct (body s x) as [s1 | e1] eqn:E; cbn [Py.bind].
  - intros Hrun. destruct (IH s1 (Hstep s x s1 Hs E) Hstep Hrun)
      as (s0 & y & H0 & Hy & Hr).
    exists s0, y. split; [exact H0 |]. split; [now right | exact Hr].
  - intros [= ->]. exists s, x. split; [exact Hs |].
    split; [now left | exact E].
Qed.

(** X8.  The exceptions of the profile: a species without scattering
    coefficients, an exception of the structure-factor expression, or the
    [ValueError] of [max] on an empty list.  The lookups in [peaks] never
    fail: no [KeyError] leaves the function. *)
Theorem profile_exceptions (self : DiffractionGenerator) (s : Structure)
    (r tol minI : Q) (e : exn) :
  profile self s r tol minI = Raise e ->
  (exists sym,
     missing_symbol ATOMIC_SCATTERING_PARAMS (sites s) sym
     /\ e = no_coefficients sym)
  \/ (exists flat hkl s2,
        flatten self s = Return flat
        /\ structure_factor flat hkl s2 = Raise e)
  \/ e = max_empty.
Proof.
  unfold calculate_profile_data, flatten_structure.
  destruct (sites_loop ATOMIC_SCATTERING_PARAMS self (sites s)
              Flattened_empty)
    as [(_ & [flat Hf] & _) | (sym & Hmiss & Hrai & _)].
  - rewrite Hf. cbn [Py.bind].
    destruct (merge_loop _ _ _ _ _) as [[peaks gs] | e1] eqn:El;
      cbn [Py.bind].
    + rewrite scale_and_filter_eq.
      destruct (max (List.map b_intensity (dict_values peaks))) as [m |] eqn:Em;
        cbn [Py.bind].
      * cbv zeta.
        destruct (max (List.map _ (kept_items peaks m minI)))
          as [max_y |] eqn:Ey; cbn [Py.bind]; [discriminate |].
        intros [= <-]. right. right.
        destruct (List.map _ (kept_items peaks m minI)); [| discriminate].
        cbn in Ey. congruence.
      * intros [= <-]. right. right.
        destruct (List.map b_intensity (dict_values peaks)); [| discriminate].
        cbn in Em. congruence.
    + intros [= <-]. right. left. unfold merge_loop in El.
      destruct (for_each_raises (loop_inv tol) _ _ _ _ (loop_inv_init tol)
                  (fun st x st' Hst E =>
                     process_point_inv structure_factor flat
                       (is_hexagonal (lattice s)) tol st st' x Hst E)
                  El)
        as ([d g0] & [[[[h k] l] g] n] & Hinv & _ & Hr).
      destruct Hinv as [_ Hgs _ _ _]. cbn [fst snd] in Hgs.
      unfold process_point in Hr.
      destruct (Qeq_bool g 0); cbn [negb] in Hr; [discriminate |].
      destruct (structure_factor flat [round h; round k; round l]
                  (g / 2 * (g / 2))) as [f |] eqn:Esf; cbn [Py.bind] in Hr.
      * exfalso.
        destruct (first_within g0 g tol) as [g1 |] eqn:Ef; [| discriminate].
        apply first_within_some in Ef. destruct Ef as [Hin _].
        destruct (proj1 (dict_get_key d g1) (Hgs g1 Hin)) as [v Ev].
        rewrite Ev in Hr. discriminate.
      * injection Hr as <-. eauto.
  - rewrite Hrai. cbn [Py.bind]. intros [= <-]. left. eauto.
Qed.

(** Sorted keys that are different numbers ascend strictly. *)
Lemma sorted_keys_ascend (keys : list Q) :
  ForallOrdPairs (fun a b => ~ a == b) keys ->
  StronglySorted Qlt (sorted Qltb keys).
Proof.
  intros Hw.
  assert (StronglySorted (fun a b => Qltb b a = false) (sorted Qltb keys))
    as Hs.
  { apply sorted_strongly.
    - intros a b. rewrite Qltb_true, Qltb_false. lra.
    - intros a b c. rewrite !Qltb_false. lra. }
  assert (ForallOrdPairs (fun a b => ~ a == b) (sorted Qltb keys)) as Hw'.
  { apply (ordered_pairs_permuted _ keys).
    - intros a b H E. apply H. now symmetry.
    - apply Permutation_sym, sorted_perm.
    - exact Hw. }
  induction Hs as [| a l Hl IH Ha]; [constructor |].
  inversion Hw' as [| ? ? Hsa Hsl]; subst.
  constructor; [auto |].
  rewrite List.Forall_forall in *. intros b Hb.
  specialize (Ha b Hb). specialize (Hsa b Hb). qprop.
  destruct (Qlt_le_dec a b) as [H | H]; [exact H |].
  exfalso. apply Hsa. now apply Qle_antisym.
Qed.

Lemma ascending_NoDup (l : list Q) : StronglySorted Qlt l -> List.NoDup l.
Proof.
  intros H. induction H as [| a l Hl IH Ha]; constructor; [| exact IH].
  intros Hin. rewrite List.Forall_forall in Ha. specialize (Ha a Hin). lra.
Qed.

(** X9.  Whatever the tolerance, zero and negative ones included, the
    magnitudes of a returned profile ascend strictly: no magnitude occurs
    twice. *)
Theorem profile_magnitudes_ascend (self : DiffractionGenerator)
    (s : Structure) (r tol minI : Q) (sim : ProfileSimulation families) :
  profile self s r tol minI = Return sim ->
  StronglySorted Qlt (magnitudes sim) /\ List.NoDup (magnitudes sim).
Proof.
  intros Hsim.
  destruct (profile_return _ _ _ _ _ _ _ _ _ _ Hsim)
    as (flat & peaks & gs & m & y0 & Hf & Hl & Hm & Hy0 & ->).
  pose proof (merge_loop_inv _ _ _ _ _ _ Hl) as [_ _ _ _ Hw].
  cbn [fst] in Hw. cbn [magnitudes].
  assert (StronglySorted Qlt (List.map fst (kept_items peaks m minI))) as H.
  { unfold kept_items. apply StronglySorted_map_filter.
    rewrite sorted_items_keys. now apply sorted_keys_ascend. }
  split; [exact H | now apply ascending_NoDup].
Qed.

End MoreLoopFacts.

(* ================================================================== *)
(** * What a peak adds up *)
(* ================================================================== *)

Lemma dict_get_proper (d : peaks_dict) (k k' : Q) :
  k == k' -> dict_get d k = dict_get d k'.
Proof.
  intros H. induction d as [| [k1 v1] d IH]; simpl; [reflexivity |].
  destruct (Qeq_bool k1 k) eqn:E, (Qeq_bool k1 k') eqn:E';
    try reflexivity; try exact IH; qprop; exfalso.
  - apply E'. now rewrite E.
  - apply E. now rewrite E'.
Qed.

Lemma dict_get_item (d : peaks_dict) (g : Q) (v : Bucket) :
  dict_get d g = Return v -> exists k, In (k, v) d /\ k == g.
Proof.
  induction d as [| [k1 v1] d IH]; simpl; [discriminate |].
  destruct (Qeq_bool k1 g) eqn:E.
  - intros [= ->]. qprop. eauto.
  - intros H. destruct (IH H) as (k & Hk & Hg). eauto.
Qed.

Section PeakFacts.

Variable structure_factor : Flattened -> list Z -> Q -> result (Q * Q).
Variables (flat : Flattened) (is_hex : bool) (tol : Q).

Local Abbreviation step := (process_point structure_factor flat is_hex tol).
Local Abbreviation intensity :=
  (reflection_intensity structure_factor flat).

(** One iteration, seen from a key [k]: the point adds its intensity and
    its tuple under [k] when its magnitude is [k], and leaves [k] alone
    otherwise.  [M] lists magnitudes that the tolerance resolves. *)
Lemma process_point_at (M : list Q) (st st' : loop_state)
    (pt : recip_point) (k : Q) :
  0 < tol ->
  (forall a b, In a M -> In b M -> a == b \/ tol <= Qabs (a - b)) ->
  loop_inv tol st ->
  (forall k0, In k0 (dict_keys (fst st)) -> In k0 M) ->
  (nonzero_magnitude pt = true -> In (snd (fst pt)) M) ->
  step st pt = Return st' ->
  (forall k0, In k0 (dict_keys (fst st')) -> In k0 M)
  /\ intensity_at (fst st') k
     == intensity_at (fst st) k
        + (if same_magnitude k pt then intensity pt else 0)
  /\ tuples_at (fst st') k
     = (tuples_at (fst st) k + (if same_magnitude k pt then 1 else 0))%nat.
Proof.
  intros Htol Hclean Hinv HM Hpt E. destruct st as [d gs].
  cbn [fst] in HM |- *.
  destruct Hinv as [_ _ _ Hsep _]. cbn [fst snd] in Hsep.
  destruct (Hsep Htol) as [Ek _]. clear Hsep.
  unfold same_magnitude, intensity_at, tuples_at.
  destruct (nonzero_magnitude pt) eqn:Hnz; cbn [andb].
  - specialize (Hpt eq_refl).
    apply process_point_nonzero in E; [| exact Hnz].
    set (g := snd (fst pt)) in *.
    destruct (first_within gs g tol) as [g0 |] eqn:Ef.
    + destruct E as (v & Ev & ->). cbn [fst].
      apply first_within_some in Ef. destruct Ef as [Hin Hnear].
      rewrite <- Ek in Hin.
      assert (g0 == g) as Hg0.
      { destruct (Hclean g0 g (HM g0 Hin) Hpt) as [H | H]; [exact H | lra]. }
      split.
      { intros k0 Hk0. apply HM.
        rewrite dict_set_keys_old in Hk0; [exact Hk0 |].
        exists g0. split; [exact Hin | reflexivity]. }
      rewrite dict_get_set.
      destruct (Qeq_bool g0 k) eqn:E1; qprop.
      * rewrite (proj2 (Qeq_bool_iff g k)) by (now rewrite <- Hg0).
        rewrite <- (dict_get_proper d g0 k E1), Ev.
        cbn [b_intensity b_hkls]. rewrite List.length_app. cbn [length].
        split; [lra | lia].
      * rewrite (proj2 (Qeq_bool_false g k)) by (now rewrite <- Hg0).
        destruct (dict_get d k); split; first [lra | lia].
    + subst st'. cbn [fst].
      apply first_within_none in Ef. rewrite List.Forall_forall in Ef.
      split.
      { intros k0 Hk0.
        match type of Hk0 with
        | In _ (dict_keys (dict_set _ _ ?b)) =>
            destruct (dict_set_keys d g b) as [E0 | E0]
        end; rewrite E0 in Hk0; [auto |].
        apply in_app_or in Hk0. destruct Hk0 as [Hk0 | [<- | []]]; auto. }
      rewrite dict_get_set.
      destruct (Qeq_bool g k) eqn:E1; qprop.
      * destruct (dict_get d k) as [v |] eqn:Ed.
        -- exfalso.
           destruct (proj2 (dict_get_key d k) (ex_intro _ v Ed))
             as (k0 & Hk0 & Hkk).
           rewrite Ek in Hk0. specialize (Ef k0 Hk0).
           assert (k0 == g) as Hk0g by (now rewrite Hkk, E1).
           pose proof (Qabs_zero_of_eq _ _ Hk0g). lra.
        -- cbn [b_intensity b_hkls length]. split; [lra | lia].
      * destruct (dict_get d k); split; first [lra | lia].
  - rewrite process_point_zero in E.
    + injection E as <-. cbn [fst].
      split; [exact HM |]. split; [lra | lia].
    + unfold nonzero_magnitude in Hnz. apply negb_false_iff in Hnz.
      now apply Qeq_bool_iff.
Qed.

(** The whole loop, seen from a key. *)
Lemma loop_at (M : list Q) (l : list recip_point) (st st' : loop_state)
    (k : Q) :
  0 < tol ->
  (forall a b, In a M -> In b M -> a == b \/ tol <= Qabs (a - b)) ->
  loop_inv tol st ->
  (forall k0, In k0 (dict_keys (fst st)) -> In k0 M) ->
  (forall p, In p l -> nonzero_magnitude p = true -> In (snd (fst p)) M) ->
  for_each step l st = Return st' ->
  intensity_at (fst st') k
  == intensity_at (fst st) k
     + Qsum (List.map intensity (List.filter (same_magnitude k) l))
  /\ tuples_at (fst st') k
     = (tuples_at (fst st) k
        + length (List.filter (same_magnitude k) l))%nat.
Proof.
  intros Htol Hclean. revert st.
  induction l as [| pt l IH]; intros st Hinv HM Hl; cbn [for_each].
  - intros [= <-]. cbn [List.filter List.map length]. rewrite Qsum_nil.
    split; [lra | lia].
  - destruct (step st pt) as [st1 |] eqn:E; cbn [Py.bind]; [| discriminate].
    intros Hrun.
    destruct (process_point_at M st st1 pt k Htol Hclean Hinv HM
                (Hl pt (or_introl eq_refl)) E) as (HM1 & Hi & Ht).
    destruct (IH st1 (process_point_inv _ _ _ _ _ _ _ Hinv E) HM1
                (fun p Hp => Hl p (or_intror Hp)) Hrun) as [Hi' Ht'].
    rewrite Hi', Ht', Hi, Ht. cbn [List.filter].
    destruct (same_magnitude k pt); cbn [List.map length].
    + rewrite Qsum_cons. split; [lra | lia].
    + split; [lra | lia].
Qed.

(** X10.  When the tolerance resolves the magnitudes (two nonzero
    magnitudes are the same number or at least the tolerance apart), the
    loop builds the multiplicity-weighted peaks of a powder profile: every
    point of nonzero magnitude has its magnitude among the keys, and the
    peak under a key holds the sum of the intensities, and one tuple each,
    of exactly the points of that magnitude. *)
Theorem peak_sums_reflections_of_its_magnitude (pts : list recip_point)
    (peaks : peaks_dict) (gs : list Q) :
  0 < tol ->
  resolved tol pts ->
  merge_loop structure_factor flat is_hex tol pts = Return (peaks, gs) ->
  (forall p, In p pts -> nonzero_magnitude p = true ->
             exists k b, In (k, b) peaks /\ k == snd (fst p))
  /\ forall k b,
       In (k, b) peaks ->
       b_intensity b
       == Qsum (List.map intensity (List.filter (same_magnitude k) pts))
       /\ length (b_hkls b)
          = length (List.filter (same_magnitude k) pts).
Proof.
  intros Htol Hres Hrun.
  pose proof (merge_loop_inv _ _ _ _ _ _ Hrun) as [_ _ _ _ Hw].
  cbn [fst] in Hw. unfold merge_loop in Hrun.
  set (M := List.map (fun p : recip_point => snd (fst p))
              (List.filter nonzero_magnitude pts)).
  assert (forall k,
            intensity_at peaks k
            == Qsum (List.map intensity (List.filter (same_magnitude k) pts))
            /\ tuples_at peaks k
               = length (List.filter (same_magnitude k) pts)) as Hat.
  { intros k.
    destruct (loop_at M (sorted_points pts) ([], []) (peaks, gs) k Htol)
      as [Hi Ht].
    - intros a b Ha Hb. subst M.
      apply List.in_map_iff in Ha, Hb.
      destruct Ha as (p & <- & Hp), Hb as (q & <- & Hq).
      apply List.filter_In in Hp, Hq. apply Hres; tauto.
    - apply loop_inv_init.
    - intros k0 [].
    - intros p Hp Hnz. subst M.
      apply (List.in_map (fun p : recip_point => snd (fst p))).
      apply List.filter_In. split; [| exact Hnz].
      now apply (Permutation_in _ (sorted_points_perm pts)).
    - exact Hrun.
    - cbn [fst] in Hi, Ht. unfold intensity_at at 2 in Hi.
      unfold tuples_at at 2 in Ht. cbn [dict_get] in Hi, Ht.
      rewrite sorted_points_filter in Hi, Ht.
      pose proof (sorted_points_perm (List.filter (same_magnitude k) pts))
        as Hp.
      split.
      + rewrite Hi, Qplus_0_l. apply Qsum_permuted.
        now apply Permutation_map.
      + rewrite Ht. cbn [Nat.add]. now apply Permutation_length. }
  split.
  - intros p Hp Hnz. destruct (Hat (snd (fst p))) as [_ Ht].
    unfold tuples_at in Ht.
    destruct (dict_get peaks (snd (fst p))) as [b |] eqn:Eb.
    + destruct (dict_get_item _ _ _ Eb) as (k & Hk & Hkg). eauto.
    + exfalso.
      assert (In p (List.filter (same_magnitude (snd (fst p))) pts)) as Hin.
      { apply List.filter_In. split; [exact Hp |].
        unfold same_magnitude. rewrite Hnz. cbn [andb].
        apply Qeq_bool_iff. reflexivity. }
      destruct (List.filter (same_magnitude (snd (fst p))) pts);
        [contradiction | discriminate].
  - intros k b Hin. destruct (Hat k) as [Hi Ht].
    unfold intensity_at in Hi. unfold tuples_at in Ht.
    rewrite (dict_get_In peaks k b Hw Hin) in Hi, Ht. auto.
Qed.

End PeakFacts.

(* ================================================================== *)
(** * More on the pattern *)
(* ================================================================== *)

Lemma select_map_l {A B} (f : A -> B) (l : list A) (mask : list bool) :
  select (List.map f l) mask = List.map f (select l mask).
Proof.
  revert mask. induction l as [| a l IH]; intros [| b mask]; simpl;
    try reflexivity.
  destruct b; simpl; now rewrite IH.
Qed.

Lemma select_In {A} (x : A) (l : list A) (mask : list bool) :
  In x (select l mask) -> In x l.
Proof.
  revert mask. induction l as [| a l IH]; intros [| b mask]; simpl;
    try contradiction.
  destruct b; simpl; [intros [-> | H] |]; eauto.
Qed.

Lemma select_sublist {A} (l : list A) (mask : list bool) :
  sublist (select l mask) l.
Proof.
  revert mask. induction l as [| a l IH]; intros [| b mask]; simpl;
    try apply sublist_nil_l.
  destruct b; [apply sublist_skip | apply sublist_cons]; apply IH.
Qed.

Lemma filter_sublist {A} (P : A -> bool) (l : list A) :
  sublist (List.filter P l) l.
Proof.
  induction l as [| a l IH]; simpl; [constructor |].
  destruct (P a); [apply sublist_skip | apply sublist_cons]; exact IH.
Qed.

Lemma filter_nothing {A} (P : A -> bool) (l : list A) :
  (forall a, In a l -> P a = false) -> List.filter P l = [].
Proof.
  induction l as [| a l IH]; simpl; intros H; [reflexivity |].
  rewrite (H a (or_introl eq_refl)). apply IH. auto.
Qed.

Section MorePatternFacts.

Variables np_sqrt np_arcsin np_cos : Q -> Q.
Variable get_kinematical_intensities :
  Structure -> list vec3 -> list Q -> list Q -> Q -> gmap string Q
  -> result (list Q).

Local Abbreviation simulate :=
  (calculate_ed_data np_sqrt np_arcsin np_cos get_kinematical_intensities).
Local Abbreviation excited := (excited_reflections np_sqrt np_arcsin np_cos).
Local Abbreviation error := (excitation_error np_sqrt np_arcsin np_cos).
Local Abbreviation cart s :=
  (get_cartesian_coords (reciprocal_lattice_crystallographic (lattice s))).
Local Abbreviation points s r :=
  (get_points_in_sphere (reciprocal_lattice_crystallographic (lattice s)) r).

(** X11.  The arrays of a returned pattern are aligned: each coordinate is
    the Cartesian image of the index at the same position,
    [with_direct_beam] is recorded as it was given, and the indices are
    those of enumerated points whose excitation error is below the maximum,
    in the order of the enumeration. *)
Theorem pattern_is_aligned (self : DiffractionGenerator) (s : Structure)
    (r : Q) (direct : bool) (sim : DiffractionSimulation) :
  0 < wavelength self ->
  simulate self s r direct = Return sim ->
  coordinates sim = List.map (cart s) (indices sim)
  /\ with_direct_beam sim = direct
  /\ exists kept,
       sublist kept (points s r)
       /\ indices sim = List.map (fun p => fst (fst p)) kept
       /\ Forall (fun p => error (wavelength self) (cart s (fst (fst p)))
                           < max_excitation_error self) kept.
Proof.
  intros _. unfold calculate_ed_data. rewrite excited_eq. cbn [Py.bind].
  destruct (get_kinematical_intensities _ _ _ _ _ _) as [ints |];
    cbn [Py.bind]; [| discriminate].
  cbv zeta.
  destruct (boolean_index ints _) as [ints' |]; cbn [Py.bind];
    [| discriminate].
  destruct (boolean_index (List.map _ _) _) as [ic' |] eqn:E2; cbn [Py.bind];
    [| discriminate].
  destruct (boolean_index (List.map _ _) _) as [ii' |] eqn:E3 in |- *;
    cbn [Py.bind]; [| discriminate].
  intros [= <-]. cbn [coordinates indices with_direct_beam].
  apply boolean_index_return in E2, E3.
  destruct E2 as [_ ->], E3 as [_ ->].
  rewrite !select_map_l, List.map_map.
  split; [reflexivity |]. split; [reflexivity |].
  eexists. split; [| split; [reflexivity |]].
  - etransitivity; [apply select_sublist | apply filter_sublist].
  - apply List.Forall_forall. intros p Hp.
    apply select_In, List.filter_In in Hp. destruct Hp as [_ HP].
    now apply Qltb_true.
Qed.

Lemma excitation_error_nonneg (wl : Q) (c : vec3) : 0 <= error wl c.
Proof.
  destruct c as [[x y] z]. unfold excitation_error. apply Qabs_nonneg.
Qed.

(** X12.  With a maximum excitation error that is not positive no
    reflection is excited: the four masked arrays are empty, and a pattern
    that is returned is empty. *)
Theorem nonpositive_excitation_error_excites_nothing
    (self : DiffractionGenerator) (s : Structure) (r : Q) (direct : bool) :
  0 < wavelength self ->
  max_excitation_error self <= 0 ->
  excited self s r = Return ([], [], [], [])
  /\ forall sim,
       simulate self s r direct = Return sim ->
       coordinates sim = [] /\ indices sim = [] /\ ed_intensities sim = [].
Proof.
  intros _ Hmax.
  assert (excited self s r = Return ([], [], [], [])) as Hex.
  { rewrite excited_eq. rewrite filter_nothing; [reflexivity |].
    intros p _. apply Qltb_false.
    pose proof (excitation_error_nonneg (wavelength self)
                  (cart s (fst (fst p)))). lra. }
  split; [exact Hex |].
  intros sim. unfold calculate_ed_data. rewrite Hex. cbn [Py.bind].
  destruct (get_kinematical_intensities _ _ _ _ _ _) as [ints |];
    cbn [Py.bind]; [| discriminate].
  cbv zeta.
  destruct (boolean_index ints _) as [ints' |] eqn:E1; cbn [Py.bind];
    [| discriminate].
  destruct (boolean_index [] _) as [ic' |] eqn:E2; cbn [Py.bind];
    [| discriminate].
  intros [= <-]. cbn [coordinates indices ed_intensities].
  apply boolean_index_return in E1, E2.
  destruct E1 as [_ ->], E2 as [L2 ->].
  rewrite List.length_map in L2. destruct ints; [| discriminate].
  auto.
Qed.

(** X13.  Raising the maximum excitation error only adds reflections: at
    the same wavelength, the reflections excited under the smaller maximum
    are those excited under the larger one whose excitation error is below
    the smaller maximum, in the same order. *)
Theorem excited_reflections_grow_with_max_error
    (self self' : DiffractionGenerator) (s : Structure) (r : Q) :
  0 < wavelength self ->
  wavelength self' = wavelength self ->
  max_excitation_error self <= max_excitation_error self' ->
  exists kept',
    excited self' s r
    = Return (List.map (fun p => cart s (fst (fst p))) kept',
              List.map (fun p => fst (fst p)) kept',
              List.map (fun p => error (wavelength self)
                                   (cart s (fst (fst p)))) kept',
              List.map (fun p => snd (fst p)) kept')
    /\ let kept :=
         List.filter
           (fun p : recip_point =>
              Qltb (error (wavelength self) (cart s (fst (fst p))))
                (max_excitation_error self)) kept' in
       excited self s r
       = Return (List.map (fun p => cart s (fst (fst p))) kept,
                 List.map (fun p => fst (fst p)) kept,
                 List.map (fun p => error (wavelength self)
                                      (cart s (fst (fst p)))) kept,
                 List.map (fun p => snd (fst p)) kept).
Proof.
  intros _ Hwl Hmax. eexists. split.
  - rewrite excited_eq, Hwl. reflexivity.
  - cbv zeta. rewrite excited_eq. cbv zeta.
    rewrite filter_filter_implied; [reflexivity |].
    intros p Hp. qprop. apply Qltb_true. lra.
Qed.

(** X14.  A point on the optical axis has the modulus of its z coordinate
    as excitation error, so the direct beam is excited under every positive
    maximum excitation error.  [np.sqrt], [np.arcsin] and [np.cos] enter
    through their values at 0. *)
Theorem direct_beam_is_excited (self : DiffractionGenerator) (s : Structure)
    (r : Q) :
  0 < wavelength self ->
  0 < max_excitation_error self ->
  Proper (Qeq ==> Qeq) np_sqrt ->
  Proper (Qeq ==> Qeq) np_arcsin ->
  Proper (Qeq ==> Qeq) np_cos ->
  np_sqrt 0 == 0 -> np_arcsin 0 == 0 -> np_cos 0 == 1 ->
  (forall x y z,
     x == 0 -> y == 0 -> error (wavelength self) (x, y, z) == Qabs z)
  /\ forall i g n x y z,
       In (i, g, n) (points s r) ->
       cart s i = (x, y, z) -> x == 0 -> y == 0 -> z == 0 ->
       exists ic ii prox gs,
         excited self s r = Return (ic, ii, prox, gs) /\ In i ii.
Proof.
  intros _ Hmax Hsqrt Hasin Hcos Hs0 Ha0 Hc0.
  assert (forall x y z,
            x == 0 -> y == 0 -> error (wavelength self) (x, y, z) == Qabs z)
    as Haxis.
  { intros x y z Hx Hy. unfold excitation_error.
    assert (np_sqrt (x * x + y * y) == 0) as H1.
    { transitivity (np_sqrt 0); [| exact Hs0].
      apply Hsqrt. rewrite Hx, Hy. reflexivity. }
    assert (np_arcsin (np_sqrt (x * x + y * y) / (1 / wavelength self)) == 0)
      as H2.
    { transitivity (np_arcsin 0); [| exact Ha0].
      apply Hasin. rewrite H1. unfold Qdiv. apply Qmult_0_l. }
    assert (np_cos
              (np_arcsin (np_sqrt (x * x + y * y) / (1 / wavelength self)))
            == 1) as H3.
    { transitivity (np_cos 0); [| exact Hc0]. apply Hcos. exact H2. }
    rewrite H3.
    assert (1 / wavelength self * (1 - 1) - z == - z) as -> by ring.
    apply Qabs_opp. }
  split; [exact Haxis |].
  intros i g n x y z Hin Hc Hx Hy Hz.
  do 4 eexists. split; [apply excited_eq |].
  apply (List.in_map (fun p : recip_point => fst (fst p)) _ (i, g, n)).
  apply List.filter_In. split; [exact Hin |].
  cbn [fst]. rewrite Hc. apply Qltb_true.
  rewrite (Haxis x y z Hx Hy), Hz. exact Hmax.
Qed.

End MorePatternFacts.

(* ================================================================== *)
(** * The flattened arrays *)
(* ================================================================== *)

Lemma for_each_ext {S B} (body body' : S -> B -> result S) (l : list B)
    (s : S) :
  (forall s x, In x l -> body s x = body' s x) ->
  for_each body l s = for_each body' l s.
Proof.
  revert s. induction l as [| x l IH]; intros s H; cbn [for_each];
    [reflexivity |].
  rewrite (H s x (or_introl eq_refl)).
  destruct (body' s x); cbn [Py.bind]; [| reflexivity].
  apply IH. intros t y Hy. apply H. now right.
Qed.

Section FlattenFacts.

Variable ATOMIC_SCATTERING_PARAMS : gmap string scattering_coeffs.

Local Abbreviation flatten := (flatten_structure ATOMIC_SCATTERING_PARAMS).

(** The five arrays after the loop over the species of one site. *)
Lemma species_arrays (self : DiffractionGenerator) (site : Site)
    (items : list (Specie * Q)) (acc acc' : Flattened) :
  for_each (flatten_specie ATOMIC_SCATTERING_PARAMS self site) items acc
  = Return acc' ->
  zs acc' = zs acc ++ List.map (fun it => atomic_number (fst it)) items
  /\ List.map Some (coeffs acc')
     = List.map Some (coeffs acc)
       ++ List.map (fun it => ATOMIC_SCATTERING_PARAMS !! symbol (fst it))
            items
  /\ fcoords acc' = fcoords acc ++ List.map (fun _ => frac_coords site) items
  /\ occus acc' = occus acc ++ List.map snd items
  /\ dwfactors acc'
     = dwfactors acc
       ++ List.map
            (fun it =>
               default 0 (debye_waller_factors self !! symbol (fst it)))
            items.
Proof.
  revert acc. induction items as [| [sp occu] items IH]; intros acc;
    cbn [for_each].
  - intros [= <-]. cbn [List.map]. now rewrite !app_nil_r.
  - unfold flatten_specie at 1.
    destruct (ATOMIC_SCATTERING_PARAMS !! symbol sp) as [c |] eqn:E;
      cbn [Py.bind]; [| discriminate].
    intros Hrun. apply IH in Hrun.
    cbn [zs coeffs fcoords occus dwfactors] in Hrun.
    destruct Hrun as (H1 & H2 & H3 & H4 & H5).
    rewrite H1, H2, H3, H4, H5. cbn [List.map fst snd].
    rewrite List.map_app, E, <- !app_assoc. cbn [List.map app].
    repeat split; reflexivity.
Qed.

Lemma sites_arrays (self : DiffractionGenerator) (site_list : list Site)
    (acc acc' : Flattened) :
  for_each (flatten_site ATOMIC_SCATTERING_PARAMS self) site_list acc
  = Return acc' ->
  let rows := species_rows site_list in
  zs acc' = zs acc ++ List.map (fun r => atomic_number (fst (snd r))) rows
  /\ List.map Some (coeffs acc')
     = List.map Some (coeffs acc)
       ++ List.map
            (fun r => ATOMIC_SCATTERING_PARAMS !! symbol (fst (snd r))) rows
  /\ fcoords acc' = fcoords acc ++ List.map (fun r => frac_coords (fst r)) rows
  /\ occus acc' = occus acc ++ List.map (fun r => snd (snd r)) rows
  /\ dwfactors acc'
     = dwfactors acc
       ++ List.map
            (fun r =>
               default 0
                 (debye_waller_factors self !! symbol (fst (snd r))))
            rows.
Proof.
  cbv zeta. revert acc.
  induction site_list as [| site site_list IH]; intros acc; cbn [for_each].
  - intros [= <-]. cbn [species_rows flat_map List.map].
    now rewrite !app_nil_r.
  - unfold flatten_site at 1.
    destruct (for_each _ (species_and_occu site) acc) as [acc1 |] eqn:E;
      cbn [Py.bind]; [| discriminate].
    intros Hrun. apply IH in Hrun. apply species_arrays in E.
    destruct Hrun as (H1 & H2 & H3 & H4 & H5).
    destruct E as (E1 & E2 & E3 & E4 & E5).
    rewrite H1, H2, H3, H4, H5, E1, E2, E3, E4, E5.
    unfold species_rows. cbn [flat_map].
    rewrite !List.map_app, !List.map_map, <- !app_assoc. cbn [fst snd].
    repeat split; reflexivity.
Qed.

(** X15.  The flattened arrays hold one entry for every species of every
    site, sites in the order of the structure and species in the order of
    the site: the atomic number, the row of the scattering table, the
    fractional coordinates of the site, the occupancy, and the Debye-Waller
    factor of the species, 0 for a species that has none.  The five arrays
    have one length. *)
Theorem flattened_arrays_follow_species (self : DiffractionGenerator)
    (s : Structure) (flat : Flattened) :
  flatten self s = Return flat ->
  let rows := species_rows (sites s) in
  zs flat = List.map (fun r => atomic_number (fst (snd r))) rows
  /\ List.map Some (coeffs flat)
     = List.map (fun r => ATOMIC_SCATTERING_PARAMS !! symbol (fst (snd r)))
         rows
  /\ fcoords flat = List.map (fun r => frac_coords (fst r)) rows
  /\ occus flat = List.map (fun r => snd (snd r)) rows
  /\ dwfactors flat
     = List.map
         (fun r =>
            default 0 (debye_waller_factors self !! symbol (fst (snd r))))
         rows
  /\ length (zs flat) = length rows
  /\ length (coeffs flat) = length rows
  /\ length (fcoords flat) = length rows
  /\ length (occus flat) = length rows
  /\ length (dwfactors flat) = length rows.
Proof.
  intros Hf. unfold flatten_structure in Hf. apply sites_arrays in Hf.
  cbv zeta in *. cbn [Flattened_empty zs coeffs fcoords occus dwfactors
                        List.map app] in Hf.
  destruct Hf as (H1 & H2 & H3 & H4 & H5).
  repeat (split; [assumption |]).
  rewrite H1, H3, H4, H5, !List.length_map.
  repeat (split; [reflexivity |]).
  split; [| repeat split; reflexivity].
  rewrite <- (List.length_map Some (coeffs flat)), H2.
  apply List.length_map.
Qed.

(** X16.  Flattening succeeds exactly when every species of the structure
    has a row in the scattering table; the Debye-Waller factors never make
    it fail. *)
Theorem flatten_returns_iff_tabulated (self : DiffractionGenerator)
    (s : Structure) :
  (exists flat, flatten self s = Return flat)
  <-> forall site sp occu,
        In site (sites s) -> In (sp, occu) (species_and_occu site) ->
        exists c, ATOMIC_SCATTERING_PARAMS !! symbol sp = Some c.
Proof.
  unfold flatten_structure.
  destruct (sites_loop ATOMIC_SCATTERING_PARAMS self (sites s)
              Flattened_empty)
    as [(Hall & Hret & _) | (sym & Hmiss & Hrai & _)].
  - split; [intros _ | intros _; exact Hret].
    intros site sp occu Hs Hi.
    destruct (ATOMIC_SCATTERING_PARAMS !! symbol sp) as [c |] eqn:E;
      [eauto |].
    exfalso. apply (Hall (symbol sp)). exists site, sp, occu. auto.
  - split.
    + intros [flat Hf]. rewrite Hrai in Hf. discriminate.
    + intros Hall. exfalso.
      destruct Hmiss as (site & sp & occu & Hs & Hi & <- & Hnone).
      destruct (Hall site sp occu Hs Hi) as [c Hc]. congruence.
Qed.

Variable structure_factor : Flattened -> list Z -> Q -> result (Q * Q).
Variable families : Type.
Variable get_unique_families : list hkl_tuple -> families.

Local Abbreviation profile :=
  (calculate_profile_data ATOMIC_SCATTERING_PARAMS structure_factor families
     get_unique_families).

(** X17.  The profile uses the generator through its Debye-Waller factors
    alone, and only those of the species of the structure: neither the
    wavelength (the accelerating voltage) nor the maximum excitation error
    changes it, and a factor that is missing counts as a factor of 0. *)
Theorem profile_depends_on_debye_waller_only
    (self self' : DiffractionGenerator) (s : Structure) (r tol minI : Q) :
  (forall site sp occu,
     In site (sites s) -> In (sp, occu) (species_and_occu site) ->
     default 0 (debye_waller_factors self !! symbol sp)
     = default 0 (debye_waller_factors self' !! symbol sp)) ->
  profile self s r tol minI = profile self' s r tol minI.
Proof.
  intros H. unfold calculate_profile_data.
  assert (flatten self s = flatten self' s) as ->; [| reflexivity].
  unfold flatten_structure. apply for_each_ext. intros acc site Hs.
  unfold flatten_site. apply for_each_ext. intros acc' [sp occu] Hi.
  unfold flatten_specie. now rewrite (H site sp occu Hs Hi).
Qed.

(** X18.  A generator constructed without Debye-Waller factors, or with an
    empty dictionary of them, applies no thermal damping: every entry of
    [dwfactors] is 0. *)
Theorem generator_without_factors_has_no_damping
    (get_electron_wavelength : Q -> Q)
    (accelerating_voltage max_error : Q)
    (factors : option (gmap string Q)) (s : Structure) (flat : Flattened) :
  factors = None \/ factors = Some ∅ ->
  flatten
    (DiffractionGenerator_init get_electron_wavelength accelerating_voltage
       max_error factors) s
  = Return flat ->
  dwfactors flat = List.map (fun _ => 0) (species_rows (sites s)).
Proof.
  intros Hfac Hf. unfold flatten_structure in Hf. apply sites_arrays in Hf.
  destruct Hf as (_ & _ & _ & _ & H5). rewrite H5.
  cbn [Flattened_empty dwfactors app]. apply List.map_ext. intros row.
  unfold DiffractionGenerator_init. cbn [debye_waller_factors].
  destruct Hfac as [-> | ->]; cbn [from_option id];
    rewrite lookup_empty; reflexivity.
Qed.

End FlattenFacts.

(* ================================================================== *)
(** * Rounding the indices *)
(* ================================================================== *)

(** [round] returns the integer that lies less than one half away. *)
Lemma round_near (x : Q) (n : Z) :
  Qabs (x - inject_Z n) < 1 # 2 -> round x = n.
Proof.
  intros H. apply Qabs_Qlt_condition in H. destruct H as [Hlo Hhi].
  pose proof (Qfloor_le x) as Hf1. pose proof (Qlt_floor x) as Hf2.
  unfold round. set (f := Qfloor x) in *.
  assert (inject_Z (f + 1) == inject_Z f + 1) as E1
    by (rewrite inject_Z_plus; reflexivity).
  assert (inject_Z (n + 1) == inject_Z n + 1) as E2
    by (rewrite inject_Z_plus; reflexivity).
  assert (f < n + 1)%Z as Hfn by (rewrite Zlt_Qlt; lra).
  assert (n < f + 1 + 1)%Z as Hnf.
  { rewrite Zlt_Qlt, inject_Z_plus. change (inject_Z 1) with 1. lra. }
  assert (f = n \/ f = (n - 1)%Z) as [-> | ->] by lia.
  - destruct (Qcompare_spec (x - inject_Z n) (1 # 2)) as [Hc | Hc | Hc];
      [exfalso; lra | reflexivity | exfalso; lra].
  - assert (inject_Z (n - 1) == inject_Z n - 1) as E3.
    { unfold Z.sub. rewrite inject_Z_plus. reflexivity. }
    destruct (Qcompare_spec (x - inject_Z (n - 1)) (1 # 2)) as [Hc | Hc | Hc];
      [exfalso; lra | exfalso; lra | lia].
Qed.

(** X19.  An iteration uses the indices of a point through the nearest
    integers alone: indices that lie less than one half away from the
    integers H, K, L give the same structure factor, the same tuple and the
    same state as the indices H, K, L themselves. *)
Theorem iteration_rounds_indices
    (structure_factor : Flattened -> list Z -> Q -> result (Q * Q))
    (flat : Flattened) (is_hex : bool) (tol : Q) (st : loop_state)
    (h k l g : Q) (n : Z) (H K L : Z) :
  Qabs (h - inject_Z H) < 1 # 2 ->
  Qabs (k - inject_Z K) < 1 # 2 ->
  Qabs (l - inject_Z L) < 1 # 2 ->
  process_point structure_factor flat is_hex tol st ((h, k, l), g, n)
  = process_point structure_factor flat is_hex tol st
      ((inject_Z H, inject_Z K, inject_Z L), g, n).
Proof.
  intros Hh Hk Hl.
  assert (forall m : Z, round (inject_Z m) = m) as Hint.
  { intros m. apply round_near.
    assert (Qabs (inject_Z m - inject_Z m) == 0) as ->
      by (apply Qabs_zero_of_eq; reflexivity).
    reflexivity. }
  unfold process_point. destruct st as [peaks gs].
  now rewrite (round_near h H Hh), (round_near k K Hk), (round_near l L Hl),
    !Hint.
Qed.

(* ================================================================== *)
(** * The further properties on the cubic cell *)
(* ================================================================== *)

Lemma zero_magnitude_points_are_ignored_witness :
  calculate_profile_data Example.table Example.factor_one _
    Example.same_families Example.generator Example.aluminium
    (3 # 10) (1 # 100000) (1 # 1000)
  = calculate_profile_data Example.table Example.factor_one _
      Example.same_families Example.generator Example.aluminium_beamless
      (3 # 10) (1 # 100000) (1 # 1000).
Proof.
  apply (proj2 (zero_magnitude_points_are_ignored Example.table
                  Example.factor_one _ Example.same_families
                  Example.generator Example.aluminium
                  Example.aluminium_beamless (3 # 10) (1 # 100000)
                  (1 # 1000) Example.aluminium_arrays)).
  - reflexivity.
  - reflexivity.
  - reflexivity.
Defined.

Lemma nonpositive_tolerance_never_merges_witness :
  exists peaks gs,
    merge_loop Example.factor_one Example.aluminium_arrays false 0
      (Example.cubic_points (3 # 10))
    = Return (peaks, gs)
    /\ length gs = 6%nat
    /\ forall b, In b (dict_values peaks) -> length (b_hkls b) = 1%nat.
Proof.
  eexists. eexists. split; [vm_compute; reflexivity |].
  destruct (nonpositive_tolerance_never_merges Example.factor_one
              Example.aluminium_arrays false 0
              (Example.cubic_points (3 # 10)) _ _
              ltac:(discriminate) eq_refl) as [Hgs Hb].
  split.
  - reflexivity.
  - intros b Hin. destruct (Hb b Hin) as (pt & _ & _ & ->). reflexivity.
Defined.

Lemma positive_tolerance_conserves_intensity_witness :
  exists peaks gs,
    merge_loop Example.factor_one Example.aluminium_arrays false (1 # 100000)
      (Example.cubic_points (3 # 10))
    = Return (peaks, gs)
    /\ Qsum (List.map b_intensity (dict_values peaks)) == 6
    /\ length (concat (List.map b_hkls (dict_values peaks))) = 6%nat.
Proof.
  eexists. eexists. split; [vm_compute; reflexivity |].
  apply (positive_tolerance_conserves_intensity Example.factor_one
           Example.aluminium_arrays false (1 # 100000)
           (Example.cubic_points (3 # 10)) _ _ eq_refl eq_refl).
Defined.

Lemma profile_is_returned_witness :
  exists sim,
    calculate_profile_data Example.table Example.factor_one _
      Example.same_families Example.generator Example.aluminium
      (3 # 10) (1 # 100000) (1 # 1000) = Return sim
    /\ magnitudes sim <> []
    /\ exists q, In (Fin q) (intensities sim) /\ q == 100.
Proof.
  apply (profile_is_returned Example.table Example.factor_one _
           Example.same_families Example.generator Example.aluminium
           (3 # 10) (1 # 100000) (1 # 1000) Example.aluminium_arrays).
  - reflexivity.
  - reflexivity.
  - intros hkl s2. eexists. reflexivity.
  - exists ((0, 0, 1), 1 # 4, 0%Z). split; [right; left; reflexivity |].
    split; reflexivity.
  - reflexivity.
Defined.

Lemma returned_profile_is_normalised_witness :
  exists sim,
    calculate_profile_data Example.table Example.factor_one _
      Example.same_families Example.generator Example.aluminium
      (3 # 10) (1 # 100000) (1 # 1000) = Return sim
    /\ magnitudes sim <> []
    /\ length (magnitudes sim) = length (intensities sim)
    /\ length (hkls sim) = length (intensities sim)
    /\ Forall (fun y => exists q, y = Fin q /\ (1 # 1000) < q /\ q <= 100)
         (intensities sim).
Proof.
  eexists. split; [vm_compute; reflexivity |].
  destruct (returned_profile_is_normalised Example.table Example.factor_one
              _ Example.same_families Example.generator Example.aluminium
              (3 # 10) (1 # 100000) (1 # 1000) _ eq_refl)
    as (H1 & H2 & H3 & _ & H5 & _).
  split; [exact H1 |]. split; [exact H2 |]. split; [exact H3 | exact H5].
Defined.

Lemma profile_magnitudes_are_enumerated_witness :
  exists sim,
    calculate_profile_data Example.table Example.factor_one _
      Example.same_families Example.generator Example.aluminium
      (3 # 10) (1 # 100000) (1 # 1000) = Return sim
    /\ Forall (fun x => ~ x == 0
                        /\ exists pt, In pt (Example.cubic_points (3 # 10))
                                      /\ snd (fst pt) = x)
         (magnitudes sim).
Proof.
  eexists. split; [vm_compute; reflexivity |].
  apply (profile_magnitudes_are_enumerated Example.table Example.factor_one
           _ Example.same_families Example.generator Example.aluminium
           (3 # 10) (1 # 100000) (1 # 1000) _ eq_refl).
Defined.

Lemma stored_tuples_are_miller_indices_witness :
  exists peaks gs,
    merge_loop Example.factor_one Example.aluminium_arrays true (1 # 1000)
      [Example.near_a; Example.near_b]
    = Return (peaks, gs)
    /\ forall b, In b (dict_values peaks) ->
         b_hkls b <> []
         /\ forall t, In t (b_hkls b) ->
              exists h k l g n,
                In ((h, k, l), g, n) [Example.near_a; Example.near_b]
                /\ ~ g == 0
                /\ t = [round h; round k; (- round h - round k)%Z; round l].
Proof.
  eexists. eexists. split; [vm_compute; reflexivity |].
  apply (stored_tuples_are_miller_indices Example.factor_one
           Example.aluminium_arrays true (1 # 1000)
           [Example.near_a; Example.near_b] _ _ eq_refl).
Defined.

Lemma profile_exceptions_witness :
  exists e,
    calculate_profile_data Example.table Example.broken_factor _
      Example.same_families Example.generator Example.aluminium
      (3 # 10) (1 # 100000) (1 # 1000) = Raise e
    /\ ((exists sym,
           missing_symbol Example.table (sites Example.aluminium) sym
           /\ e = no_coefficients sym)
        \/ (exists flat hkl s2,
              flatten_structure Example.table Example.generator
                Example.aluminium = Return flat
              /\ Example.broken_factor flat hkl s2 = Raise e)
        \/ e = max_empty).
Proof.
  eexists. split; [vm_compute; reflexivity |].
  apply (profile_exceptions Example.table Example.broken_factor _
           Example.same_families Example.generator Example.aluminium
           (3 # 10) (1 # 100000) (1 # 1000) _ eq_refl).
Defined.

Lemma cubic_points_resolved :
  resolved (1 # 100000) (Example.cubic_points (3 # 10)).
Proof.
  intros p q Hp Hq.
  change (Example.cubic_points (3 # 10))
    with [((0, 0, 0), 0, 0%Z);
          ((0, 0, 1), 1 # 4, 0%Z); ((1, 0, 0), 1 # 4, 0%Z);
          ((0, -1, 0), 1 # 4, 0%Z); ((-1, 0, 0), 1 # 4, 0%Z);
          ((0, 1, 0), 1 # 4, 0%Z); ((0, 0, -1), 1 # 4, 0%Z)] in Hp, Hq.
  cbn [In] in Hp, Hq.
  repeat (destruct Hp as [<- | Hp]; [| try contradiction]);
    repeat (destruct Hq as [<- | Hq]; [| try contradiction]);
    intros Hnp Hnq;
    first [ discriminate Hnp | discriminate Hnq | left; reflexivity ].
Defined.

Lemma peak_sums_reflections_of_its_magnitude_witness :
  exists peaks gs,
    merge_loop Example.factor_one Example.aluminium_arrays false (1 # 100000)
      (Example.cubic_points (3 # 10))
    = Return (peaks, gs)
    /\ forall k b,
         In (k, b) peaks ->
         b_intensity b
         == Qsum (List.map
                    (reflection_intensity Example.factor_one
                       Example.aluminium_arrays)
                    (List.filter (same_magnitude k)
                       (Example.cubic_points (3 # 10))))
         /\ length (b_hkls b)
            = length (List.filter (same_magnitude k)
                        (Example.cubic_points (3 # 10))).
Proof.
  eexists. eexists. split; [vm_compute; reflexivity |].
  apply (peak_sums_reflections_of_its_magnitude Example.factor_one
           Example.aluminium_arrays false (1 # 100000)
           (Example.cubic_points (3 # 10)) _ _ eq_refl
           cubic_points_resolved eq_refl).
Defined.

Lemma pattern_is_aligned_witness :
  exists sim,
    calculate_ed_data Example.small_sqrt Example.small_arcsin
      Example.small_cos
      (SimUtils.get_kinematical_intensities Example.table
         Example.unit_intensity)
      Example.generator Example.aluminium (3 # 10) true
    = Return sim
    /\ coordinates sim = List.map Example.cubic_cart (indices sim)
    /\ with_direct_beam sim = true.
Proof.
  eexists. split; [vm_compute; reflexivity |].
  destruct (pattern_is_aligned Example.small_sqrt Example.small_arcsin
              Example.small_cos
              (SimUtils.get_kinematical_intensities Example.table
                 Example.unit_intensity)
              Example.generator Example.aluminium (3 # 10) true _
              eq_refl eq_refl) as (H1 & H2 & _).
  split; [exact H1 | exact H2].
Defined.

Lemma nonpositive_excitation_error_excites_nothing_witness :
  excited_reflections Example.small_sqrt Example.small_arcsin
    Example.small_cos Example.strict_generator Example.aluminium (3 # 10)
  = Return ([], [], [], []).
Proof.
  apply (proj1 (nonpositive_excitation_error_excites_nothing
                  Example.small_sqrt Example.small_arcsin Example.small_cos
                  (SimUtils.get_kinematical_intensities Example.table
                     Example.unit_intensity)
                  Example.strict_generator Example.aluminium (3 # 10) true
                  eq_refl ltac:(discriminate))).
Defined.

Lemma excited_reflections_grow_with_max_error_witness :
  exists kept',
    excited_reflections Example.small_sqrt Example.small_arcsin
      Example.small_cos Example.generator Example.aluminium (3 # 10)
    = Return (List.map (fun p => Example.cubic_cart (fst (fst p))) kept',
              List.map (fun p => fst (fst p)) kept',
              List.map
                (fun p =>
                   excitation_error Example.small_sqrt Example.small_arcsin
                     Example.small_cos (251 # 10000)
                     (Example.cubic_cart (fst (fst p)))) kept',
              List.map (fun p => snd (fst p)) kept')
    /\ let kept :=
         List.filter
           (fun p : recip_point =>
              Qltb
                (excitation_error Example.small_sqrt Example.small_arcsin
                   Example.small_cos (251 # 10000)
                   (Example.cubic_cart (fst (fst p))))
                0) kept' in
       excited_reflections Example.small_sqrt Example.small_arcsin
         Example.small_cos Example.strict_generator Example.aluminium
         (3 # 10)
       = Return (List.map (fun p => Example.cubic_cart (fst (fst p))) kept,
                 List.map (fun p => fst (fst p)) kept,
                 List.map
                   (fun p =>
                      excitation_error Example.small_sqrt
                        Example.small_arcsin Example.small_cos (251 # 10000)
                        (Example.cubic_cart (fst (fst p)))) kept,
                 List.map (fun p => snd (fst p)) kept).
Proof.
  apply (excited_reflections_grow_with_max_error Example.small_sqrt
           Example.small_arcsin Example.small_cos Example.strict_generator
           Example.generator Example.aluminium (3 # 10)
           eq_refl eq_refl ltac:(discriminate)).
Defined.

Lemma direct_beam_is_excited_witness :
  exists ic ii prox gs,
    excited_reflections Example.small_sqrt Example.small_arcsin
      Example.small_cos Example.generator Example.aluminium (3 # 10)
    = Return (ic, ii, prox, gs)
    /\ In (0, 0, 0) ii.
Proof.
  apply (proj2 (direct_beam_is_excited Example.small_sqrt
                  Example.small_arcsin Example.small_cos Example.generator
                  Example.aluminium (3 # 10) eq_refl eq_refl
                  (fun x y H => H) (fun x y H => H)
                  ltac:(intros x y H; unfold Example.small_cos;
                        now rewrite H)
                  ltac:(reflexivity) ltac:(reflexivity)
                  ltac:(vm_compute; reflexivity))
           (0, 0, 0) 0 0%Z (0 / 4) (0 / 4) (0 / 4)).
  - left. reflexivity.
  - reflexivity.
  - vm_compute. reflexivity.
  - vm_compute. reflexivity.
  - vm_compute. reflexivity.
Defined.

Lemma flattened_arrays_follow_species_witness :
  zs Example.aluminium_arrays = [13%Z]
  /\ List.map Some (coeffs Example.aluminium_arrays)
     = [Example.table !! "Al"%string]
  /\ fcoords Example.aluminium_arrays = [(0, 0, 0)]
  /\ occus Example.aluminium_arrays = [1]
  /\ dwfactors Example.aluminium_arrays = [0].
Proof.
  destruct (flattened_arrays_follow_species Example.table Example.generator
              Example.aluminium Example.aluminium_arrays eq_refl)
    as (H1 & H2 & H3 & H4 & H5 & _).
  split; [exact H1 |]. split; [exact H2 |]. split; [exact H3 |].
  split; [exact H4 | exact H5].
Defined.

Lemma flatten_returns_iff_tabulated_witness :
  exists flat,
    flatten_structure Example.table Example.generator Example.aluminium
    = Return flat.
Proof.
  apply (proj2 (flatten_returns_iff_tabulated Example.table
                  Example.generator Example.aluminium)).
  intros site sp occu [<- | []] [[= <- <-] | []].
  eexists. reflexivity.
Defined.

Lemma profile_depends_on_debye_waller_only_witness :
  calculate_profile_data Example.table Example.factor_one _
    Example.same_families Example.generator Example.aluminium
    (3 # 10) (1 # 100000) (1 # 1000)
  = calculate_profile_data Example.table Example.factor_one _
      Example.same_families Example.other_generator Example.aluminium
      (3 # 10) (1 # 100000) (1 # 1000).
Proof.
  apply (profile_depends_on_debye_waller_only Example.table
           Example.factor_one _ Example.same_families Example.generator
           Example.other_generator Example.aluminium
           (3 # 10) (1 # 100000) (1 # 1000)).
  intros site sp occu [<- | []] [[= <- <-] | []].
  reflexivity.
Defined.

Lemma generator_without_factors_has_no_damping_witness :
  exists flat,
    flatten_structure Example.table
      (DiffractionGenerator_init Example.fixed_wavelength 200 (1 # 100) None)
      Example.aluminium
    = Return flat
    /\ dwfactors flat = [0].
Proof.
  eexists. split; [vm_compute; reflexivity |].
  apply (generator_without_factors_has_no_damping Example.table
           Example.fixed_wavelength 200 (1 # 100) None Example.aluminium _
           (or_introl eq_refl) eq_refl).
Defined.

Lemma iteration_rounds_indices_witness :
  process_point Example.factor_one Example.aluminium_arrays false
    (1 # 100000) ([], []) Example.noisy_a
  = process_point Example.factor_one Example.aluminium_arrays false
      (1 # 100000) ([], []) Example.near_a.
Proof.
  apply (iteration_rounds_indices Example.factor_one
           Example.aluminium_arrays false (1 # 100000) ([], [])
           (1001 # 1000) (- (1 # 1000)) 0 (25 # 100) 0%Z 1%Z 0%Z 0%Z).
  - reflexivity.
  - reflexivity.
  - reflexivity.
Defined.

Lemma profile_magnitudes_ascend_witness :
  exists sim,
    calculate_profile_data Example.table Example.factor_one _
      Example.same_families Example.generator Example.aluminium
      (3 # 10) 0 (1 # 1000) = Return sim
    /\ StronglySorted Qlt (magnitudes sim)
    /\ List.NoDup (magnitudes sim).
Proof.
  eexists. split; [vm_compute; reflexivity |].
  apply (profile_magnitudes_ascend Example.table Example.factor_one _
           Example.same_families Example.generator Example.aluminium
           (3 # 10) 0 (1 # 1000) _ eq_refl).
Defined.
